(** * TeCNNis: hit-frame weighting, sequence building and court coordinates

    A shallow embedding of the algorithmic core of
    [2_TeCNNis_Paper/TeCCNis_Code.py]: the coordinate mapper, the linear
    weight assignment, the balancer, the sequence builder, the two
    dataset classes and the hit-frame selection of the prediction
    pipeline.

    Conventions of the embedding.
    - Python [float] values are idealised as rationals ([Q]); a value that
      pandas regards as missing ([None]/[NaN]) is [None] of an [option].
    - A pandas DataFrame is the list of its rows in table order; each row
      carries its index label ([name]).
    - A Python exception that the source does not catch is the [None] of
      the result [option]; exceptions that it does catch are modelled by
      the handler's branch.
    - Python [dict]s and the label-indexed landing table are [gmap]s. *)

From Stdlib Require Import ZArith QArith Qround Qminmax String Ascii List Lia.
From Stdlib Require Import Permutation DecimalString.
From Stdlib Require Import Lqa DecimalNat DecimalZ Sorted.
From stdpp Require Import base option list gmap strings.

Local Open Scope string_scope.
Local Open Scope Z_scope.

(** ** Python and numpy primitives *)

Module Py.

(** [l[i]] on a Python list: a negative index counts from the end, an
    index out of range raises [IndexError]. *)
Definition index {A} (l : list A) (i : Z) : option A :=
  let n := Z.of_nat (length l) in
  if (0 <=? i) && (i <? n) then nth_error l (Z.to_nat i)
  else if (i <? 0) && (- n <=? i) then nth_error l (Z.to_nat (n + i))
  else None.

(** [range(a, b)]. *)
Definition range (a b : Z) : list Z :=
  map (fun k => a + Z.of_nat k) (seq 0 (Z.to_nat (b - a))).

(** [np.clip(i, lo, hi)] on integers: [minimum(maximum(i, lo), hi)]. *)
Definition clipZ (i lo hi : Z) : Z := Z.min (Z.max i lo) hi.

(** Comparison of floats, as booleans. *)
Definition Qltb (a b : Q) : bool := negb (Qle_bool b a).

(** [max(a, b)] of the Python builtins: the first argument unless the
    second is strictly greater. *)
Definition max2 (a b : Q) : Q := if Qltb a b then b else a.

(** [np.clip(x, lo, hi)] on floats. *)
Definition clip (x lo hi : Q) : Q :=
  let m := if Qltb x lo then lo else x in
  if Qltb hi m then hi else m.

(** [int(x)] of a float: truncation toward zero. *)
Definition int_of_float (x : Q) : Z := Z.quot (Qnum x) (Z.pos (Qden x)).

(** [l.index(x)]: first position of [x], [ValueError] when absent. *)
Fixpoint list_index {A} (eqb : A -> A -> bool) (x : A) (l : list A) : option Z :=
  match l with
  | [] => None
  | y :: t => if eqb y x then Some 0
              else match list_index eqb x t with
                   | Some k => Some (k + 1)
                   | None => None
                   end
  end.

(** [max(l, key=key)]: the first element whose key no later element
    exceeds strictly; [ValueError] on the empty list. *)
Fixpoint max_by {A} (key : A -> Q) (best : A) (l : list A) : A :=
  match l with
  | [] => best
  | x :: t => if Qltb (key best) (key x) then max_by key x t else max_by key best t
  end.

Definition max_key {A} (key : A -> Q) (l : list A) : option A :=
  match l with
  | [] => None
  | x :: t => Some (max_by key x t)
  end.

(** [os.path.basename]: what follows the last slash. *)
Fixpoint basename_aux (acc s : string) : string :=
  match s with
  | EmptyString => acc
  | String c t => if Ascii.eqb c "/" then basename_aux t t else basename_aux acc t
  end.

Definition basename (s : string) : string := basename_aux s s.

Definition is_digit (c : ascii) : bool :=
  let n := nat_of_ascii c in (48 <=? n)%nat && (n <=? 57)%nat.

Definition digit_val (c : ascii) : Z := Z.of_nat (nat_of_ascii c) - 48.

(** The greedy group [(\d+)] read at the head of [s] and converted by
    [int]: [None] when [s] does not start with a digit. *)
Fixpoint digits_from (acc : Z) (s : string) : Z :=
  match s with
  | String c t => if is_digit c then digits_from (10 * acc + digit_val c) t else acc
  | EmptyString => acc
  end.

Definition leading_int (s : string) : option Z :=
  match s with
  | String c _ => if is_digit c then Some (digits_from 0 s) else None
  | EmptyString => None
  end.

(** [s] starts with [p]; the rest of [s] is returned. *)
Fixpoint strip_prefix (p s : string) : option string :=
  match p, s with
  | EmptyString, _ => Some s
  | String a p', String b s' => if Ascii.eqb a b then strip_prefix p' s' else None
  | String _ _, EmptyString => None
  end.

(** [m = re.search(r'frame_(\d+)', s)] followed by [int(m.group(1))]:
    the leftmost occurrence of [frame_] that a digit follows. *)
Fixpoint search_frame_number (s : string) : option Z :=
  match match strip_prefix "frame_" s with
        | Some rest => leading_int rest
        | None => None
        end with
  | Some n => Some n
  | None => match s with
            | String _ t => search_frame_number t
            | EmptyString => None
            end
  end.

End Py.

(** ** CoordinateMapper *)

(** [map_coordinates], lines 216-229.  [pd.isna] holds of a missing
    distance or shot type; the null pair is [(None, None)]. *)
Definition map_coordinates (dist_sideline dist_baseline : option Q)
    (shot_type : option string) (court_width court_length : Q)
    : option Q * option Q :=
  match dist_sideline, dist_baseline, shot_type with
  | Some ds, Some db, Some st =>
      if negb (existsb (String.eqb st) ["Straight"; "Cross"])
         || Qle_bool court_width 0 || Qle_bool court_length 0
      then (None, None)
      else
        let y_norm := (db / court_length)%Q in
        let x_norm :=
          if String.eqb st "Straight"
          then ((court_width - ds) / court_width)%Q
          else (ds / court_width)%Q in
        (Some (Py.clip x_norm 0 1), Some (Py.clip y_norm 0 1))
  | _, _, _ => (None, None)
  end.

(** [denormalize_coordinates], lines 1129-1136: distances from the left
    sideline, from the right sideline and from the baseline. *)
Definition denormalize_coordinates (norm_x norm_y court_width court_length : Q)
    : option Q * option Q * option Q :=
  let norm_x := Py.clip norm_x 0 1 in
  let norm_y := Py.clip norm_y 0 1 in
  if Qle_bool court_width 0 || Qle_bool court_length 0 then (None, None, None)
  else
    let dist_from_left_m := (norm_x * court_width)%Q in
    let dist_from_right_m := (court_width - dist_from_left_m)%Q in
    let dist_from_baseline_m := (norm_y * court_length)%Q in
    (Some dist_from_left_m, Some dist_from_right_m, Some dist_from_baseline_m).

Definition DOUBLES_COURT_WIDTH_M : Q := 1097 # 100.
Definition HALF_COURT_LENGTH_M : Q := 1189 # 100.

(** ** DataFrames of frames *)

(** One row of the frame table ([hit_frames.csv] with the derived
    columns): [name] is the row's index label. *)
Record Row := mkRow {
  name : Z;
  frame_path : string;
  video_id : string;
  is_hit_frame : Z;
  weight : Q
}.

Definition set_weight (w : Q) (r : Row) : Row :=
  mkRow (name r) (frame_path r) (video_id r) (is_hit_frame r) w.

(** [df.index.get_loc(label)]: the position of a label, [KeyError] when
    it is absent. *)
Definition get_loc (group : list Row) (label : Z) : option Z :=
  Py.list_index Z.eqb label (map name group).

(** [rows.iloc[len(rows) // 2]], the idiom both the weight assignment
    (lines 333-334) and the sequence builder (line 469) use to choose one
    row among several. *)
Definition middle_row (rows : list Row) : option Row :=
  Py.index rows (Z.of_nat (length rows) / 2).

(** ** WeightAssigner *)

(** Lines 337-343 and 348-353: the number in the file name, else the
    row's position in the group. *)
Definition frame_number (group : list Row) (row : Row) : option Z :=
  match Py.search_frame_number (Py.basename (frame_path row)) with
  | Some n => Some n
  | None => get_loc group (name row)
  end.

Definition hit_frames (group : list Row) : list Row :=
  List.filter (fun r => is_hit_frame r =? 1) group.

(** Lines 333-335: the row taken as the hit of the video. *)
Definition canonical_hit_row (group : list Row) : option Row :=
  middle_row (hit_frames group).

(** Lines 355-358, the weight of one row. *)
Definition row_weight (middle_hit_frame_index_in_group middle_frame_num window_half : Z)
    (decay_rate : Q) (idx current_frame_num : Z) : Q :=
  let distance := Z.abs (current_frame_num - middle_frame_num) in
  if idx =? middle_hit_frame_index_in_group then 1%Q
  else if distance <=? window_half
       then Py.max2 0 (1 - inject_Z distance * decay_rate)%Q
       else 0%Q.

(** Lines 347-359, one turn of the loop filling the dict [weights]. *)
Definition weights_step (group : list Row)
    (middle_hit_frame_index_in_group middle_frame_num window_half : Z)
    (decay_rate : Q) (acc : option (gmap Z Q)) (row : Row) : option (gmap Z Q) :=
  weights ← acc;
  current_frame_num ← frame_number group row;
  Some (<[name row :=
            row_weight middle_hit_frame_index_in_group middle_frame_num
              window_half decay_rate (name row) current_frame_num]> weights).

Definition weights_loop (group : list Row)
    (middle_hit_frame_index_in_group middle_frame_num window_half : Z)
    (decay_rate : Q) : option (gmap Z Q) :=
  fold_left
    (weights_step group middle_hit_frame_index_in_group middle_frame_num
       window_half decay_rate)
    group (Some ∅).

(** [assign_linear_weights], lines 326-362.  [group.index.map(weights)]
    reads every label back from the dict (a label that the dict lacks
    would read as NaN, here [None]). *)
Definition assign_linear_weights (group : list Row) (total_frames_window : Z)
    (decay_rate : Q) : option (list Row) :=
  let group := map (set_weight 0) group in
  match hit_frames group with
  | [] => Some group
  | _ :: _ =>
      middle_hit_row ← canonical_hit_row group;
      let middle_hit_frame_index_in_group := name middle_hit_row in
      middle_frame_num ← frame_number group middle_hit_row;
      let window_half := total_frames_window / 2 in
      weights ← weights_loop group middle_hit_frame_index_in_group
                  middle_frame_num window_half decay_rate;
      mapM (fun row => w ← weights !! name row; Some (set_weight w row)) group
  end.

(** The weight the specification gives to a frame at distance [d] of the
    canonical hit frame. *)
Definition linear_weight (window_size : Z) (decay_rate : Q) (d : Z) : Q :=
  if d =? 0 then 1%Q
  else if d <=? window_size / 2
       then Qmax 0 (1 - inject_Z d * decay_rate)
       else 0%Q.

(** The element the specification calls the lower-middle one. *)
Definition lower_middle_row (rows : list Row) : option Row :=
  nth_error rows ((length rows - 1) / 2)%nat.

Definition CNN1_N_FRAMES_WEIGHTING : Z := 9.
Definition CNN1_WEIGHT_DECAY : Q := 3 # 10.
Definition CNN1_BALANCE_RATIO : Q := 4.
Definition CNN2_N_FRAMES_SEQUENCE : Z := 9.
Definition SEED : Z := 42.

(** ** Frame files as the extractor names them *)

(** [f"frame_{frame_count:04d}.jpg"] of [extract_frames.py]. *)
Definition frame_file_name (frame_count : nat) : string :=
  let digits := NilEmpty.string_of_uint (Nat.to_uint frame_count) in
  "frame_" ++ String.concat EmptyString (repeat "0" (4 - String.length digits)) ++ digits ++ ".jpg".

(** ** DatasetBalancer *)

(** [round(x)] of the Python builtins, as the specification uses it:
    to the nearest integer, a tie going to the even neighbour. *)
Definition round_half_even (x : Q) : Z :=
  let f := Qfloor x in
  let r := (x - inject_Z f)%Q in
  if Py.Qltb r (1 # 2) then f
  else if Py.Qltb (1 # 2) r then f + 1
  else if Z.even f then f else f + 1.

(** [df.reset_index(drop=True)]: the labels become the positions. *)
Definition reset_index (df : list Row) : list Row :=
  imap (fun i r => mkRow (Z.of_nat i) (frame_path r) (video_id r) (is_hit_frame r) (weight r)) df.

Section Balancer.

(** [DataFrame.sample(n=n, random_state=seed)] and
    [DataFrame.sample(frac=1, random_state=seed)] of pandas: the random
    generator is outside the embedding, its draws are functions of the
    table and the seed. *)
Variable sample : list Row -> nat -> Z -> list Row.
Variable shuffle : list Row -> Z -> list Row.

Definition hit_frames_weighted (df_weighted : list Row) : list Row :=
  List.filter (fun r => Py.Qltb 0 (weight r)) df_weighted.

Definition non_hit_frames (df_weighted : list Row) : list Row :=
  List.filter (fun r => Qeq_bool (weight r) 0) df_weighted.

(** Lines 399-400. *)
Definition sample_size (df_weighted : list Row) (balance_ratio : Q) : Z :=
  let target_non_hit_count :=
    Py.int_of_float (balance_ratio * inject_Z (Z.of_nat (length (hit_frames_weighted df_weighted)))) in
  Z.min (Z.of_nat (length (non_hit_frames df_weighted))) target_non_hit_count.

(** Line 402. *)
Definition sampled_non_hit (df_weighted : list Row) (balance_ratio : Q) : list Row :=
  let n := sample_size df_weighted balance_ratio in
  if 0 <? n then sample (non_hit_frames df_weighted) (Z.to_nat n) SEED else [].

(** The balancing half of [balance_and_split_data], lines 390-405: the
    value of [balanced_df].  The stratified split that follows is
    scikit-learn's and is not part of the embedding. *)
Definition balance_data (df_weighted : list Row) (balance_ratio : Q) : list Row :=
  let balanced_df :=
    (hit_frames_weighted df_weighted ++ sampled_non_hit df_weighted balance_ratio)%list in
  reset_index (shuffle balanced_df SEED).

End Balancer.

(** What pandas promises of [sample(n=n)] for [n] within the table:
    [n] rows, drawn without replacement. *)
Definition sample_without_replacement (sample : list Row -> nat -> Z -> list Row) : Prop :=
  forall l n seed, (n <= length l)%nat ->
    length (sample l n seed) = n /\ exists rest, Permutation (sample l n seed ++ rest) l.

(** What pandas promises of [sample(frac=1)]: a reordering. *)
Definition shuffle_permutes (shuffle : list Row -> Z -> list Row) : Prop :=
  forall l seed, Permutation (shuffle l seed) l.

(** A sampler and a shuffle that keep these promises, to run examples
    with. *)
Definition take_first (l : list Row) (n : nat) (seed : Z) : list Row := firstn n l.

Definition keep_order (l : list Row) (seed : Z) : list Row := l.

(** A weighted table of [positives] frames of weight 1 followed by
    [negatives] frames of weight 0. *)
Definition weighted_table (positives negatives : nat) : list Row :=
  map (fun k => mkRow (Z.of_nat k) ("Frames/IST01/" ++ frame_file_name k) "Frames/IST01" 0
                  (if (k <? positives)%nat then 1 else 0)%Q)
      (seq 0 (positives + negatives)).

(** ** SequenceBuilder *)

Record Sequence := mkSequence {
  sequence_paths : list string;
  target_coords : Q * Q;
  seq_video_id : string;
  shot_id : string
}.

(** The keys of [df.groupby('video_id')], sorted and without repeats. *)
Fixpoint insert_key (k : string) (ks : list string) : list string :=
  match ks with
  | [] => [k]
  | h :: t => match String.compare k h with
              | Eq => ks
              | Lt => k :: ks
              | Gt => h :: insert_key k t
              end
  end.

Definition group_keys (df : list Row) : list string :=
  fold_right insert_key [] (map video_id df).

(** [df.groupby('video_id')]: one group per key, the rows of a group in
    table order. *)
Definition groupby_video_id (df : list Row) : list (string * list Row) :=
  map (fun k => (k, List.filter (fun r => String.eqb (video_id r) k) df)) (group_keys df).

(** [group.sort_values('frame_num_int')], by insertion; rows of equal
    number keep their order. *)
Fixpoint insert_by_num (x : Z * Row) (l : list (Z * Row)) : list (Z * Row) :=
  match l with
  | [] => [x]
  | y :: t => if fst x <? fst y then x :: l else y :: insert_by_num x t
  end.

Definition sort_values (l : list (Z * Row)) : list (Z * Row) :=
  fold_right insert_by_num [] l.

(** Lines 478-480: the window around the hit, clamped at both ends. *)
Definition extract_sequence (sorted_paths : list string) (hit_idx_sorted n_frames_sequence : Z)
    : option (list string) :=
  let num_total := Z.of_nat (length sorted_paths) in
  let half_window := n_frames_sequence / 2 in
  let start_idx := hit_idx_sorted - half_window in
  let end_idx := hit_idx_sorted + half_window in
  mapM (fun i => Py.index sorted_paths (Py.clipZ i 0 (num_total - 1)))
       (Py.range start_idx (end_idx + 1)).

(** What the [try] block of lines 459-471 ends in. *)
Inductive HitSearch :=
| HitFound (sorted_paths : list string) (hit_idx_sorted : Z)
| HitMissing
| HitRaised.

(** Lines 460-463: the group sorted by the number in the file name.  A
    frame path without a number makes the lambda of line 461 raise. *)
Definition sort_group (group : list Row) : option (list Row) :=
  numbered ← mapM (fun r => n ← Py.search_frame_number (Py.basename (frame_path r));
                            Some (n, r)) group;
  Some (map snd (sort_values numbered)).

(** Line 467. *)
Definition weight_one_rows (group_sorted : list Row) : list Row :=
  List.filter (fun r => Qeq_bool (weight r) 1) group_sorted.

(** Lines 459-471; [iloc] and [index] raise when out of range or
    absent. *)
Definition find_hit (group : list Row) : HitSearch :=
  match sort_group group with
  | None => HitRaised
  | Some group_sorted =>
      let sorted_paths := map frame_path group_sorted in
      let hit_rows := weight_one_rows group_sorted in
      match hit_rows with
      | [] => HitMissing
      | _ :: _ =>
          match middle_row hit_rows with
          | None => HitRaised
          | Some hit_row =>
              match Py.list_index String.eqb (frame_path hit_row) sorted_paths with
              | None => HitRaised
              | Some hit_idx_sorted => HitFound sorted_paths hit_idx_sorted
              end
          end
      end
  end.

(** The accumulators of the loop of [get_sequences]. *)
Record LoopState := mkLoopState {
  sequences_for_dataset : list Sequence;
  skipped_no_hit : nat;
  skipped_no_landing : nat;
  skipped_parse : nat;
  skipped_short : nat
}.

Definition initial_state : LoopState := mkLoopState [] 0 0 0 0.

(** One turn of the loop, lines 455-487. *)
Definition process_video (landing_df_indexed : gmap string (Q * Q)) (n_frames_sequence : Z)
    (st : LoopState) (vg : string * list Row) : option LoopState :=
  let '(video_id, group) := vg in
  let 'mkLoopState seqs no_hit no_landing parse short := st in
  let shot_id := Py.basename video_id in
  match find_hit group with
  | HitRaised => Some (mkLoopState seqs no_hit no_landing (S parse) short)
  | HitMissing => Some (mkLoopState seqs (S no_hit) no_landing parse short)
  | HitFound sorted_paths hit_idx_sorted =>
      match landing_df_indexed !! shot_id with
      | None => Some (mkLoopState seqs no_hit (S no_landing) parse short)
      | Some target_coords =>
          seq_paths ← extract_sequence sorted_paths hit_idx_sorted n_frames_sequence;
          if Z.of_nat (length seq_paths) =? n_frames_sequence
          then Some (mkLoopState
                       (seqs ++ [mkSequence seq_paths target_coords video_id shot_id])%list
                       no_hit no_landing parse short)
          else Some (mkLoopState seqs no_hit no_landing parse (S short))
      end
  end.

(** The summary printed by lines 489-492. *)
Record Summary := mkSummary {
  success : nat;
  no_hit_skips : nat;
  no_landing_skips : nat;
  parse_skips : nat;
  short_skips : nat
}.

(** What a call leaves behind: the returned list, and the printed
    summary when the call gets that far. *)
Record Output := mkOutput {
  returned : list Sequence;
  summary : option Summary
}.

(** [get_sequences], lines 442-493. *)
Definition get_sequences (cnn1_balanced_df : list Row)
    (landing_df_indexed : gmap string (Q * Q)) (n_frames_sequence : Z) : option Output :=
  if bool_decide (cnn1_balanced_df = []) || bool_decide (landing_df_indexed = ∅)
  then Some (mkOutput [] None)
  else
    st ← fold_left (fun acc vg => st ← acc; process_video landing_df_indexed n_frames_sequence st vg)
           (groupby_video_id cnn1_balanced_df) (Some initial_state);
    Some (mkOutput (sequences_for_dataset st)
            (Some (mkSummary (length (sequences_for_dataset st)) (skipped_no_hit st)
                     (skipped_no_landing st) (skipped_parse st) (skipped_short st)))).

(** The five ways a video can leave the loop, as the summary names
    them. *)
Inductive Category := Success | NoHit | NoLanding | Parse | Short.

Global Instance Category_eq_dec : EqDecision Category.
Proof. solve_decision. Defined.

(** A frame path of the group carries no frame number. *)
Definition unparsable (group : list Row) : bool :=
  existsb (fun r => match Py.search_frame_number (Py.basename (frame_path r)) with
                    | Some _ => false
                    | None => true
                    end) group.

(** A frame of the group has the weight 1. *)
Definition has_hit_frame (group : list Row) : bool :=
  existsb (fun r => Qeq_bool (weight r) 1) group.

(** The number of positions from [h - n // 2] to [h + n // 2]. *)
Definition window_length (n_frames_sequence : Z) : Z :=
  Z.max 0 (2 * (n_frames_sequence / 2) + 1).

(** The category of a video, from the conditions of the specification:
    parse failure first, then no frame of weight 1, then no landing
    record for the shot identifier, then a window of the wrong length. *)
Definition category (landing_df_indexed : gmap string (Q * Q)) (n_frames_sequence : Z)
    (vg : string * list Row) : Category :=
  if unparsable vg.2 then Parse
  else if negb (has_hit_frame vg.2) then NoHit
  else match landing_df_indexed !! Py.basename vg.1 with
       | None => NoLanding
       | Some _ => if window_length n_frames_sequence =? n_frames_sequence
                   then Success else Short
       end.

Definition count_category (landing_df_indexed : gmap string (Q * Q)) (n_frames_sequence : Z)
    (c : Category) (videos : list (string * list Row)) : nat :=
  length (List.filter (fun vg => bool_decide (category landing_df_indexed n_frames_sequence vg = c))
            videos).

(** The counter or list of the loop state that belongs to a category. *)
Definition tally (st : LoopState) (c : Category) : nat :=
  match c with
  | Success => length (sequences_for_dataset st)
  | NoHit => skipped_no_hit st
  | NoLanding => skipped_no_landing st
  | Parse => skipped_parse st
  | Short => skipped_short st
  end.

(** ** Dataset classes *)

(** [TennisFrameDataset], the fields set by [__init__]. *)
Record TennisFrameDataset := mkTennisFrameDataset {
  paths : list string;
  targets : list Q;
  frame_img_height : nat;
  frame_img_width : nat;
  frame_augment : bool
}.

(** [BallLandingDataset], the fields set by [__init__]. *)
Record BallLandingDataset := mkBallLandingDataset {
  sequence_data : list Sequence;
  seq_img_height : nat;
  seq_img_width : nat;
  n_frames_sequence : nat;
  seq_augment : bool
}.

Section Datasets.

(** OpenCV, PIL and torch are outside the embedding.  [imread] is
    [cv2.imread], [None] for a file it cannot read or decode;
    [apply_augmentations k img cnn_type] is the [k]-th random
    augmentation of a call (converted by [np.array]) with its flip
    status; [to_tensor h w] is the chain resize, scale, transpose,
    [torch.from_numpy].  A [None] of these three stands for an exception
    raised inside. *)
Context {Image Pixels Tensor : Type}.
Variable imread : string -> option Image.
Variable apply_augmentations : nat -> Image -> Z -> option (Pixels * bool).
Variable cvtColor : Image -> option Pixels.
Variable to_tensor : nat -> nat -> Pixels -> option Tensor.
Variable zeros : nat -> nat -> nat -> Tensor.
Variable cat : list Tensor -> Tensor.

(** The body of the [try] of lines 632-641 and 665-675: [None] when it
    raises. *)
Definition load_frame (augment : bool) (cnn_type : Z) (i img_height img_width : nat)
    (path : string) : option (Tensor * bool) :=
  img_bgr ← imread path;
  rgb ← (if augment then apply_augmentations i img_bgr cnn_type
         else img_rgb ← cvtColor img_bgr; Some (img_rgb, false));
  img_tensor ← to_tensor img_height img_width rgb.1;
  Some (img_tensor, rgb.2).

(** The tensor of a frame loaded without augmentation: read, converted
    to RGB, resized and scaled. *)
Definition plain_tensor (img_height img_width : nat) (path : string) : option Tensor :=
  img_bgr ← imread path;
  img_rgb ← cvtColor img_bgr;
  to_tensor img_height img_width img_rgb.

(** [TennisFrameDataset.__getitem__], lines 629-648. *)
Definition frame_getitem (self : TennisFrameDataset) (idx : Z) : option (Tensor * Q) :=
  img_path ← Py.index (paths self) idx;
  target ← Py.index (targets self) idx;
  match load_frame (frame_augment self) 1 0 (frame_img_height self) (frame_img_width self) img_path with
  | Some (img_tensor, _) => Some (img_tensor, target)
  | None => Some (zeros 3 (frame_img_height self) (frame_img_width self), 0%Q)
  end.

(** One turn of the loop of lines 663-679, on the pair
    [(sequence_tensors, global_flip_status)]. *)
Definition load_sequence_frame (self : BallLandingDataset) (st : list Tensor * bool)
    (i : nat) (frame_path : string) : list Tensor * bool :=
  match load_frame (seq_augment self) 2 i (seq_img_height self) (seq_img_width self) frame_path with
  | Some (t, was_flipped) =>
      ((st.1 ++ [t])%list, if seq_augment self && (i =? 0)%nat then was_flipped else st.2)
  | None =>
      ((st.1 ++ [zeros 3 (seq_img_height self) (seq_img_width self)])%list,
       if (i =? 0)%nat then false else st.2)
  end.

Fixpoint load_sequence (self : BallLandingDataset) (st : list Tensor * bool) (i : nat)
    (frame_paths : list string) : list Tensor * bool :=
  match frame_paths with
  | [] => st
  | p :: rest => load_sequence self (load_sequence_frame self st i p) (S i) rest
  end.

(** [BallLandingDataset.__getitem__], lines 659-691. *)
Definition sequence_getitem (self : BallLandingDataset) (idx : Z) : option (Tensor * (Q * Q)) :=
  item ← Py.index (sequence_data self) idx;
  let frame_paths := sequence_paths item in
  let target_coords := target_coords item in
  let '(sequence_tensors, global_flip_status) := load_sequence self ([], false) 0 frame_paths in
  let target_coords :=
    if global_flip_status then ((1 - target_coords.1)%Q, target_coords.2) else target_coords in
  if (length sequence_tensors =? n_frames_sequence self)%nat
  then Some (cat sequence_tensors, target_coords)
  else Some (zeros (n_frames_sequence self * 3) (seq_img_height self) (seq_img_width self),
             (0%Q, 0%Q)).

End Datasets.

(** ** Hit-frame selection of the prediction pipeline *)

Record Prediction := mkPrediction {
  pred_path : string;
  score : Q
}.

(** How lines 1160-1188 of [predict_hit_and_landing] end. *)
Inductive HitSelection :=
| NoPredictions
| HitNotInList (pred_hit_path : string)
| LengthMismatch (pred_hit_path : string)
| SequenceReady (pred_hit_path : string) (pred_hit_idx : Z) (sequence_paths : list string).

Section Inference.

(** [cnn1_score] is the preprocessing and the forward pass of the hit
    model on one image, [None] when it raises. *)
Context {Image : Type}.
Variable imread : string -> option Image.
Variable cnn1_score : Image -> option Q.

(** Lines 1161-1175: one entry per frame that is read and scored, in
    the order of [sorted_frame_paths]. *)
Definition predictions_cnn1 (sorted_frame_paths : list string) : list Prediction :=
  omap (fun frame_path =>
          img ← imread frame_path;
          s ← cnn1_score img;
          Some (mkPrediction frame_path s))
       sorted_frame_paths.

(** Line 1177. *)
Definition best_hit (sorted_frame_paths : list string) : option Prediction :=
  Py.max_key score (predictions_cnn1 sorted_frame_paths).

(** Lines 1176-1188; [n_frames_sequence] is already odd (line 1147). *)
Definition select_hit_sequence (sorted_frame_paths : list string) (n_frames_sequence : Z)
    : HitSelection :=
  match best_hit sorted_frame_paths with
  | None => NoPredictions
  | Some best =>
      let pred_hit_path := pred_path best in
      match Py.list_index String.eqb pred_hit_path sorted_frame_paths with
      | None => HitNotInList pred_hit_path
      | Some pred_hit_idx =>
          match extract_sequence sorted_frame_paths pred_hit_idx n_frames_sequence with
          | Some sequence_paths =>
              if Z.of_nat (length sequence_paths) =? n_frames_sequence
              then SequenceReady pred_hit_path pred_hit_idx sequence_paths
              else LengthMismatch pred_hit_path
          | None => LengthMismatch pred_hit_path
          end
      end
  end.

End Inference.

(** The rows of one video directory whose frames are numbered from 0,
    the frames listed in [hits] being the annotated ones; labels start
    at [first_label]. *)
Definition video_rows (dir : string) (first_label : Z) (frames : nat) (hits : list nat)
    : list Row :=
  map (fun k => mkRow (first_label + Z.of_nat k) (dir ++ "/" ++ frame_file_name k) dir
                  (if existsb (Nat.eqb k) hits then 1 else 0) 0%Q)
      (seq 0 frames).

(** ** Example tables *)

(** The twenty frames of scenario 3: one video, the hit annotated at
    frame 10. *)
Definition twenty_frames : list Row := video_rows "Frames/IST01" 0 20 [10%nat].

(** Three frames of one video, the middle one annotated. *)
Definition three_frames : list Row := video_rows "Frames/IST01" 0 3 [1%nat].

(** A video with two annotated frames, 2 and 3. *)
Definition two_hit_group : list Row := video_rows "Frames/IST01" 0 6 [2%nat; 3%nat].

(** The same video once weighted, were both annotated frames given the
    weight 1. *)
Definition two_peak_group : list Row :=
  map (fun r => set_weight (if is_hit_frame r =? 1 then 1 else 0) r) two_hit_group.

(** A video directory that holds a picture without frame number next to
    its frames, as the labelling tool writes it: the annotated frame
    first, then the other [.jpg] files in name order. *)
Definition cover_group : list Row :=
  [ mkRow 0 "Frames/IST01/frame_0001.jpg" "Frames/IST01" 1 0;
    mkRow 1 "Frames/IST01/cover.jpg" "Frames/IST01" 0 0;
    mkRow 2 "Frames/IST01/frame_0000.jpg" "Frames/IST01" 0 0 ].

(** The twenty frames once weighted, the annotated frame alone having
    the weight 1. *)
Definition twenty_weighted : list Row :=
  map (fun r => set_weight (if is_hit_frame r =? 1 then 1 else 0) r) twenty_frames.

(** A landing table with the record of shot [IST01] only. *)
Definition one_landing : gmap string (Q * Q) := {[ "IST01" := ((1 # 2)%Q, (1 # 3)%Q) ]}.

(** A file system on which one frame cannot be read, and stand-ins for
    the image library: a tensor is the list of the frames it was made
    of, a black frame being [None]. *)
Definition unreadable_frame : string := "Frames/IST01/frame_0001.jpg".

Definition example_imread (path : string) : option string :=
  if String.eqb path unreadable_frame then None else Some path.

Definition example_augmentations (i : nat) (img : string) (cnn_type : Z)
    : option (string * bool) := Some (img, false).

Definition example_cvtColor (img : string) : option string := Some img.

Definition example_to_tensor (h w : nat) (px : string) : option (list (option string)) :=
  Some [Some px].

Definition example_zeros (c h w : nat) : list (option string) := [None].

Definition example_cat (ts : list (list (option string))) : list (option string) := concat ts.

Definition example_frame_dataset : TennisFrameDataset :=
  mkTennisFrameDataset
    ["Frames/IST01/frame_0000.jpg"; "Frames/IST01/frame_0001.jpg"; "Frames/IST01/frame_0002.jpg"]
    [(7 # 10)%Q; 1%Q; (7 # 10)%Q] 224 224 false.

Definition example_sequence_dataset : BallLandingDataset :=
  mkBallLandingDataset
    [mkSequence
       ["Frames/IST01/frame_0000.jpg"; "Frames/IST01/frame_0001.jpg"; "Frames/IST01/frame_0002.jpg"]
       ((1 # 2)%Q, (1 # 3)%Q) "Frames/IST01" "IST01"]
    224 224 3 false.

(** A hit model that scores frames 1 and 2 alike, above frame 0. *)
Definition example_score (img : string) : option Q :=
  if String.eqb img "Frames/OST02/frame_0000.jpg" then Some (2 # 10)%Q else Some (9 # 10)%Q.

Definition example_frames : list string :=
  map (fun k => "Frames/OST02/" ++ frame_file_name k) (seq 0 3).

(** ** Frame extraction ([extract_frames.py]) *)

Module Os.

Definition starts_with_slash (s : string) : bool :=
  match s with
  | String c _ => Ascii.eqb c "/"
  | EmptyString => false
  end.

Fixpoint ends_with_slash (s : string) : bool :=
  match s with
  | EmptyString => false
  | String c t => match t with
                  | EmptyString => Ascii.eqb c "/"
                  | String _ _ => ends_with_slash t
                  end
  end.

(** [os.path.join(a, b)] of [posixpath]: an absolute [b] replaces [a],
    otherwise the two are joined by one slash. *)
Definition path_join (a b : string) : string :=
  if starts_with_slash b then b
  else match a with
       | EmptyString => b
       | String _ _ => if ends_with_slash a then a ++ b else a ++ "/" ++ b
       end.

(** No character of [s] is a slash. *)
Fixpoint no_slash (s : string) : bool :=
  match s with
  | EmptyString => true
  | String c t => negb (Ascii.eqb c "/") && no_slash t
  end.

End Os.

(** [extract_frames], lines 4-22 of [extract_frames.py]: the frames
    that [cap.read()] yields are written in turn, each under the name of
    its count; the result lists the files written. *)
Definition extract_frames {Frame : Type} (video : list Frame) (output_dir : string)
    : list (string * Frame) :=
  imap (fun frame_count frame =>
          (Os.path_join output_dir (frame_file_name frame_count), frame)) video.

(** [s] is empty or starts with a character that is no digit. *)
Definition starts_without_digit (s : string) : Prop :=
  match s with
  | EmptyString => True
  | String c _ => Py.is_digit c = false
  end.

(** ** Splitting ([balance_and_split_data], second half) *)

(** What [balance_and_split_data] returns, line 431. *)
Record SplitResult := mkSplitResult {
  balanced_df : list Row;
  train_paths : list string;
  train_targets : list Q;
  val_paths : list string;
  val_targets : list Q;
  test_paths : list string;
  test_targets : list Q
}.

Section Splitter.

Variable sample : list Row -> nat -> Z -> list Row.
Variable shuffle : list Row -> Z -> list Row.

(** [train_test_split(paths, targets, test_size=..., random_state=...,
    stratify=...)] of scikit-learn, on the paths paired with their
    targets: the pair (train, test), or [None] when it raises. *)
Variable train_test_split :
  list (string * Q) -> Q -> Z -> list bool -> option (list (string * Q) * list (string * Q)).

(** Line 421. *)
Definition relative_val_size (test_size val_size : Q) : Q :=
  if Py.Qltb 0 (1 - test_size) then (val_size / (1 - test_size))%Q else 0%Q.

(** [balance_and_split_data], lines 385-431; [None] stands for the
    [ValueError] of line 414 or an exception of [train_test_split]. *)
Definition balance_and_split_data (df_weighted : list Row) (balance_ratio test_size val_size : Q)
    : option SplitResult :=
  let balanced_df := balance_data sample shuffle df_weighted balance_ratio in
  let all_paths := map (fun r => Os.path_join "Frames" (frame_path r)) balanced_df in
  let all_targets := map weight balanced_df in
  let stratify_labels := map (fun t => Py.Qltb 0 t) all_targets in
  if (length all_paths <? 3)%nat then None
  else
    first ← train_test_split (zip all_paths all_targets) test_size SEED stratify_labels;
    let train_val := first.1 in
    let test := first.2 in
    second ← train_test_split train_val (relative_val_size test_size val_size) SEED
                (map (fun pt => Py.Qltb 0 pt.2) train_val);
    Some (mkSplitResult balanced_df
            (map fst second.1) (map snd second.1)
            (map fst second.2) (map snd second.2)
            (map fst test) (map snd test)).

End Splitter.

(** What scikit-learn promises of [train_test_split] when it returns:
    the two parts hold the rows given, each once. *)
Definition split_partitions
    (train_test_split : list (string * Q) -> Q -> Z -> list bool ->
                        option (list (string * Q) * list (string * Q))) : Prop :=
  forall l size seed labels train test,
    train_test_split l size seed labels = Some (train, test) ->
    Permutation (train ++ test) l.

(** A splitter that keeps this promise, to run examples with: the last
    [ceil(size * n)] rows are the test part. *)
Definition split_at_end (l : list (string * Q)) (size : Q) (seed : Z) (labels : list bool)
    : option (list (string * Q) * list (string * Q)) :=
  let n_test := Z.to_nat (Qceiling (size * inject_Z (Z.of_nat (length l)))) in
  if (n_test =? 0)%nat || (length l <=? n_test)%nat then None
  else Some (firstn (length l - n_test) l, skipn (length l - n_test) l).

(** ** Training with early stopping *)

(** A Python float as the training loop meets it: a number, an
    infinity or NaN. *)
Inductive Float :=
| Finite (q : Q)
| PosInf
| NegInf
| NaN.

(** [a - m] for a finite [m]. *)
Definition float_sub (a : Float) (m : Q) : Float :=
  match a with
  | Finite q => Finite (q - m)
  | _ => a
  end.

(** [a < b]; a comparison with NaN is false. *)
Definition float_lt (a b : Float) : bool :=
  match a, b with
  | NaN, _ | _, NaN => false
  | _, NegInf => false
  | NegInf, _ => true
  | PosInf, _ => false
  | Finite _, PosInf => true
  | Finite x, Finite y => Py.Qltb x y
  end.

(** What the training and validation phases of one epoch measure,
    lines 881, 900 and 901. *)
Record EpochResult := mkEpochResult {
  epoch_train_loss : Float;
  epoch_val_loss : Float;
  epoch_val_mae : Float
}.

(** The dictionary [history] of line 852. *)
Record History := mkHistory {
  train_loss : list Float;
  val_loss : list Float;
  val_mae : list Float
}.

(** The local variables of [run_final_training]; [save_calls] lists the
    epochs after which line 913 saved the model. *)
Record TrainState := mkTrainState {
  history : History;
  best_val_loss : Float;
  epochs_no_improve : Z;
  best_epoch : Z;
  save_calls : list Z
}.

(** Lines 852-855. *)
Definition initial_train_state : TrainState :=
  mkTrainState (mkHistory [] [] []) PosInf 0 0 [].

Section Training.

(** The model, the loaders, the criterion and the optimizer are outside
    the embedding: [run_epoch epoch] is what lines 866-904 measure in
    the epoch [epoch] of [range(epochs)].  The bookkeeping of lines
    909-922 changes neither the model nor the optimizer before the loop
    ends, so that the measurements do not depend on it. *)
Variable run_epoch : nat -> EpochResult.

(** Lines 882, 902, 903 and 910-916 of one epoch. *)
Definition epoch_step (min_improvement : Q) (epoch : nat) (st : TrainState) : TrainState :=
  let r := run_epoch epoch in
  let history :=
    mkHistory (train_loss (history st) ++ [epoch_train_loss r])
              (val_loss (history st) ++ [epoch_val_loss r])
              (val_mae (history st) ++ [epoch_val_mae r]) in
  if float_lt (epoch_val_loss r) (float_sub (best_val_loss st) min_improvement)
  then mkTrainState history (epoch_val_loss r) 0 (Z.of_nat epoch + 1)
         (save_calls st ++ [Z.of_nat epoch + 1])
  else mkTrainState history (best_val_loss st) (epochs_no_improve st + 1) (best_epoch st)
         (save_calls st).

(** The loop of line 864 from the epoch [epoch] on, with [epochs_left]
    epochs to go; the flag tells whether line 922 left the loop. *)
Fixpoint training_loop (patience : Z) (min_improvement : Q) (epochs_left epoch : nat)
    (st : TrainState) : TrainState * bool :=
  match epochs_left with
  | O => (st, false)
  | S k =>
      let st' := epoch_step min_improvement epoch st in
      if patience <=? epochs_no_improve st' then (st', true)
      else training_loop patience min_improvement k (S epoch) st'
  end.

(** [run_final_training], lines 848-931: the variables after the loop
    (the function returns [history]) and whether early stopping was
    triggered. *)
Definition run_final_training (epochs patience : Z) (min_improvement : Q) : TrainState * bool :=
  training_loop patience min_improvement (Z.to_nat epochs) 0 initial_train_state.

End Training.

(** The validation losses of an example run; the later epochs repeat
    the last one. *)
Definition example_losses : list Q := [1 # 2; 2 # 5; 9 # 20; 41 # 100; 21 # 50].

Definition example_epoch (epoch : nat) : EpochResult :=
  let v := Finite (nth epoch example_losses (21 # 50)) in
  mkEpochResult v v v.

(** An epoch on an empty validation loader, lines 900-901. *)
Definition empty_loader_epoch (epoch : nat) : EpochResult :=
  mkEpochResult (Finite 0) PosInf PosInf.

(** What the bookkeeping of [run_final_training] keeps true after [ran]
    epochs. *)
Definition train_invariant (run_epoch : nat -> EpochResult) (ran : nat) (st : TrainState)
    : Prop :=
  train_loss (history st) = map (fun e => epoch_train_loss (run_epoch e)) (seq 0 ran) /\
  val_loss (history st) = map (fun e => epoch_val_loss (run_epoch e)) (seq 0 ran) /\
  val_mae (history st) = map (fun e => epoch_val_mae (run_epoch e)) (seq 0 ran) /\
  0 <= best_epoch st <= Z.of_nat ran /\
  epochs_no_improve st = Z.of_nat ran - best_epoch st /\
  (best_epoch st = 0 -> best_val_loss st = PosInf /\ save_calls st = []) /\
  (0 < best_epoch st ->
     best_val_loss st = epoch_val_loss (run_epoch (Z.to_nat (best_epoch st - 1))) /\
     last (save_calls st) = Some (best_epoch st)).

(** The best loss against the recorded ones. *)
Definition near_minimum (min_improvement : Q) (st : TrainState) : Prop :=
  forall (j : nat) (v : Float),
    val_loss (history st) !! j = Some v ->
    (Z.of_nat j + 1 < best_epoch st -> v = NaN \/ float_lt (best_val_loss st) v = true) /\
    (best_epoch st <= Z.of_nat j + 1 ->
     float_lt v (float_sub (best_val_loss st) min_improvement) = false).

(** ** Model architectures *)

(** The layers that the two models are built from, with the arguments
    the code passes: [Conv2d in out kernel stride padding],
    [MaxPool2d kernel stride padding], [Linear in out]. *)
Inductive Layer :=
| Conv2d (in_channels out_channels kernel_size stride padding : Z)
| BatchNorm2d (num_features : Z)
| ReLU
| MaxPool2d (kernel_size stride padding : Z)
| Flatten
| Linear (in_features out_features : Z)
| Dropout (rate : Q)
| Sigmoid.

(** The attributes [conv_blocks] and [fc_block] that both [__init__]
    set, each an [nn.Sequential]. *)
Record CnnModule := mkCnnModule {
  conv_blocks : list Layer;
  fc_block : list Layer
}.

(** [forward], lines 785 and 837: [fc_block(conv_blocks(x))]. *)
Definition forward_layers (m : CnnModule) : list Layer := (conv_blocks m ++ fc_block m)%list.

Module Torch.

(** The shape of one sample of a batch: a feature map of [c] channels
    or a vector. *)
Inductive Shape :=
| Map (c h w : Z)
| Vec (n : Z).

(** The output size of a convolution or a pooling along one axis. *)
Definition out_size (h kernel_size stride padding : Z) : Z :=
  (h + 2 * padding - kernel_size) / stride + 1.

(** The shape that a layer gives to its output, [None] when PyTorch
    raises: channels or features that do not fit, a kernel larger than
    the padded input, a pooling whose output would be empty. *)
Definition layer_shape (l : Layer) (x : Shape) : option Shape :=
  match l, x with
  | Conv2d in_channels out_channels k s p, Map c h w =>
      if (c =? in_channels) && (k <=? h + 2 * p) && (k <=? w + 2 * p)
      then Some (Map out_channels (out_size h k s p) (out_size w k s p))
      else None
  | MaxPool2d k s p, Map c h w =>
      if (2 * p <=? k) && (0 <? out_size h k s p) && (0 <? out_size w k s p)
      then Some (Map c (out_size h k s p) (out_size w k s p))
      else None
  | BatchNorm2d n, Map c h w => if c =? n then Some x else None
  | Flatten, Map c h w => Some (Vec (c * h * w))
  | Flatten, Vec n => Some x
  | Linear i o, Vec n => if n =? i then Some (Vec o) else None
  | Linear i o, Map c h w => if w =? i then Some (Map c h o) else None
  | (ReLU | Dropout _ | Sigmoid), _ => Some x
  | (Conv2d _ _ _ _ _ | MaxPool2d _ _ _ | BatchNorm2d _), Vec _ => None
  end.

(** [nn.Sequential]: the layers one after the other. *)
Fixpoint sequential_shape (layers : list Layer) (x : Shape) : option Shape :=
  match layers with
  | [] => Some x
  | l :: rest =>
      match layer_shape l x with
      | Some y => sequential_shape rest y
      | None => None
      end
  end.

End Torch.

(** The layers that one turn of the loop of lines 766-774 adds. *)
Definition hit_block (current_channels num_filters : Z) : list Layer :=
  [Conv2d current_channels num_filters 3 1 1; BatchNorm2d num_filters; ReLU;
   Conv2d num_filters num_filters 3 1 1; BatchNorm2d num_filters; ReLU;
   MaxPool2d 2 2 0].

(** The loop of lines 766-774 on [layers], [current_channels],
    [current_h] and [current_w]. *)
Fixpoint hit_blocks_loop (block_filters : list Z) (layers : list Layer)
    (current_channels current_h current_w : Z) : list Layer * Z * Z * Z :=
  match block_filters with
  | [] => (layers, current_channels, current_h, current_w)
  | num_filters :: rest =>
      hit_blocks_loop rest (layers ++ hit_block current_channels num_filters)%list
        num_filters (current_h / 2) (current_w / 2)
  end.

(** [HitFrameRegressorFinal.__init__], lines 756-783. *)
Definition HitFrameRegressorFinal (input_channels img_height img_width : Z)
    (block_filters : list Z) (fc_size : Z) (dropout_rate : Q) : CnnModule :=
  let '(layers, current_channels, current_h, current_w) :=
    hit_blocks_loop block_filters [] input_channels img_height img_width in
  let flattened_size := current_channels * current_h * current_w in
  mkCnnModule layers
    [Flatten; Linear flattened_size fc_size; ReLU; Dropout dropout_rate; Linear fc_size 1].

(** An entry of [block_configs], lines 809-813. *)
Record BlockConfig := mkBlockConfig {
  cfg_k : Z;
  cfg_s : Z;
  cfg_p : Z;
  cfg_pool_k : Z;
  cfg_pool_s : Z;
  cfg_pool_p : Z
}.

Definition block_configs : list BlockConfig :=
  [mkBlockConfig 7 2 3 3 2 1; mkBlockConfig 5 1 2 3 2 1;
   mkBlockConfig 3 1 1 3 2 1; mkBlockConfig 3 1 1 3 2 1].

(** The loop of lines 815-825 from the block [i] on. *)
Fixpoint landing_blocks_loop (conv_filters : list Z) (i : nat) (conv_layers : list Layer)
    (current_c current_h current_w : Z) : list Layer * Z * Z * Z :=
  match conv_filters with
  | [] => (conv_layers, current_c, current_h, current_w)
  | out_c :: rest =>
      let cfg := nth (Nat.min i (length block_configs - 1)) block_configs
                     (mkBlockConfig 3 1 1 3 2 1) in
      let conv_h := (current_h + 2 * cfg_p cfg - cfg_k cfg) / cfg_s cfg + 1 in
      let conv_w := (current_w + 2 * cfg_p cfg - cfg_k cfg) / cfg_s cfg + 1 in
      let pool_h := (conv_h + 2 * cfg_pool_p cfg - cfg_pool_k cfg) / cfg_pool_s cfg + 1 in
      let pool_w := (conv_w + 2 * cfg_pool_p cfg - cfg_pool_k cfg) / cfg_pool_s cfg + 1 in
      landing_blocks_loop rest (S i)
        (conv_layers
         ++ [Conv2d current_c out_c (cfg_k cfg) (cfg_s cfg) (cfg_p cfg);
             BatchNorm2d out_c; ReLU;
             MaxPool2d (cfg_pool_k cfg) (cfg_pool_s cfg) (cfg_pool_p cfg)])%list
        out_c pool_h pool_w
  end.

(** The loop of lines 830-832 on [fc_layers] and [last_size]. *)
Fixpoint fc_layers_loop (fc_sizes : list Z) (dropout_rate : Q) (fc_layers : list Layer)
    (last_size : Z) : list Layer * Z :=
  match fc_sizes with
  | [] => (fc_layers, last_size)
  | size :: rest =>
      fc_layers_loop rest dropout_rate
        (fc_layers ++ [Linear last_size size; ReLU; Dropout dropout_rate])%list size
  end.

(** [LandingPointCNN.__init__], lines 796-835. *)
Definition LandingPointCNN (input_channels output_dim img_height img_width : Z)
    (conv_filters fc_sizes : list Z) (dropout_rate : Q) : CnnModule :=
  let '(conv_layers, current_c, current_h, current_w) :=
    landing_blocks_loop conv_filters 0 [] input_channels img_height img_width in
  let flattened_size := current_c * current_h * current_w in
  let '(fc_layers, last_size) := fc_layers_loop fc_sizes dropout_rate [Flatten] flattened_size in
  mkCnnModule conv_layers (fc_layers ++ [Linear last_size output_dim; Sigmoid])%list.

(** Lines 80, 81, 97-99 and 105-109 of the configuration. *)
Definition IMG_HEIGHT : Z := 224.
Definition IMG_WIDTH : Z := 224.
Definition CNN1_FILTERS : list Z := [32; 32; 64; 64].
Definition CNN1_FC_SIZE : Z := 512.
Definition CNN1_DROPOUT : Q := 1 # 2.
Definition CNN2_INPUT_CHANNELS : Z := CNN2_N_FRAMES_SEQUENCE * 3.
Definition CNN2_CONV_FILTERS : list Z := [128; 256; 512; 512].
Definition CNN2_FC_SIZES : list Z := [512; 256].
Definition CNN2_DROPOUT : Q := 1 # 2.

(** [h] divided by [d], rounded up. *)
Definition ceil_div (h d : Z) : Z := (h + d - 1) / d.

(** ** The prediction pipeline ([predict_hit_and_landing]) *)

Module Str.

(** [str.lower] on the letters A to Z; file names are taken to be
    ASCII. *)
Definition lower_char (c : ascii) : ascii :=
  let n := nat_of_ascii c in
  if (65 <=? n)%nat && (n <=? 90)%nat then ascii_of_nat (n + 32) else c.

Fixpoint lower (s : string) : string :=
  match s with
  | EmptyString => EmptyString
  | String c t => String (lower_char c) (lower t)
  end.

(** [s.endswith(suffix)]. *)
Definition endswith (s suffix : string) : bool :=
  let n := String.length s in
  let k := String.length suffix in
  (k <=? n)%nat && String.eqb (substring (n - k) k s) suffix.

(** [s.endswith(suffixes)] for a tuple of suffixes. *)
Definition endswith_any (s : string) (suffixes : list string) : bool :=
  existsb (endswith s) suffixes.

(** [m = re.search(r'(\d+)', s)] followed by [int(m.group(1))]: the
    leftmost run of digits. *)
Fixpoint search_number (s : string) : option Z :=
  match s with
  | EmptyString => None
  | String c t => if Py.is_digit c then Some (Py.digits_from 0 s) else search_number t
  end.

End Str.

(** [sorted(l, key=key)]: by insertion, elements of equal key keeping
    their order. *)
Fixpoint insert_sorted {A} (key : A -> Z) (x : A) (l : list A) : list A :=
  match l with
  | [] => [x]
  | y :: t => if key y <? key x then y :: insert_sorted key x t else x :: l
  end.

Definition sorted_by {A} (key : A -> Z) (l : list A) : list A :=
  fold_right (insert_sorted key) [] l.

(** Line 1151. *)
Definition image_extensions : list string := [".jpg"; ".jpeg"; ".png"; ".bmp"; ".tiff"].

(** An entry of [frames_with_numbers], line 1152. *)
Record FrameEntry := mkFrameEntry {
  entry_path : string;
  entry_number : Z;
  entry_basename : string
}.

(** Lines 1152-1153. *)
Definition frames_with_numbers (frames_directory : string) (all_files : list string)
    : list FrameEntry :=
  omap (fun f =>
          if Str.endswith_any (Str.lower f) image_extensions
          then number ← Str.search_number f;
               Some (mkFrameEntry (Os.path_join frames_directory f) number f)
          else None)
       all_files.

(** Lines 1155-1156. *)
Definition sorted_frame_paths (frames_directory : string) (all_files : list string)
    : list string :=
  map entry_path (sorted_by entry_number (frames_with_numbers frames_directory all_files)).

(** Line 1147. *)
Definition odd_length (n_frames_sequence : Z) : Z :=
  if n_frames_sequence mod 2 =? 0 then n_frames_sequence + 1 else n_frames_sequence.

Section Pipeline.

(** The file system, OpenCV and the two networks are outside the
    embedding.  [listdir] is [os.listdir], [None] when it raises;
    [preprocess] is the chain of lines 1168-1172 and 1197-1201 on an
    image that was read; [stack] is lines 1202-1203.  A model is a
    function from its input to its output; [None] stands for an
    exception raised inside. *)
Context {Image Tensor : Type}.
Variable listdir : string -> option (list string).
Variable imread : string -> option Image.
Variable preprocess : Image -> option Tensor.
Variable stack : list Tensor -> option Tensor.

(** The body of the loop of lines 1194-1201 for one frame. *)
Definition load_for_cnn2 (frame_path : string) : option Tensor :=
  img ← imread frame_path;
  preprocess img.

(** [predict_hit_and_landing], lines 1142-1213: the pair returned, or
    [None] when the landing model raises (line 1208 is outside every
    [try]). *)
Definition predict_hit_and_landing (cnn1_model : option (Tensor -> option Q))
    (cnn2_model : option (Tensor -> option (Q * Q))) (frames_directory : string)
    (n_frames_sequence : Z) : option (option (Q * Q) * option string) :=
  match cnn1_model, cnn2_model with
  | Some cnn1, Some cnn2 =>
      let n_frames_sequence := odd_length n_frames_sequence in
      match listdir frames_directory with
      | None => Some (None, None)
      | Some all_files =>
          match frames_with_numbers frames_directory all_files with
          | [] => Some (None, None)
          | _ :: _ =>
              let sorted_frame_paths := sorted_frame_paths frames_directory all_files in
              match select_hit_sequence imread (fun img => inp ← preprocess img; cnn1 inp)
                      sorted_frame_paths n_frames_sequence with
              | NoPredictions => Some (None, None)
              | HitNotInList pred_hit_path => Some (None, Some pred_hit_path)
              | LengthMismatch pred_hit_path => Some (None, Some pred_hit_path)
              | SequenceReady pred_hit_path _ sequence_paths =>
                  match sequence_tensors ← mapM load_for_cnn2 sequence_paths;
                        stack sequence_tensors with
                  | None => Some (None, Some pred_hit_path)
                  | Some input_batch_cnn2 =>
                      match cnn2 input_batch_cnn2 with
                      | Some predicted_norm_coords =>
                          Some (Some predicted_norm_coords, Some pred_hit_path)
                      | None => None
                      end
                  end
              end
          end
      end
  | _, _ => Some (None, None)
  end.

End Pipeline.

(** A directory listing in the order of the hash table: the frames of a
    twelve-frame video, a thumbnail and a text file. *)
Definition example_listing : list string :=
  ["frame_0010.jpg"; "frame_0002.jpg"; "notes.txt"; "frame_0000.jpg"; "frame_0011.jpg";
   "frame_0001.jpg"; "frame_0003.jpg"; "frame_0005.JPG"; "frame_0004.jpg"; "frame_0007.jpg";
   "frame_0006.jpg"; "cover.png"; "frame_0009.jpg"; "frame_0008.jpg"].

(** The files of the example directory as the pipeline meets them:
    images are stood for by their paths, the last frame cannot be read,
    the hit model prefers frame 10. *)
Definition example_listdir (frames_directory : string) : option (list string) :=
  Some example_listing.

Definition example_pipeline_imread (frame_path : string) : option string :=
  if String.eqb frame_path "Frames/IST01/frame_0011.jpg" then None else Some frame_path.

Definition example_cnn1 (inp : string) : option Q :=
  Some (if String.eqb inp "Frames/IST01/frame_0010.jpg" then 9 # 10 else 1 # 10).

Definition example_cnn2 (input_batch : string) : option (Q * Q) := Some (1 # 2, 1 # 4).

(** ** The labelling tool ([tag_frames_multiple.py]) *)

Module OsPath.

Fixpoint all_slashes (s : string) : bool :=
  match s with
  | EmptyString => true
  | String c t => Ascii.eqb c "/" && all_slashes t
  end.

(** [p[:p.rfind('/') + 1]]: [p] up to its last slash, the empty string
    when it has none. *)
Fixpoint head_part (p : string) : string :=
  match p with
  | EmptyString => EmptyString
  | String c t =>
      if Os.no_slash t
      then (if Ascii.eqb c "/" then String c EmptyString else EmptyString)
      else String c (head_part t)
  end.

(** [s.rstrip('/')]. *)
Fixpoint rstrip_slashes (s : string) : string :=
  match s with
  | EmptyString => EmptyString
  | String c t =>
      match rstrip_slashes t with
      | EmptyString => if Ascii.eqb c "/" then EmptyString else String c EmptyString
      | String _ _ as t' => String c t'
      end
  end.

(** [os.path.dirname] of [posixpath]. *)
Definition dirname (p : string) : string :=
  let head := head_part p in
  match head with
  | EmptyString => head
  | String _ _ => if all_slashes head then head else rstrip_slashes head
  end.

End OsPath.

(** [l.sort()] on strings: by insertion, in the order of the character
    codes. *)
Fixpoint insert_string (x : string) (l : list string) : list string :=
  match l with
  | [] => [x]
  | y :: t =>
      match String.compare y x with
      | Gt => x :: l
      | _ => y :: insert_string x t
      end
  end.

Definition sort_strings (l : list string) : list string := fold_right insert_string [] l.

(** Lines 69-70 and 171-174: the [.jpg] files of a video directory,
    joined to the directory and sorted by name. *)
Definition jpg_frames (video_dir : string) (listing : list string) : list string :=
  sort_strings
    (map (Os.path_join video_dir)
       (List.filter (fun frame => Str.endswith frame ".jpg") listing)).

(** The attributes of [LabelTool] that the keys change while a video is
    shown. *)
Record LabelTool := mkLabelTool {
  tool_frames : list string;
  current_frame_idx : Z;
  selected_frames : gset string
}.

(** [load_video], lines 67-74, on the listing of the video directory. *)
Definition load_video (current_video : string) (listing : list string) : LabelTool :=
  mkLabelTool (jpg_frames current_video listing) 0 ∅.

(** [prev_frame], lines 96-99. *)
Definition prev_frame (self : LabelTool) : LabelTool :=
  if 0 <? current_frame_idx self
  then mkLabelTool (tool_frames self) (current_frame_idx self - 1) (selected_frames self)
  else self.

(** [next_frame], lines 101-104. *)
Definition next_frame (self : LabelTool) : LabelTool :=
  if current_frame_idx self <? Z.of_nat (length (tool_frames self)) - 1
  then mkLabelTool (tool_frames self) (current_frame_idx self + 1) (selected_frames self)
  else self.

(** [toggle_frame_selection], lines 106-115; an [IndexError] of line
    107 ends the handler and leaves the tool as it was. *)
Definition toggle_frame_selection (self : LabelTool) : LabelTool :=
  match Py.index (tool_frames self) (current_frame_idx self) with
  | None => self
  | Some current_frame =>
      mkLabelTool (tool_frames self) (current_frame_idx self)
        (if bool_decide (current_frame ∈ selected_frames self)
         then selected_frames self ∖ {[ current_frame ]}
         else selected_frames self ∪ {[ current_frame ]})
  end.

(** The keys bound at lines 30-32. *)
Inductive Key :=
| KeyLeft
| KeyRight
| KeySpace.

Definition press (self : LabelTool) (key : Key) : LabelTool :=
  match key with
  | KeyLeft => prev_frame self
  | KeyRight => next_frame self
  | KeySpace => toggle_frame_selection self
  end.

(** A row that [csv.writer] writes: the video name, the frame path and
    the label. *)
Definition CsvRow : Type := string * string * string.

Section SaveCsv.

(** [listdir] is [os.listdir], [None] when it raises; [existing_videos]
    is the set read by [load_existing_csv]. *)
Variable listdir : string -> option (list string).
Variable existing_videos : gset string.

(** One turn of the loop of lines 165-180, for the entry
    [video_name: frame_paths] of [hit_frames]: the rows written, [None]
    when [os.listdir] raises. *)
Definition video_csv_rows (video_name : string) (frame_paths : list string)
    : option (list CsvRow) :=
  if bool_decide (video_name ∈ existing_videos) then Some []
  else
    match frame_paths with
    | [] => Some []
    | first :: _ =>
        match OsPath.dirname first with
        | EmptyString => Some []
        | String _ _ as video_dir =>
            listing ← listdir video_dir;
            let all_frames := jpg_frames video_dir listing in
            let non_hit_frames :=
              List.filter (fun f => negb (existsb (String.eqb f) frame_paths)) all_frames in
            Some (map (fun frame_path => (video_name, frame_path, "1")) frame_paths
                  ++ map (fun frame_path => (video_name, frame_path, "0")) non_hit_frames)%list
        end
    end.

(** The loop of lines 165-180 over the items of [hit_frames], in the
    order of the dictionary: the rows written, and whether the loop
    came to its end. *)
Fixpoint save_rows (hit_frames : list (string * list string)) : list CsvRow * bool :=
  match hit_frames with
  | [] => ([], true)
  | (video_name, frame_paths) :: rest =>
      match video_csv_rows video_name frame_paths with
      | None => ([], false)
      | Some rows => ((rows ++ (save_rows rest).1)%list, (save_rows rest).2)
      end
  end.

(** [save_csv], lines 155-182: what is appended to the file, or written
    to a new one after the header. *)
Definition save_csv (file_exists : bool) (hit_frames : list (string * list string))
    : list CsvRow * bool :=
  let header := if file_exists then [] else [("video_name", "frame_path", "is_hit_frame")] in
  ((header ++ (save_rows hit_frames).1)%list, (save_rows hit_frames).2).

End SaveCsv.

(** The listing of a video directory of four frames, with a text file. *)
Definition example_video_listing : list string :=
  ["frame_0002.jpg"; "frame_0000.jpg"; "readme.txt"; "frame_0003.jpg"; "frame_0001.jpg"].

Definition example_video_listdir (video_dir : string) : option (list string) :=
  if String.eqb video_dir "Frames/Misc/OCT07" then Some example_video_listing else None.

(** ** Landing table keys (lines 255-291) *)

(** [str(k)] of an integer. *)
Definition str_of_int (k : Z) : string := NilEmpty.string_of_int (Z.to_int k).

(** [Series.str.zfill(width)] on one string.  The versions of pandas
    differ on a leading sign: the zeros are put after it, as
    [str.zfill] does ([sign_aware]), or before it. *)
Definition zfill (sign_aware : bool) (width : nat) (s : string) : string :=
  if (width <=? String.length s)%nat then s
  else
    let zeros := String.concat EmptyString (repeat "0" (width - String.length s)) in
    match s with
    | String c t =>
        if sign_aware && (Ascii.eqb c "+" || Ascii.eqb c "-")
        then String c (zeros ++ t) else zeros ++ s
    | EmptyString => zeros
    end.

(** The keys of [csv_files], line 255. *)
Definition csv_names : list string :=
  ["Indoor_Cross"; "Indoor_Straight"; "Outdoor_Cross"; "Outdoor_Straight"].

(** [prefix_map], line 262. *)
Definition prefix_map : gmap string string :=
  {[ "Indoor_Cross" := "ICT"; "Indoor_Straight" := "IST";
     "Outdoor_Cross" := "OCT"; "Outdoor_Straight" := "OST" ]}.

(** Lines 289-291: the [ShotID] of the row of index [original_index]
    in the file [name], the column [Index] being read as integers. *)
Definition ShotID (sign_aware : bool) (name : string) (original_index : Z) : string :=
  default "UNK" (prefix_map !! name) ++ zfill sign_aware 2 (str_of_int original_index).

(** ** Frame table paths (lines 180-184) *)

(** The backslash. *)
Definition backslash : ascii := ascii_of_nat 92.

(** [x.replace('\\', '/')]. *)
Fixpoint replace_backslash (x : string) : string :=
  match x with
  | EmptyString => EmptyString
  | String c t => String (if Ascii.eqb c backslash then "/"%char else c) (replace_backslash t)
  end.

(** No character of [s] is a backslash. *)
Fixpoint no_backslash (s : string) : bool :=
  match s with
  | EmptyString => true
  | String c t => negb (Ascii.eqb c backslash) && no_backslash t
  end.

(** Lines 180-182: the column [frame_path] of [df_meta], from the path
    [x] that the file [hit_frames.csv] gives. *)
Definition meta_frame_path (dataset_base_path x : string) : string :=
  Os.path_join (Os.path_join dataset_base_path "Frames") (replace_backslash x).

(** Line 184: the column [video_id]. *)
Definition meta_video_id (dataset_base_path x : string) : string :=
  OsPath.dirname (meta_frame_path dataset_base_path x).

(** ** Orders used to state sortedness *)

(** The number that line 461 reads in the path of a row. *)
Definition parsed_number (r : Row) : option Z :=
  Py.search_frame_number (Py.basename (frame_path r)).

(** [r] comes no later than [r'] in the order of the frame numbers. *)
Definition frame_order (r r' : Row) : Prop :=
  match parsed_number r, parsed_number r' with
  | Some n, Some n' => n <= n'
  | _, _ => False
  end.

(** [k] comes strictly before [k'] in the order of Python strings. *)
Definition key_order (k k' : string) : Prop := String.compare k k' = Lt.

(** ** Proof automation *)

(** Closes a goal whose hypotheses order two rationals both ways. *)
Ltac q_absurd :=
  match goal with
  | H1 : (?a < ?b)%Q, H2 : (?b <= ?a)%Q |- _ => exfalso; exact (Qlt_not_le _ _ H1 H2)
  end.

(** The five cases of a tally after one turn of the loop. *)
Ltac tally_cases :=
  intros []; case_bool_decide; try discriminate; try congruence;
  cbn; rewrite ?length_app; cbn; lia.

(** * Properties *)

(** ** Primitives *)

Lemma Qltb_true (a b : Q) : Py.Qltb a b = true <-> (a < b)%Q.
Proof.
  unfold Py.Qltb. rewrite negb_true_iff. split.
  - intros H. apply Qnot_le_lt. intros Hle.
    apply Qle_bool_iff in Hle. congruence.
  - intros H. destruct (Qle_bool b a) eqn:E; [|reflexivity].
    apply Qle_bool_iff in E. exfalso. exact (Qlt_not_le _ _ H E).
Qed.

Lemma Qltb_false (a b : Q) : Py.Qltb a b = false <-> (b <= a)%Q.
Proof.
  unfold Py.Qltb. rewrite negb_false_iff. apply Qle_bool_iff.
Qed.

Lemma Qle_bool_false (a b : Q) : Qle_bool a b = false <-> (b < a)%Q.
Proof.
  rewrite <- Qltb_true. unfold Py.Qltb. now rewrite negb_true_iff.
Qed.

(** [np.clip] leaves a value of the interval alone. *)
Lemma clip_inside (x lo hi : Q) :
  (lo <= x)%Q -> (x <= hi)%Q -> Py.clip x lo hi = x.
Proof.
  intros Hlo Hhi. unfold Py.clip.
  apply Qltb_false in Hlo. rewrite Hlo.
  apply Qltb_false in Hhi. now rewrite Hhi.
Qed.

(** [np.clip] lands in the interval, at the bound that was crossed. *)
Lemma clip_cases (x lo hi : Q) :
  (lo <= hi)%Q ->
  ((x < lo)%Q /\ Py.clip x lo hi = lo) \/
  ((hi < x)%Q /\ Py.clip x lo hi = hi) \/
  ((lo <= x <= hi)%Q /\ Py.clip x lo hi = x).
Proof.
  intros Hb. unfold Py.clip.
  destruct (Py.Qltb x lo) eqn:E1.
  - left. apply Qltb_true in E1. split; [exact E1|].
    apply Qltb_false in Hb. now rewrite Hb.
  - apply Qltb_false in E1. destruct (Py.Qltb hi x) eqn:E2.
    + right; left. apply Qltb_true in E2. now split.
    + right; right. apply Qltb_false in E2. now repeat split.
Qed.

Lemma clip_bounds (x lo hi : Q) :
  (lo <= hi)%Q -> (lo <= Py.clip x lo hi <= hi)%Q.
Proof.
  intros Hb.
  destruct (clip_cases x lo hi Hb) as [[_ ->]|[[_ ->]|[H ->]]];
    [split; [apply Qle_refl|exact Hb] | split; [exact Hb|apply Qle_refl] | exact H].
Qed.

(** ** CoordinateMapper *)

Lemma recognised_shot_type (t : string) :
  String.eqb t "Straight" || (String.eqb t "Cross" || false) = true <->
  t = "Straight" \/ t = "Cross".
Proof.
  rewrite orb_false_r, orb_true_iff, !String.eqb_eq. tauto.
Qed.


(** C3.  On the unit square and a court of positive size,
    [map_coordinates] undoes [denormalize_coordinates]: from the
    right-sideline distance for ['Straight'] and from the left-sideline
    distance for ['Cross'], each with the baseline distance.  Floats being
    idealised as rationals, the reconstruction is exact. *)
Theorem coordinate_round_trip (x y w l : Q) :
  (0 <= x <= 1)%Q -> (0 <= y <= 1)%Q -> (0 < w)%Q -> (0 < l)%Q ->
  exists dist_left dist_right dist_base,
    denormalize_coordinates x y w l = (Some dist_left, Some dist_right, Some dist_base) /\
    (exists x' y',
        map_coordinates (Some dist_right) (Some dist_base) (Some "Straight") w l = (Some x', Some y')
        /\ (x' == x)%Q /\ (y' == y)%Q) /\
    (exists x' y',
        map_coordinates (Some dist_left) (Some dist_base) (Some "Cross") w l = (Some x', Some y')
        /\ (x' == x)%Q /\ (y' == y)%Q).
Proof.
  intros [Hx0 Hx1] [Hy0 Hy1] Hw Hl.
  assert (Hwne : ~ (w == 0)%Q) by (intros E; rewrite E in Hw; exact (Qlt_irrefl _ Hw)).
  assert (Hlne : ~ (l == 0)%Q) by (intros E; rewrite E in Hl; exact (Qlt_irrefl _ Hl)).
  assert (Ex' : ((w - (w - x * w)) / w == x)%Q).
  { assert (E : (w - (w - x * w) == x * w)%Q) by ring.
    rewrite E. now apply Qdiv_mult_l. }
  assert (Ey : (y * l / l == y)%Q) by now apply Qdiv_mult_l.
  unfold denormalize_coordinates.
  rewrite (clip_inside x 0 1 Hx0 Hx1), (clip_inside y 0 1 Hy0 Hy1).
  pose proof Hw as Hwb. pose proof Hl as Hlb.
  apply Qle_bool_false in Hwb, Hlb. rewrite Hwb, Hlb. simpl.
  eexists _, _, _. split; [reflexivity|].
  split; eexists _, _; (split; [simpl; rewrite Hwb, Hlb; simpl; reflexivity|]).
  - split; rewrite clip_inside; try assumption;
      first [rewrite Ex' | rewrite Ey]; assumption.
  - assert (Ec : (x * w / w == x)%Q) by now apply Qdiv_mult_l.
    split; rewrite clip_inside; try assumption;
      first [rewrite Ec | rewrite Ey]; assumption.
Qed.

(** ** Python lists *)

Lemma nth_error_lookup {A} (l : list A) (i : nat) : nth_error l i = l !! i.
Proof.
  revert i. induction l as [|a l IH]; intros [|i]; try reflexivity. apply IH.
Qed.

Lemma index_in_range {A} (l : list A) (i : Z) :
  0 <= i < Z.of_nat (length l) -> Py.index l i = nth_error l (Z.to_nat i).
Proof.
  intros [H0 H1]. unfold Py.index.
  apply Z.leb_le in H0. apply Z.ltb_lt in H1. now rewrite H0, H1.
Qed.

Lemma list_index_Some {A} (eqb : A -> A -> bool) (x : A) (l : list A) :
  (exists y, In y l /\ eqb y x = true) -> is_Some (Py.list_index eqb x l).
Proof.
  induction l as [|a l IH]; intros (y & Hin & Hy); [destruct Hin|].
  simpl. destruct (eqb a x) eqn:E; [eexists; reflexivity|].
  destruct Hin as [->|Hin]; [congruence|].
  destruct IH as [k ->]; [now exists y|]. eexists; reflexivity.
Qed.

(** [l.index(x)] is a position of [l] that holds [x], and the first. *)
Lemma list_index_spec {A} (eqb : A -> A -> bool) (x : A) (l : list A) (k : Z) :
  Py.list_index eqb x l = Some k ->
  0 <= k < Z.of_nat (length l) /\
  (exists y, nth_error l (Z.to_nat k) = Some y /\ eqb y x = true) /\
  (forall j y, (j < Z.to_nat k)%nat -> nth_error l j = Some y -> eqb y x = false).
Proof.
  revert k. induction l as [|a l IH]; intros k H; [discriminate|].
  simpl in H. destruct (eqb a x) eqn:E.
  - injection H as <-. split; [simpl; lia|]. split; [now exists a|].
    intros j y Hj. simpl in Hj. lia.
  - destruct (Py.list_index eqb x l) as [k'|]; [|discriminate].
    injection H as <-. destruct (IH k' eq_refl) as (Hk & (y & Hy & Hxy) & Hfirst).
    split; [simpl; lia|]. split.
    + exists y. split; [|exact Hxy].
      replace (Z.to_nat (k' + 1)) with (S (Z.to_nat k')) by lia. exact Hy.
    + intros j z Hj Hz. destruct j as [|j]; [simpl in Hz; congruence|].
      apply (Hfirst j); [lia|exact Hz].
Qed.

(** [rows.iloc[len(rows) // 2]] exists for every non-empty table and
    splits it into [len // 2] rows before and the rest after. *)
Lemma middle_row_split (rows : list Row) :
  rows <> [] ->
  exists before r after,
    middle_row rows = Some r /\ rows = (before ++ r :: after)%list /\
    length before = (length rows / 2)%nat.
Proof.
  intros Hne. unfold middle_row.
  assert (Hlen : (0 < length rows)%nat) by (destruct rows; [congruence|simpl; lia]).
  assert (Hdiv : Z.of_nat (length rows) / 2 = Z.of_nat (length rows / 2)).
  { now rewrite Nat2Z.inj_div. }
  assert (Hlt : (length rows / 2 < length rows)%nat) by (apply Nat.div_lt; lia).
  rewrite index_in_range by lia.
  rewrite Hdiv, Nat2Z.id.
  destruct (nth_error rows (length rows / 2)) as [r|] eqn:E.
  - destruct (nth_error_split _ _ E) as (l1 & l2 & -> & Hl1).
    exists l1, r, l2. repeat split; assumption.
  - apply nth_error_None in E. lia.
Qed.

Lemma index_map {A B} (f : A -> B) (l : list A) (i : Z) :
  Py.index (map f l) i = option_map f (Py.index l i).
Proof.
  unfold Py.index. rewrite length_map.
  repeat match goal with |- context [if ?c then _ else _] => destruct c end;
    try apply nth_error_map; reflexivity.
Qed.

Lemma middle_row_map (f : Row -> Row) (rows : list Row) :
  middle_row (map f rows) = option_map f (middle_row rows).
Proof.
  unfold middle_row. now rewrite index_map, length_map.
Qed.

Lemma middle_row_In (rows : list Row) (r : Row) :
  middle_row rows = Some r -> In r rows.
Proof.
  intros H. destruct rows as [|a l]; [discriminate|].
  destruct (middle_row_split (a :: l)) as (l1 & r' & l2 & Hm & -> & _); [discriminate|].
  rewrite Hm in H. injection H as ->. apply in_or_app. right. now left.
Qed.

Lemma filter_map_commute {A} (p : A -> bool) (f : A -> A) (l : list A) :
  (forall x, p (f x) = p x) -> List.filter p (map f l) = map f (List.filter p l).
Proof.
  intros Hp. induction l as [|a l IH]; [reflexivity|].
  simpl. rewrite Hp. destruct (p a); simpl; now rewrite IH.
Qed.

(** [mapM] over a list on whose every element the function succeeds. *)
Lemma mapM_In_Forall2 {A B} (f : A -> option B) (P : A -> B -> Prop) (l : list A) :
  (forall x, In x l -> exists y, f x = Some y /\ P x y) ->
  exists k, mapM f l = Some k /\ Forall2 P l k.
Proof.
  induction l as [|a l IH]; intros H.
  - exists []. split; [reflexivity|constructor].
  - destruct (H a (or_introl eq_refl)) as (y & Hy & HP).
    destruct IH as (k & Hk & HF); [intros x Hx; apply H; now right|].
    exists (y :: k). split; [|now constructor].
    cbn. rewrite Hy. cbn. rewrite Hk. reflexivity.
Qed.

Lemma max2_Qmax (a b : Q) : (Py.max2 a b == Qmax a b)%Q.
Proof.
  unfold Py.max2. destruct (Py.Qltb a b) eqn:E.
  - apply Qltb_true in E. symmetry. apply Q.max_r. now apply Qlt_le_weak.
  - apply Qltb_false in E. symmetry. now apply Q.max_l.
Qed.

Lemma hit_frames_set_weight (w : Q) (group : list Row) :
  hit_frames (map (set_weight w) group) = map (set_weight w) (hit_frames group).
Proof.
  apply filter_map_commute. reflexivity.
Qed.

Lemma names_set_weight (w : Q) (group : list Row) :
  map name (map (set_weight w) group) = map name group.
Proof.
  rewrite map_map. reflexivity.
Qed.

Lemma frame_number_set_weight (w w' : Q) (group : list Row) (r : Row) :
  frame_number (map (set_weight w) group) (set_weight w' r) = frame_number group r.
Proof.
  unfold frame_number, get_loc. now rewrite names_set_weight.
Qed.

(** ** WeightAssigner *)

Section WeightAssigner.

Variable group : list Row.
Hypothesis unique_labels : NoDup (map name group).

Lemma label_determines_row (r r' : Row) :
  In r group -> In r' group -> name r = name r' -> r = r'.
Proof using unique_labels.
  clear -unique_labels. revert unique_labels.
  induction group as [|a l IH]; intros Hnd Hr Hr' E; [destruct Hr|].
  simpl in Hnd. apply NoDup_cons in Hnd as [Hna Hnd].
  destruct Hr as [->|Hr], Hr' as [->|Hr'].
  - reflexivity.
  - exfalso. apply Hna. rewrite E. apply list_elem_of_In, in_map, Hr'.
  - exfalso. apply Hna. rewrite <- E. apply list_elem_of_In, in_map, Hr.
  - now apply IH.
Qed.

Lemma frame_number_is_Some (r : Row) :
  In r group -> is_Some (frame_number group r).
Proof using Type.
  intros Hin. unfold frame_number.
  destruct (Py.search_frame_number _); [eexists; reflexivity|].
  apply list_index_Some. exists (name r). split; [now apply in_map|apply Z.eqb_refl].
Qed.

Lemma weights_loop_prefix (mid_label mid_num half : Z) (decay : Q) (rows : list Row) :
  (forall r, In r rows -> In r group) -> NoDup (map name rows) ->
  exists weights,
    fold_left (weights_step group mid_label mid_num half decay) rows (Some ∅) = Some weights /\
    forall r, In r rows ->
      exists n, frame_number group r = Some n /\
        weights !! name r = Some (row_weight mid_label mid_num half decay (name r) n).
Proof using Type.
  induction rows as [|r rows' IH] using rev_ind; intros Hall Hnd.
  - exists ∅. split; [reflexivity|]. intros r Hr. destruct Hr.
  - rewrite map_app in Hnd. apply NoDup_app in Hnd as (Hnd & Hdisj & _).
    destruct IH as (m & Hm & Hlook); [intros; apply Hall, in_or_app; now left|exact Hnd|].
    rewrite fold_left_app, Hm. cbn [fold_left]. unfold weights_step. cbn [mbind option_bind].
    destruct (frame_number_is_Some r) as [n Hn]; [apply Hall, in_or_app; right; now left|].
    rewrite Hn. simpl. eexists. split; [reflexivity|].
    intros r' Hin. apply in_app_or in Hin as [Hin|[<-|[]]].
    + destruct (Hlook r' Hin) as (n' & Hn' & Hl). exists n'. split; [exact Hn'|].
      rewrite lookup_insert_ne; [exact Hl|].
      intros E. apply (Hdisj (name r')).
      * apply list_elem_of_In, in_map, Hin.
      * rewrite <- E. simpl. left.
    + exists n. split; [exact Hn|]. apply lookup_insert_eq.
Qed.

(** The dict that the loop leaves: every label of the group is bound to
    the weight of its row. *)
Lemma weights_loop_lookup (mid_label mid_num half : Z) (decay : Q) :
  exists weights,
    weights_loop group mid_label mid_num half decay = Some weights /\
    forall r, In r group ->
      exists n, frame_number group r = Some n /\
        weights !! name r = Some (row_weight mid_label mid_num half decay (name r) n).
Proof using unique_labels.
  apply weights_loop_prefix; [auto|exact unique_labels].
Qed.

End WeightAssigner.

(** The weight the loop computes for a row is the specification's
    function of its distance to the canonical hit frame. *)
Lemma row_weight_linear (group : list Row) (hit r : Row) (h n window : Z) (decay : Q) :
  NoDup (map name group) -> 0 <= window ->
  In hit group -> In r group ->
  frame_number group hit = Some h -> frame_number group r = Some n ->
  (row_weight (name hit) h (window / 2) decay (name r) n
   == linear_weight window decay (Z.abs (n - h)))%Q.
Proof.
  intros Hnd Hwin Hhit Hr Hh Hn. unfold row_weight, linear_weight.
  assert (Hhalf : 0 <= window / 2) by (apply Z.div_pos; lia).
  destruct (Z.eqb_spec (name r) (name hit)) as [E|E].
  - assert (r = hit) by (eapply label_determines_row; eassumption). subst r.
    assert (n = h) by congruence. subst n.
    rewrite Z.sub_diag. reflexivity.
  - destruct (Z.eqb_spec (Z.abs (n - h)) 0) as [E0|E0].
    + rewrite E0. apply Z.leb_le in Hhalf. rewrite Hhalf.
      rewrite max2_Qmax, Q.max_r; [ring|].
      assert (E1 : (1 - inject_Z 0 * decay == 1)%Q) by ring.
      rewrite E1. discriminate.
    + destruct (Z.abs (n - h) <=? window / 2); [apply max2_Qmax|reflexivity].
Qed.

(** What [assign_linear_weights] returns on a group with a hit
    annotation: every row keeps its fields and takes the weight that
    [row_weight] computes from its own frame number and the canonical
    hit row's. *)
Lemma assign_linear_weights_rows (group : list Row) (window_size : Z) (decay_rate : Q) :
  NoDup (map name group) -> hit_frames group <> [] ->
  exists out hit h,
    assign_linear_weights group window_size decay_rate = Some out /\
    canonical_hit_row group = Some hit /\ In hit group /\
    frame_number group hit = Some h /\
    Forall2 (fun r o =>
               exists n,
                 frame_number group r = Some n /\
                 o = set_weight (row_weight (name hit) h (window_size / 2) decay_rate (name r) n) r)
            group out.
Proof.
  intros Hnd Hne. unfold assign_linear_weights.
  rewrite hit_frames_set_weight.
  destruct (hit_frames group) as [|a hits] eqn:Ehits; [congruence|].
  cbn [map].
  destruct (middle_row_split (hit_frames group)) as (l1 & hit & l2 & Hmid & Hsplit & _);
    [rewrite Ehits; discriminate|].
  assert (Hhit : In hit group).
  { apply middle_row_In in Hmid. unfold hit_frames in Hmid.
    now apply List.filter_In in Hmid as [Hin _]. }
  unfold canonical_hit_row at 1. rewrite hit_frames_set_weight, middle_row_map, Hmid.
  cbn [option_map mbind option_bind].
  destruct (frame_number_is_Some group hit Hhit) as [h Hh].
  rewrite frame_number_set_weight, Hh. cbn [mbind option_bind].
  assert (Hnd0 : NoDup (map name (map (set_weight 0) group))) by now rewrite names_set_weight.
  destruct (weights_loop_lookup (map (set_weight 0) group) Hnd0
              (name (set_weight 0 hit)) h (window_size / 2) decay_rate)
    as (weights & Hloop & Hlook).
  rewrite Hloop. cbn [mbind option_bind].
  destruct (mapM_In_Forall2
              (fun row => w ← weights !! name row; Some (set_weight w row))
              (fun x o => exists n,
                   frame_number group x = Some n /\
                   o = set_weight (row_weight (name hit) h (window_size / 2) decay_rate (name x) n) x)
              (map (set_weight 0) group)) as (out & Hout & HF).
  { intros x Hx. destruct (Hlook x Hx) as (n & Hn & Hw).
    apply in_map_iff in Hx as (r & <- & Hr).
    rewrite frame_number_set_weight in Hn.
    eexists. split; [rewrite Hw; reflexivity|].
    exists n. split; [exact Hn|reflexivity]. }
  exists out, hit, h. split; [exact Hout|].
  split; [exact Hmid|]. split; [exact Hhit|]. split; [exact Hh|].
  apply Forall2_fmap_l in HF. eapply Forall2_impl; [exact HF|].
  intros r o (n & Hn & ->). exists n. split; [exact Hn|reflexivity].
Qed.


(** The weight of a row lies in [[0, 1]] and is 1 only at distance 0. *)
Lemma row_weight_range_peak (group : list Row) (hit r : Row) (h n window : Z) (decay : Q) :
  NoDup (map name group) -> 0 <= window -> (0 < decay)%Q ->
  In hit group -> In r group ->
  frame_number group hit = Some h -> frame_number group r = Some n ->
  let w := row_weight (name hit) h (window / 2) decay (name r) n in
  (0 <= w <= 1)%Q /\ ((w == 1)%Q <-> n = h).
Proof.
  intros Hnd Hwin Hdec Hhit Hr Hh Hn. unfold row_weight. cbv zeta.
  assert (Hhalf : 0 <= window / 2) by (apply Z.div_pos; lia).
  destruct (Z.eqb_spec (name r) (name hit)) as [E|E].
  - assert (r = hit) by (eapply label_determines_row; eassumption). subst r.
    assert (n = h) by congruence. subst n.
    split; [split; discriminate|]. split; [reflexivity|reflexivity].
  - set (d := Z.abs (n - h)).
    assert (Hd : 0 <= d) by apply Z.abs_nonneg.
    destruct (Z.leb_spec d (window / 2)) as [Hle|Hgt].
    + assert (Hprod : (0 <= inject_Z d * decay)%Q).
      { apply Qmult_le_0_compat; [|now apply Qlt_le_weak].
        replace 0%Q with (inject_Z 0) by reflexivity. now rewrite <- Zle_Qle. }
      assert (Hx : (1 - inject_Z d * decay <= 1)%Q).
      { apply Qle_minus_iff.
        assert (E1 : (1 + - (1 - inject_Z d * decay) == inject_Z d * decay)%Q) by ring.
        now rewrite E1. }
      unfold Py.max2.
      destruct (Py.Qltb 0 (1 - inject_Z d * decay)) eqn:E0.
      * apply Qltb_true in E0. split; [split; [now apply Qlt_le_weak|exact Hx]|].
        split.
        -- intros E1.
           assert (E2 : (inject_Z d * decay == 0)%Q).
           { assert (E3 : (inject_Z d * decay == 1 - (1 - inject_Z d * decay))%Q) by ring.
             rewrite E3, E1. ring. }
           apply Qmult_integral in E2 as [E2|E2].
           ++ assert (Ed : d = 0) by (apply (proj1 (inject_Z_injective d 0)); exact E2).
              unfold d in Ed. lia.
           ++ rewrite E2 in Hdec. now apply Qlt_irrefl in Hdec.
        -- intros ->. unfold d. rewrite Z.sub_diag. change (Z.abs 0) with 0. ring.
      * split; [split; discriminate|]. split; [discriminate|].
        intros ->. exfalso. unfold d in E0. rewrite Z.sub_diag in E0.
        apply Qltb_false in E0. change (Z.abs 0) with 0 in E0.
        assert (E1 : (1 - inject_Z 0 * decay == 1)%Q) by ring.
        rewrite E1 in E0. now apply E0.
    + split; [split; discriminate|]. split; [discriminate|].
      intros ->. unfold d in Hgt. rewrite Z.sub_diag in Hgt. simpl in Hgt. lia.
Qed.

(** C6, as the code has it.  On a group with a hit annotation, with
    unique labels, a non-negative window and a positive decay rate: every
    weight lies in [[0, 1]]; a frame gets a weight equal to 1 exactly when
    its frame number is the canonical hit frame's; the canonical hit row
    itself gets the weight 1.  So exactly one frame has weight 1 when no
    other frame of the group shares the frame number of the canonical
    hit frame. *)
Theorem weights_range_and_peak (group : list Row) (window_size : Z) (decay_rate : Q) :
  NoDup (map name group) -> 0 <= window_size -> (0 < decay_rate)%Q ->
  hit_frames group <> [] ->
  exists out hit h,
    assign_linear_weights group window_size decay_rate = Some out /\
    canonical_hit_row group = Some hit /\ frame_number group hit = Some h /\
    In (set_weight 1 hit) out /\
    Forall2 (fun r o =>
               name o = name r /\ (0 <= weight o <= 1)%Q /\
               ((weight o == 1)%Q <-> frame_number group r = Some h))
            group out /\
    ((forall r, In r group -> frame_number group r = Some h -> r = hit) ->
     Forall2 (fun r o => (weight o == 1)%Q <-> r = hit) group out).
Proof.
  intros Hnd Hwin Hdec Hne.
  destruct (assign_linear_weights_rows group window_size decay_rate Hnd Hne)
    as (out & hit & h & Hout & Hmid & Hhit & Hh & HF).
  exists out, hit, h. split; [exact Hout|]. split; [exact Hmid|]. split; [exact Hh|].
  assert (Hrows : forall i r o, group !! i = Some r -> out !! i = Some o ->
            name o = name r /\ (0 <= weight o <= 1)%Q /\
            ((weight o == 1)%Q <-> frame_number group r = Some h)).
  { intros i r o Hr Ho.
    destruct (Forall2_lookup_lr _ _ _ _ _ _ HF Hr Ho) as (n & Hn & ->).
    assert (Hin : In r group) by (eapply list_elem_of_In, list_elem_of_lookup_2, Hr).
    destruct (row_weight_range_peak group hit r h n window_size decay_rate)
      as (Hrange & Hpeak); try assumption.
    split; [reflexivity|]. split; [exact Hrange|].
    cbn [weight set_weight]. rewrite Hn, Hpeak. split; congruence. }
  split; [|split].
  - apply list_elem_of_In in Hhit. apply list_elem_of_lookup_1 in Hhit as [i Hi].
    destruct (Forall2_lookup_l _ _ _ _ _ HF Hi) as (o & Ho & n & Hn & ->).
    assert (n = h) by congruence. subst n.
    unfold row_weight in Ho. rewrite Z.eqb_refl in Ho.
    eapply list_elem_of_In, list_elem_of_lookup_2, Ho.
  - apply Forall2_same_length_lookup_2; [eapply Forall2_length, HF|exact Hrows].
  - intros Hinj.
    apply Forall2_same_length_lookup_2; [eapply Forall2_length, HF|].
    intros i r o Hr Ho. destruct (Hrows i r o Hr Ho) as (_ & _ & Hpeak).
    rewrite Hpeak. split.
    + apply Hinj. eapply list_elem_of_In, list_elem_of_lookup_2, Hr.
    + now intros ->.
Qed.

(** C6 as stated fails: the picture without frame number takes its
    position, 1, as frame number, which is the number of the annotated
    frame; both get the weight 1. *)
Lemma two_frames_with_weight_one :
  hit_frames cover_group <> [] /\
  NoDup (map name cover_group) /\
  option_map (map (fun o => (frame_path o, Qeq_bool (weight o) 1)))
    (assign_linear_weights cover_group CNN1_N_FRAMES_WEIGHTING CNN1_WEIGHT_DECAY)
  = Some [ ("Frames/IST01/frame_0001.jpg", true);
           ("Frames/IST01/cover.jpg", true);
           ("Frames/IST01/frame_0000.jpg", false) ].
Proof.
  split; [discriminate|]. split; [|reflexivity].
  apply (bool_decide_unpack (NoDup _)). vm_compute. exact I.
Qed.

(** ** Canonical hit frame *)

Lemma middle_row_sides (rows : list Row) :
  rows <> [] ->
  exists before r after,
    middle_row rows = Some r /\ rows = (before ++ r :: after)%list /\
    length before = (length rows / 2)%nat /\
    (Nat.Odd (length rows) -> length before = length after) /\
    (Nat.Even (length rows) -> length before = S (length after)).
Proof.
  intros Hne.
  destruct (middle_row_split rows Hne) as (l1 & r & l2 & Hm & Hs & Hl).
  exists l1, r, l2. split; [exact Hm|]. split; [exact Hs|]. split; [exact Hl|].
  assert (Hlen : length rows = (length l1 + S (length l2))%nat).
  { rewrite Hs at 1. rewrite length_app. reflexivity. }
  split.
  - intros [k Hk]. rewrite Hk in Hl.
    replace ((2 * k + 1) / 2)%nat with k in Hl; [lia|].
    apply (Nat.div_unique _ 2 k 1); lia.
  - intros [k Hk]. rewrite Hk in Hl.
    replace (2 * k / 2)%nat with k in Hl; [lia|].
    apply (Nat.div_unique _ 2 k 0); lia.
Qed.



(** ** Instances *)


Lemma coordinate_round_trip_witness :
  exists dist_left dist_right dist_base,
    denormalize_coordinates (1 # 4) (1 # 2) DOUBLES_COURT_WIDTH_M HALF_COURT_LENGTH_M
      = (Some dist_left, Some dist_right, Some dist_base) /\
    (exists x' y',
        map_coordinates (Some dist_right) (Some dist_base) (Some "Straight")
          DOUBLES_COURT_WIDTH_M HALF_COURT_LENGTH_M = (Some x', Some y')
        /\ (x' == 1 # 4)%Q /\ (y' == 1 # 2)%Q) /\
    (exists x' y',
        map_coordinates (Some dist_left) (Some dist_base) (Some "Cross")
          DOUBLES_COURT_WIDTH_M HALF_COURT_LENGTH_M = (Some x', Some y')
        /\ (x' == 1 # 4)%Q /\ (y' == 1 # 2)%Q).
Proof.
  apply (coordinate_round_trip (1 # 4) (1 # 2) DOUBLES_COURT_WIDTH_M HALF_COURT_LENGTH_M);
    try (split; discriminate); reflexivity.
Defined.


Lemma weights_range_and_peak_witness :
  exists out hit,
    assign_linear_weights three_frames CNN1_N_FRAMES_WEIGHTING CNN1_WEIGHT_DECAY = Some out /\
    canonical_hit_row three_frames = Some hit /\
    Forall2 (fun r o => (weight o == 1)%Q <-> r = hit) three_frames out.
Proof.
  destruct (weights_range_and_peak three_frames CNN1_N_FRAMES_WEIGHTING CNN1_WEIGHT_DECAY)
    as (out & hit & h & Hout & Hc & Hh & _ & _ & Hone).
  - apply (bool_decide_unpack (NoDup _)). vm_compute. exact I.
  - unfold CNN1_N_FRAMES_WEIGHTING. lia.
  - reflexivity.
  - discriminate.
  - exists out, hit. split; [exact Hout|]. split; [exact Hc|].
    apply Hone. intros r Hr Hn.
    assert (Hhit : hit = mkRow 1 "Frames/IST01/frame_0001.jpg" "Frames/IST01" 1 0).
    { vm_compute in Hc. congruence. }
    subst hit. vm_compute in Hh. injection Hh as <-.
    vm_compute in Hr. destruct Hr as [<-|[<-|[<-|[]]]];
      [vm_compute in Hn; discriminate | reflexivity | vm_compute in Hn; discriminate].
Defined.


(** ** SequenceBuilder *)

Lemma length_range (a b : Z) : length (Py.range a b) = Z.to_nat (b - a).
Proof.
  unfold Py.range. now rewrite length_map, length_seq.
Qed.

Lemma range_nth (a b : Z) (k : nat) :
  (k < Z.to_nat (b - a))%nat -> nth_error (Py.range a b) k = Some (a + Z.of_nat k).
Proof.
  intros Hk. unfold Py.range. rewrite nth_error_map, nth_error_seq.
  apply Nat.ltb_lt in Hk. rewrite Hk. reflexivity.
Qed.

Lemma clipZ_range (i n : Z) : 0 < n -> 0 <= Py.clipZ i 0 (n - 1) < n.
Proof.
  unfold Py.clipZ. lia.
Qed.

(** On a video with at least one frame the window is always built, one
    frame per requested position, each read at the clamped position. *)
Lemma extract_sequence_Some (sorted_paths : list string) (hit_idx n : Z) :
  sorted_paths <> [] ->
  exists seq_paths,
    extract_sequence sorted_paths hit_idx n = Some seq_paths /\
    length seq_paths = Z.to_nat (2 * (n / 2) + 1) /\
    forall k, (k < length seq_paths)%nat ->
      nth_error seq_paths k =
      nth_error sorted_paths
        (Z.to_nat (Z.min (Z.max (hit_idx - n / 2 + Z.of_nat k) 0)
                         (Z.of_nat (length sorted_paths) - 1))).
Proof.
  intros Hne. unfold extract_sequence.
  assert (Hlen : 0 < Z.of_nat (length sorted_paths)).
  { destruct sorted_paths; [congruence|simpl; lia]. }
  destruct (mapM_In_Forall2
              (fun i => Py.index sorted_paths (Py.clipZ i 0 (Z.of_nat (length sorted_paths) - 1)))
              (fun i p => nth_error sorted_paths
                            (Z.to_nat (Py.clipZ i 0 (Z.of_nat (length sorted_paths) - 1))) = Some p)
              (Py.range (hit_idx - n / 2) (hit_idx + n / 2 + 1))) as (out & Hout & HF).
  { intros i _. pose proof (clipZ_range i _ Hlen) as Hc.
    rewrite index_in_range by exact Hc.
    destruct (nth_error sorted_paths _) as [p|] eqn:E; [now exists p|].
    apply nth_error_None in E. lia. }
  exists out. split; [exact Hout|].
  assert (Hl : length out = Z.to_nat (2 * (n / 2) + 1)).
  { rewrite <- (Forall2_length _ _ _ HF), length_range. f_equal. lia. }
  split; [exact Hl|].
  intros k Hk.
  destruct (nth_error out k) as [p|] eqn:Ep; [|apply nth_error_None in Ep; lia].
  assert (Hr : Py.range (hit_idx - n / 2) (hit_idx + n / 2 + 1) !! k
               = Some (hit_idx - n / 2 + Z.of_nat k)).
  { rewrite <- nth_error_lookup. apply range_nth. lia. }
  rewrite nth_error_lookup in Ep.
  symmetry. exact (Forall2_lookup_lr _ _ _ _ _ _ HF Hr Ep).
Qed.

(** C2.  For every odd positive [N] and every hit position [h] of the
    frame list, the window holds exactly [N] frames: the frame at
    [clip(i, 0, len - 1)] for each [i] from [h - N // 2] to [h + N // 2].
    Frames at the boundary are repeated, the window never shrinks. *)
Theorem extract_sequence_clamped (video_frames : list string) (h N : Z) :
  0 <= h < Z.of_nat (length video_frames) -> 0 < N -> Z.odd N = true ->
  exists seq_paths,
    extract_sequence video_frames h N = Some seq_paths /\
    Z.of_nat (length seq_paths) = N /\
    forall k, 0 <= k < N ->
      exists frame,
        nth_error seq_paths (Z.to_nat k) = Some frame /\
        nth_error video_frames
          (Z.to_nat (Z.min (Z.max (h - N / 2 + k) 0) (Z.of_nat (length video_frames) - 1)))
        = Some frame.
Proof.
  intros Hh HN Hodd.
  assert (Hne : video_frames <> []) by (destruct video_frames; [simpl in Hh; lia|discriminate]).
  destruct (extract_sequence_Some video_frames h N Hne) as (out & Hout & Hl & Hnth).
  assert (HN2 : 2 * (N / 2) + 1 = N).
  { rewrite (Zodd_div2 N) at 2; [|now apply Zodd_bool_iff].
    rewrite Z.div2_div. lia. }
  rewrite HN2 in Hl.
  exists out. split; [exact Hout|]. split; [lia|].
  intros k Hk.
  specialize (Hnth (Z.to_nat k) ltac:(lia)). rewrite Z2Nat.id in Hnth by lia.
  destruct (nth_error out (Z.to_nat k)) as [p|] eqn:Ep; [|apply nth_error_None in Ep; lia].
  exists p. split; [reflexivity|]. now rewrite <- Hnth.
Qed.

(** Scenario 4 and the clamping at the first frame. *)
Lemma extract_sequence_scenarios :
  extract_sequence (map frame_file_name (seq 0 20)) 18 9
    = Some (map frame_file_name [14; 15; 16; 17; 18; 19; 19; 19; 19]%nat) /\
  extract_sequence (map frame_file_name (seq 0 20)) 0 5
    = Some (map frame_file_name [0; 0; 0; 1; 2]%nat).
Proof.
  split; reflexivity.
Qed.

Lemma extract_sequence_clamped_witness :
  exists seq_paths,
    extract_sequence (map frame_file_name (seq 0 20)) 18 9 = Some seq_paths /\
    Z.of_nat (length seq_paths) = 9.
Proof.
  destruct (extract_sequence_clamped (map frame_file_name (seq 0 20)) 18 9)
    as (out & Hout & Hl & _).
  - simpl. lia.
  - lia.
  - reflexivity.
  - exists out. split; assumption.
Defined.

(** ** Batch sequence building *)

Lemma insert_by_num_perm (x : Z * Row) (l : list (Z * Row)) :
  Permutation (insert_by_num x l) (x :: l).
Proof.
  induction l as [|y l IH]; [reflexivity|].
  simpl. destruct (fst x <? fst y); [reflexivity|].
  rewrite IH. apply perm_swap.
Qed.

Lemma sort_values_perm (l : list (Z * Row)) : Permutation (sort_values l) l.
Proof.
  induction l as [|x l IH]; [reflexivity|].
  simpl. rewrite insert_by_num_perm. now constructor.
Qed.

(** Sorting succeeds exactly on the groups whose paths all carry a
    number, and only reorders the rows. *)
Lemma sort_group_cases (group : list Row) :
  if unparsable group then sort_group group = None
  else exists group_sorted,
      sort_group group = Some group_sorted /\ Permutation group_sorted group.
Proof.
  unfold sort_group.
  destruct (unparsable group) eqn:E.
  - apply existsb_exists in E as (r & Hr & Hn).
    rewrite (mapM_None_2 _ group); [reflexivity|].
    apply Exists_exists. exists r. split; [now apply list_elem_of_In|].
    destruct (Py.search_frame_number _); [discriminate|reflexivity].
  - destruct (mapM_In_Forall2
                (fun r => n ← Py.search_frame_number (Py.basename (frame_path r)); Some (n, r))
                (fun r p => p.2 = r) group) as (numbered & Hnum & HF).
    { intros r Hr.
      destruct (Py.search_frame_number (Py.basename (frame_path r))) as [n|] eqn:En.
      - exists (n, r). split; reflexivity.
      - exfalso. apply not_true_iff_false in E. apply E.
        apply existsb_exists. exists r. split; [exact Hr|]. now rewrite En. }
    rewrite Hnum. cbn [mbind option_bind]. eexists. split; [reflexivity|].
    rewrite sort_values_perm.
    assert (Hmap : map snd numbered = group).
    { clear -HF. induction HF as [|r p l k Hp _ IH]; [reflexivity|].
      simpl. now rewrite Hp, IH. }
    now rewrite Hmap.
Qed.

Lemma weight_one_rows_nil (group_sorted group : list Row) :
  Permutation group_sorted group ->
  weight_one_rows group_sorted = [] <-> has_hit_frame group = false.
Proof.
  intros Hperm. unfold weight_one_rows, has_hit_frame. split.
  - intros Hnil. apply not_true_iff_false. intros Hex.
    apply existsb_exists in Hex as (r & Hr & Hw).
    assert (Hin : In r (List.filter (fun r => Qeq_bool (weight r) 1) group_sorted)).
    { apply List.filter_In. split; [|exact Hw].
      eapply Permutation_in; [symmetry; exact Hperm|exact Hr]. }
    rewrite Hnil in Hin. destruct Hin.
  - intros Hno.
    destruct (List.filter _ group_sorted) as [|r l] eqn:E; [reflexivity|].
    exfalso. apply not_true_iff_false in Hno. apply Hno.
    assert (Hin : In r (List.filter (fun r => Qeq_bool (weight r) 1) group_sorted))
      by (rewrite E; now left).
    apply List.filter_In in Hin as [Hin Hw].
    apply existsb_exists. exists r. split; [|exact Hw].
    eapply Permutation_in; [exact Hperm|exact Hin].
Qed.

(** What the [try] block finds, by the conditions of the
    specification. *)
Lemma find_hit_cases (group : list Row) :
  if unparsable group then find_hit group = HitRaised
  else if has_hit_frame group
       then exists sorted_paths hit_idx_sorted,
           find_hit group = HitFound sorted_paths hit_idx_sorted /\ sorted_paths <> []
       else find_hit group = HitMissing.
Proof.
  pose proof (sort_group_cases group) as Hsort. unfold find_hit.
  destruct (unparsable group); [now rewrite Hsort|].
  destruct Hsort as (sorted & -> & Hperm). cbv zeta.
  pose proof (weight_one_rows_nil sorted group Hperm) as Hnil.
  destruct (has_hit_frame group).
  - destruct (weight_one_rows sorted) as [|a l] eqn:E.
    { destruct Hnil as [Hnil _]. discriminate (Hnil eq_refl). }
    destruct (middle_row_split (a :: l)) as (l1 & r & l2 & Hm & Hs & _); [discriminate|].
    rewrite Hm.
    assert (Hin : In (frame_path r) (map frame_path sorted)).
    { apply in_map.
      assert (Hr : In r (weight_one_rows sorted))
        by (rewrite E, Hs; apply in_or_app; right; now left).
      unfold weight_one_rows in Hr. now apply List.filter_In in Hr as [Hr _]. }
    destruct (list_index_Some String.eqb (frame_path r) (map frame_path sorted)) as [k Hk].
    { exists (frame_path r). split; [exact Hin|apply String.eqb_refl]. }
    rewrite Hk. exists (map frame_path sorted), k. split; [reflexivity|].
    intros Hempty. rewrite Hempty in Hin. destruct Hin.
  - destruct Hnil as [_ Hnil]. now rewrite (Hnil eq_refl).
Qed.

(** One turn of the loop adds one to the tally of the video's category
    and leaves the other tallies alone; a sequence is appended only for
    the category [Success], and has the requested length. *)
Lemma process_video_tally (landing : gmap string (Q * Q)) (n : Z)
    (st : LoopState) (vg : string * list Row) :
  exists st',
    process_video landing n st vg = Some st' /\
    (forall c, tally st' c =
               (tally st c + if bool_decide (category landing n vg = c) then 1 else 0)%nat) /\
    ((category landing n vg <> Success /\
      sequences_for_dataset st' = sequences_for_dataset st) \/
     (category landing n vg = Success /\
      exists q, sequences_for_dataset st' = (sequences_for_dataset st ++ [q])%list /\
                seq_video_id q = vg.1 /\ shot_id q = Py.basename vg.1 /\
                landing !! shot_id q = Some (target_coords q) /\
                Z.of_nat (length (sequence_paths q)) = n)).
Proof.
  destruct vg as [v g], st as [seqs nh nl np ns].
  pose proof (find_hit_cases g) as Hfind.
  unfold process_video, category. cbn [fst snd].
  destruct (unparsable g).
  { rewrite Hfind. eexists. split; [reflexivity|].
    split; [tally_cases|]. left. split; [discriminate|reflexivity]. }
  destruct (has_hit_frame g); cbn [negb].
  2:{ rewrite Hfind. eexists. split; [reflexivity|].
      split; [tally_cases|]. left. split; [discriminate|reflexivity]. }
  destruct Hfind as (paths & k & -> & Hne).
  destruct (landing !! Py.basename v) as [t|] eqn:El.
  2:{ eexists. split; [reflexivity|].
      split; [tally_cases|]. left. split; [discriminate|reflexivity]. }
  destruct (extract_sequence_Some paths k n Hne) as (sp & -> & Hl & _).
  cbn [mbind option_bind].
  assert (Hlen : Z.of_nat (length sp) = window_length n).
  { rewrite Hl. unfold window_length. lia. }
  rewrite Hlen.
  destruct (window_length n =? n) eqn:Ew.
  - eexists. split; [reflexivity|].
    split; [tally_cases|].
    right. split; [reflexivity|]. eexists. split; [reflexivity|].
    cbn. repeat split; try assumption. apply Z.eqb_eq in Ew. lia.
  - eexists. split; [reflexivity|].
    split; [tally_cases|]. left. split; [discriminate|reflexivity].
Qed.

Lemma count_category_cons (landing : gmap string (Q * Q)) (n : Z) (c : Category)
    (vg : string * list Row) (videos : list (string * list Row)) :
  count_category landing n c (vg :: videos) =
  ((if bool_decide (category landing n vg = c) then 1 else 0)
   + count_category landing n c videos)%nat.
Proof.
  unfold count_category. cbn [List.filter].
  destruct (bool_decide (category landing n vg = c)); reflexivity.
Qed.

(** Every video is counted in one category. *)
Lemma count_category_total (landing : gmap string (Q * Q)) (n : Z)
    (videos : list (string * list Row)) :
  (count_category landing n Success videos + count_category landing n NoHit videos
   + count_category landing n NoLanding videos + count_category landing n Parse videos
   + count_category landing n Short videos = length videos)%nat.
Proof.
  induction videos as [|vg videos IH]; [reflexivity|].
  rewrite !count_category_cons. cbn [length].
  destruct (category landing n vg); repeat case_bool_decide; try congruence; lia.
Qed.

(** The loop over the videos: the tallies grow by the number of videos
    of each category, and the sequences appended are those of the
    videos of category [Success], in order. *)
Lemma loop_tally (landing : gmap string (Q * Q)) (n : Z)
    (videos : list (string * list Row)) (st : LoopState) :
  exists st',
    fold_left (fun acc vg => st ← acc; process_video landing n st vg) videos (Some st)
      = Some st' /\
    (forall c, tally st' c = (tally st c + count_category landing n c videos)%nat) /\
    exists new,
      sequences_for_dataset st' = (sequences_for_dataset st ++ new)%list /\
      map seq_video_id new
        = map fst (List.filter (fun vg => bool_decide (category landing n vg = Success)) videos) /\
      Forall (fun q => Z.of_nat (length (sequence_paths q)) = n /\
                       landing !! shot_id q = Some (target_coords q)) new.
Proof.
  revert st. induction videos as [|vg videos IH]; intros st.
  - exists st. split; [reflexivity|]. split; [intros c; cbn; lia|].
    exists []. split; [now rewrite app_nil_r|]. split; [reflexivity|constructor].
  - destruct (process_video_tally landing n st vg) as (st1 & Hst1 & Htally & Hseq).
    destruct (IH st1) as (st' & Hfold & Htally' & new & Hnew & Hids & HP).
    exists st'. cbn [fold_left mbind option_bind]. rewrite Hst1.
    split; [exact Hfold|]. split.
    + intros c. rewrite Htally', Htally, count_category_cons. lia.
    + cbn [List.filter].
      destruct Hseq as [[Hc Hsame]|(Hc & q & Happ & Hv & Hs & Hl & Hlen)].
      * exists new. rewrite Hnew, Hsame. split; [reflexivity|].
        rewrite bool_decide_eq_false_2 by exact Hc. split; assumption.
      * exists (q :: new). rewrite Hnew, Happ, <- app_assoc. split; [reflexivity|].
        rewrite bool_decide_eq_true_2 by exact Hc. cbn [map]. rewrite Hv, Hids.
        split; [reflexivity|]. constructor; [split; assumption|exact HP].
Qed.




(** ** DatasetBalancer *)

Lemma take_first_contract : sample_without_replacement take_first.
Proof.
  intros l n seed Hn. unfold take_first. split; [now apply firstn_length_le|].
  exists (skipn n l). now rewrite firstn_skipn.
Qed.

Lemma keep_order_contract : shuffle_permutes keep_order.
Proof.
  intros l seed. reflexivity.
Qed.

(** On a float that holds an integer, [int] and [round] agree. *)
Lemma int_round_integer (x : Q) (m : Z) :
  (x == inject_Z m)%Q -> Py.int_of_float x = m /\ round_half_even x = m.
Proof.
  intros E. split.
  - unfold Py.int_of_float.
    assert (En : Qnum x = m * Z.pos (Qden x)) by (unfold Qeq in E; cbn in E; lia).
    rewrite En. now apply Z.quot_mul.
  - unfold round_half_even. rewrite (Qfloor_comp _ _ E), Qfloor_Z.
    assert (Hr : Py.Qltb (x - inject_Z m) (1 # 2) = true).
    { apply Qltb_true. rewrite E.
      assert (E0 : (inject_Z m - inject_Z m == 0)%Q) by ring.
      rewrite E0. reflexivity. }
    now rewrite Hr.
Qed.




(** ** Hit-frame selection *)

(** [max(l, key=...)] returns an element of greatest key, and the first
    of them. *)
Lemma max_by_spec {A} (key : A -> Q) (l : list A) (best : A) :
  exists i,
    (best :: l) !! i = Some (Py.max_by key best l) /\
    (forall x, In x (best :: l) -> (key x <= key (Py.max_by key best l))%Q) /\
    (forall j x, (j < i)%nat -> (best :: l) !! j = Some x ->
                 (key x < key (Py.max_by key best l))%Q).
Proof.
  revert best. induction l as [|x t IH]; intros best.
  - exists 0%nat. split; [reflexivity|]. split.
    + intros y [<-|[]]. apply Qle_refl.
    + intros j y Hj. lia.
  - cbn [Py.max_by]. destruct (Py.Qltb (key best) (key x)) eqn:E.
    + apply Qltb_true in E. destruct (IH x) as (i & Hi & Hmax & Hfirst).
      assert (Hx : (key x <= key (Py.max_by key x t))%Q) by (apply Hmax; now left).
      exists (S i). split; [exact Hi|]. split.
      * intros y [<-|Hy]; [|now apply Hmax].
        apply Qlt_le_weak. eapply Qlt_le_trans; eassumption.
      * intros [|j] y Hj Hy.
        -- injection Hy as <-. eapply Qlt_le_trans; eassumption.
        -- apply (Hfirst j); [lia|exact Hy].
    + apply Qltb_false in E. destruct (IH best) as (i & Hi & Hmax & Hfirst).
      assert (Hb : (key best <= key (Py.max_by key best t))%Q) by (apply Hmax; now left).
      destruct i as [|i].
      * exists 0%nat. split; [exact Hi|]. split.
        -- intros y [<-|[<-|Hy]]; [exact Hb| |apply Hmax; now right].
           eapply Qle_trans; eassumption.
        -- intros j y Hj. lia.
      * exists (S (S i)). split; [exact Hi|]. split.
        -- intros y [<-|[<-|Hy]]; [exact Hb| |apply Hmax; now right].
           eapply Qle_trans; eassumption.
        -- assert (Hbest : (key best < key (Py.max_by key best t))%Q)
             by (apply (Hfirst 0%nat); [lia|reflexivity]).
           intros [|[|j]] y Hj Hy.
           ++ injection Hy as <-. exact Hbest.
           ++ injection Hy as <-. eapply Qle_lt_trans; eassumption.
           ++ apply (Hfirst (S j)); [lia|exact Hy].
Qed.

Lemma predictions_in_file_order {Image} (imread : string -> option Image)
    (cnn1_score : Image -> option Q) (sorted_frame_paths : list string) :
  sublist (map pred_path (predictions_cnn1 imread cnn1_score sorted_frame_paths))
          sorted_frame_paths.
Proof.
  unfold predictions_cnn1.
  induction sorted_frame_paths as [|p l IH]; [constructor|].
  cbn [omap list_omap].
  destruct (imread p) as [img|]; cbn [mbind option_bind]; [|now apply sublist_cons].
  destruct (cnn1_score img) as [sc|]; cbn [mbind option_bind]; [|now apply sublist_cons].
  cbn [map pred_path]. now apply sublist_skip.
Qed.



Lemma best_hit_tie_example :
  select_hit_sequence example_imread example_score
    ["Frames/OST02/frame_0000.jpg"; "Frames/OST02/frame_0002.jpg"; "Frames/OST02/frame_0003.jpg"] 3
  = SequenceReady "Frames/OST02/frame_0002.jpg" 1
      ["Frames/OST02/frame_0000.jpg"; "Frames/OST02/frame_0002.jpg"; "Frames/OST02/frame_0003.jpg"].
Proof.
  reflexivity.
Qed.

(** ** Dataset classes *)

Section DatasetProperties.

Context {Image Pixels Tensor : Type}.
Variable imread : string -> option Image.
Variable apply_augmentations : nat -> Image -> Z -> option (Pixels * bool).
Variable cvtColor : Image -> option Pixels.
Variable to_tensor : nat -> nat -> Pixels -> option Tensor.
Variable zeros : nat -> nat -> nat -> Tensor.
Variable cat : list Tensor -> Tensor.

Local Notation "'load'" := (load_frame imread apply_augmentations cvtColor to_tensor).
Local Notation "'plain'" := (plain_tensor imread cvtColor to_tensor).

Lemma load_frame_unreadable (augment : bool) (cnn_type : Z) (i h w : nat) (path : string) :
  imread path = None -> load augment cnn_type i h w path = None.
Proof using Type.
  intros E. unfold load_frame. now rewrite E.
Qed.

Lemma load_frame_plain (cnn_type : Z) (i h w : nat) (path : string) :
  load false cnn_type i h w path = (t ← plain h w path; Some (t, false)).
Proof using Type.
  unfold load_frame, plain_tensor.
  destruct (imread path) as [img|]; [|reflexivity]. cbn [mbind option_bind].
  destruct (cvtColor img) as [rgb|]; [|reflexivity]. cbn [mbind option_bind fst snd].
  destruct (to_tensor h w rgb); reflexivity.
Qed.

(** The loop over the frames of a sequence: one tensor per frame, black
    where the frame could not be loaded; without augmentation the flip
    status stays off. *)
Lemma load_sequence_spec (self : BallLandingDataset) (frame_paths : list string)
    (st : list Tensor * bool) (i : nat) :
  exists tensors flipped,
    load_sequence imread apply_augmentations cvtColor to_tensor zeros self st i frame_paths
      = ((st.1 ++ tensors)%list, flipped) /\
    length tensors = length frame_paths /\
    (forall k p, frame_paths !! k = Some p -> imread p = None ->
                 tensors !! k = Some (zeros 3 (seq_img_height self) (seq_img_width self))) /\
    (seq_augment self = false -> st.2 = false ->
     flipped = false /\
     tensors = map (fun p => default (zeros 3 (seq_img_height self) (seq_img_width self))
                               (plain (seq_img_height self) (seq_img_width self) p))
                   frame_paths).
Proof using Type.
  revert st i. induction frame_paths as [|p rest IH]; intros st i.
  - exists [], st.2. cbn [load_sequence]. rewrite app_nil_r.
    split; [now destruct st|]. split; [reflexivity|].
    split; [intros k q Hk; discriminate|]. intros _ Hst. now split.
  - cbn [load_sequence]. unfold load_sequence_frame.
    destruct (load (seq_augment self) 2 i (seq_img_height self) (seq_img_width self) p)
      as [[t was_flipped]|] eqn:El.
    + destruct (IH ((st.1 ++ [t])%list,
                    if seq_augment self && (i =? 0)%nat then was_flipped else st.2) (S i))
        as (ts & fl & Hrun & Hlen & Hblack & Hplain).
      exists (t :: ts), fl. cbn [fst snd] in Hrun, Hplain.
      rewrite <- app_assoc in Hrun. split; [exact Hrun|].
      split; [cbn; now rewrite Hlen|]. split.
      * intros [|k] q Hq Hnone.
        -- injection Hq as <-. rewrite load_frame_unreadable in El by exact Hnone. discriminate.
        -- now apply (Hblack k q).
      * intros Haug Hst. rewrite Haug in El, Hplain. rewrite load_frame_plain in El.
        destruct (plain (seq_img_height self) (seq_img_width self) p) as [t'|] eqn:Ep;
          [|discriminate].
        injection El as <- <-. destruct (Hplain eq_refl Hst) as [-> ->].
        split; [reflexivity|]. cbn [map]. now rewrite Ep.
    + destruct (IH ((st.1 ++ [zeros 3 (seq_img_height self) (seq_img_width self)])%list,
                    if (i =? 0)%nat then false else st.2) (S i))
        as (ts & fl & Hrun & Hlen & Hblack & Hplain).
      exists (zeros 3 (seq_img_height self) (seq_img_width self) :: ts), fl.
      cbn [fst snd] in Hrun, Hplain.
      rewrite <- app_assoc in Hrun. split; [exact Hrun|].
      split; [cbn; now rewrite Hlen|]. split.
      * intros [|k] q Hq Hnone; [reflexivity|now apply (Hblack k q)].
      * intros Haug Hst. rewrite Haug in El. rewrite load_frame_plain in El.
        destruct (plain (seq_img_height self) (seq_img_width self) p) as [t'|] eqn:Ep;
          [discriminate|].
        destruct (Hplain Haug) as [-> ->]; [now destruct (i =? 0)%nat|].
        split; [reflexivity|]. cbn [map]. now rewrite Ep.
Qed.


End DatasetProperties.


(** ** Scenarios of the specification *)

(** Scenarios 1 and 2: one metre from the sideline, six from the
    baseline. *)
Lemma map_coordinates_scenarios :
  map_coordinates (Some 1%Q) (Some 6%Q) (Some "Straight")
    DOUBLES_COURT_WIDTH_M HALF_COURT_LENGTH_M
    = (Some (99700 # 109700)%Q, Some (600 # 1189)%Q) /\
  map_coordinates (Some 1%Q) (Some 6%Q) (Some "Cross")
    DOUBLES_COURT_WIDTH_M HALF_COURT_LENGTH_M
    = (Some (100 # 1097)%Q, Some (600 # 1189)%Q) /\
  ((9088 # 10000) < 99700 # 109700 < 9089 # 10000)%Q /\
  ((911 # 10000) < 100 # 1097 < 912 # 10000)%Q /\
  ((5046 # 10000) < 600 # 1189 < 5047 # 10000)%Q.
Proof.
  repeat split; reflexivity.
Qed.

(** Scenario 3: twenty frames, the hit at frame 10, window 9 and decay
    0.3. *)
Lemma twenty_frames_weights :
  exists out,
    assign_linear_weights twenty_frames CNN1_N_FRAMES_WEIGHTING CNN1_WEIGHT_DECAY = Some out /\
    option_map weight (out !! 10%nat) = Some 1%Q /\
    (exists w, option_map weight (out !! 12%nat) = Some w /\ (w == 4 # 10)%Q) /\
    (exists w, option_map weight (out !! 15%nat) = Some w /\ (w == 0)%Q).
Proof.
  destruct (assign_linear_weights twenty_frames CNN1_N_FRAMES_WEIGHTING CNN1_WEIGHT_DECAY)
    as [out|] eqn:E; [|vm_compute in E; discriminate].
  exists out. split; [reflexivity|].
  vm_compute in E. injection E as <-.
  split; [reflexivity|]. split; eexists; (split; [reflexivity|reflexivity]).
Qed.

(** * Further properties of the code *)

(** ** CoordinateMapper *)

Lemma div_unit (a w : Q) : (0 <= a <= w)%Q -> (0 < w)%Q -> (0 <= a / w <= 1)%Q.
Proof.
  intros [H0 H1] Hw. split.
  - apply Qle_shift_div_l; [exact Hw|]. lra.
  - apply Qle_shift_div_r; [exact Hw|]. lra.
Qed.

Lemma div_mul_cancel (a w : Q) : (0 < w)%Q -> (a / w * w == a)%Q.
Proof.
  intros Hw. rewrite Qmult_comm. apply Qmult_div_r. lra.
Qed.

(** The result of [map_coordinates] is never half null, and its
    coordinates lie in the unit square whatever the distances are. *)
Theorem map_coordinates_unit_square (ds db : option Q) (st : option string) (w l : Q) :
  map_coordinates ds db st w l = (None, None) \/
  exists x y,
    map_coordinates ds db st w l = (Some x, Some y) /\
    (0 <= x <= 1)%Q /\ (0 <= y <= 1)%Q.
Proof.
  unfold map_coordinates.
  destruct ds as [s|], db as [b|], st as [t|]; try (now left).
  destruct (negb _ || Qle_bool w 0 || Qle_bool l 0); [now left|].
  right. eexists _, _. split; [reflexivity|].
  split; apply clip_bounds; discriminate.
Qed.

(** On a court of positive size [denormalize_coordinates] returns, for
    any pair of numbers, distances inside the court: the two sideline
    distances add up to the court width.  On a court without positive
    size it returns the null triple. *)
Theorem denormalize_inside_court (x y w l : Q) :
  ((0 < w)%Q -> (0 < l)%Q ->
   exists dist_left dist_right dist_base,
     denormalize_coordinates x y w l = (Some dist_left, Some dist_right, Some dist_base) /\
     (dist_left + dist_right == w)%Q /\
     (0 <= dist_left <= w)%Q /\ (0 <= dist_right <= w)%Q /\ (0 <= dist_base <= l)%Q) /\
  ((w <= 0)%Q \/ (l <= 0)%Q -> denormalize_coordinates x y w l = (None, None, None)).
Proof.
  unfold denormalize_coordinates. split.
  - intros Hw Hl. pose proof Hw as Hwb. pose proof Hl as Hlb.
    apply Qle_bool_false in Hwb, Hlb. rewrite Hwb, Hlb. cbn [orb].
    pose proof (clip_bounds x 0 1 ltac:(discriminate)) as Hx.
    pose proof (clip_bounds y 0 1 ltac:(discriminate)) as Hy.
    eexists _, _, _. split; [reflexivity|].
    set (cx := Py.clip x 0 1) in *. set (cy := Py.clip y 0 1) in *.
    repeat split; try nra; ring.
  - intros [H|H]; apply Qle_bool_iff in H; rewrite H; [reflexivity|].
    now rewrite orb_true_r.
Qed.

Lemma denormalize_inside_court_witness :
  exists dist_left dist_right dist_base,
    denormalize_coordinates (3 # 2) (- (1)) DOUBLES_COURT_WIDTH_M HALF_COURT_LENGTH_M
      = (Some dist_left, Some dist_right, Some dist_base) /\
    (dist_left + dist_right == DOUBLES_COURT_WIDTH_M)%Q.
Proof.
  destruct (proj1 (denormalize_inside_court (3 # 2) (- (1)) DOUBLES_COURT_WIDTH_M
                     HALF_COURT_LENGTH_M)) as (dl & dr & db & H & Hsum & _);
    [reflexivity|reflexivity|].
  exists dl, dr, db. split; assumption.
Defined.

(** Distances measured inside the court come back from the normalised
    coordinates: the left-sideline distance for ['Cross'], the
    right-sideline distance for ['Straight'], the baseline distance for
    both. *)
Theorem denormalize_after_map (ds db w l : Q) :
  (0 <= ds <= w)%Q -> (0 <= db <= l)%Q -> (0 < w)%Q -> (0 < l)%Q ->
  (exists x y dist_left dist_right dist_base,
      map_coordinates (Some ds) (Some db) (Some "Cross") w l = (Some x, Some y) /\
      denormalize_coordinates x y w l = (Some dist_left, Some dist_right, Some dist_base) /\
      (dist_left == ds)%Q /\ (dist_base == db)%Q) /\
  (exists x y dist_left dist_right dist_base,
      map_coordinates (Some ds) (Some db) (Some "Straight") w l = (Some x, Some y) /\
      denormalize_coordinates x y w l = (Some dist_left, Some dist_right, Some dist_base) /\
      (dist_right == ds)%Q /\ (dist_base == db)%Q).
Proof.
  intros Hds Hdb Hw Hl.
  pose proof Hw as Hwb. pose proof Hl as Hlb. apply Qle_bool_false in Hwb, Hlb.
  pose proof (div_unit ds w Hds Hw) as [Hx0 Hx1].
  pose proof (div_unit db l Hdb Hl) as [Hy0 Hy1].
  assert (Hm : (0 <= w - ds <= w)%Q) by lra.
  pose proof (div_unit (w - ds) w Hm Hw) as [Hs0 Hs1].
  pose proof (div_mul_cancel ds w Hw) as Ex.
  pose proof (div_mul_cancel db l Hl) as Ey.
  pose proof (div_mul_cancel (w - ds) w Hw) as Es.
  split; eexists _, _, _, _, _; cbn [map_coordinates existsb String.eqb Ascii.eqb Bool.eqb negb orb];
    rewrite Hwb, Hlb; cbn [orb]; unfold denormalize_coordinates; rewrite Hwb, Hlb; cbn [orb];
    (split; [reflexivity|]); (split; [reflexivity|]);
    rewrite ?(clip_inside (ds / w) 0 1 Hx0 Hx1), ?(clip_inside ((w - ds) / w) 0 1 Hs0 Hs1),
      ?(clip_inside (db / l) 0 1 Hy0 Hy1);
    rewrite ?(clip_inside (ds / w) 0 1 Hx0 Hx1), ?(clip_inside ((w - ds) / w) 0 1 Hs0 Hs1),
      ?(clip_inside (db / l) 0 1 Hy0 Hy1);
    split; lra.
Qed.

Lemma denormalize_after_map_witness :
  exists x y dist_left dist_right dist_base,
    map_coordinates (Some 1%Q) (Some 6%Q) (Some "Straight")
      DOUBLES_COURT_WIDTH_M HALF_COURT_LENGTH_M = (Some x, Some y) /\
    denormalize_coordinates x y DOUBLES_COURT_WIDTH_M HALF_COURT_LENGTH_M
      = (Some dist_left, Some dist_right, Some dist_base) /\
    (dist_right == 1)%Q /\ (dist_base == 6)%Q.
Proof.
  apply (proj2 (denormalize_after_map 1 6 DOUBLES_COURT_WIDTH_M HALF_COURT_LENGTH_M
                  ltac:(split; discriminate) ltac:(split; discriminate)
                  eq_refl eq_refl)).
Defined.

(** The two shot types mirror each other: for the same measurements,
    whether inside the court or not, the two [x] add up to 1 and the
    [y] are equal. *)
Theorem straight_cross_mirror (ds db w l : Q) :
  (0 < w)%Q -> (0 < l)%Q ->
  exists x_straight x_cross y,
    map_coordinates (Some ds) (Some db) (Some "Straight") w l = (Some x_straight, Some y) /\
    map_coordinates (Some ds) (Some db) (Some "Cross") w l = (Some x_cross, Some y) /\
    (x_straight + x_cross == 1)%Q.
Proof.
  intros Hw Hl.
  pose proof Hw as Hwb. pose proof Hl as Hlb. apply Qle_bool_false in Hwb, Hlb.
  eexists _, _, _.
  cbn [map_coordinates existsb String.eqb Ascii.eqb Bool.eqb negb orb].
  rewrite Hwb, Hlb. cbn [orb]. split; [reflexivity|]. split; [reflexivity|].
  assert (E : ((w - ds) / w == 1 - ds / w)%Q).
  { unfold Qdiv. assert (Hinv : (w * / w == 1)%Q) by (apply Qmult_inv_r; lra).
    assert (E0 : ((w - ds) * / w == w * / w - ds * / w)%Q) by ring.
    rewrite E0, Hinv. reflexivity. }
  destruct (clip_cases ((w - ds) / w) 0 1 ltac:(discriminate)) as [[H1 ->]|[[H1 ->]|[H1 ->]]];
    destruct (clip_cases (ds / w) 0 1 ltac:(discriminate)) as [[H2 ->]|[[H2 ->]|[H2 ->]]];
    lra.
Qed.

Lemma straight_cross_mirror_witness :
  exists x_straight x_cross y,
    map_coordinates (Some 12%Q) (Some 6%Q) (Some "Straight")
      DOUBLES_COURT_WIDTH_M HALF_COURT_LENGTH_M = (Some x_straight, Some y) /\
    map_coordinates (Some 12%Q) (Some 6%Q) (Some "Cross")
      DOUBLES_COURT_WIDTH_M HALF_COURT_LENGTH_M = (Some x_cross, Some y) /\
    (x_straight + x_cross == 1)%Q.
Proof.
  apply (straight_cross_mirror 12 6 DOUBLES_COURT_WIDTH_M HALF_COURT_LENGTH_M eq_refl eq_refl).
Defined.

(** ** WeightAssigner *)

Lemma set_weight_reset (w : Q) (r : Row) : set_weight 0 (set_weight w r) = set_weight 0 r.
Proof. reflexivity. Qed.

(** [assign_linear_weights] reads nothing of the weights it is given. *)
Lemma assign_linear_weights_reset (g1 g2 : list Row) (window_size : Z) (decay_rate : Q) :
  map (set_weight 0) g1 = map (set_weight 0) g2 ->
  assign_linear_weights g1 window_size decay_rate
  = assign_linear_weights g2 window_size decay_rate.
Proof.
  intros E. unfold assign_linear_weights. now rewrite E.
Qed.

(** The weight assignment changes the weights only: the rows come back
    in the same order with their labels, paths and annotations.  Since
    the weights of the input are not read, weighting a weighted group
    again changes nothing. *)
Theorem assign_linear_weights_keeps_rows (group : list Row) (window_size : Z) (decay_rate : Q) :
  NoDup (map name group) ->
  exists out,
    assign_linear_weights group window_size decay_rate = Some out /\
    map (set_weight 0) out = map (set_weight 0) group /\
    assign_linear_weights out window_size decay_rate = Some out.
Proof.
  intros Hnd.
  assert (H : exists out, assign_linear_weights group window_size decay_rate = Some out /\
                          map (set_weight 0) out = map (set_weight 0) group).
  { destruct (hit_frames group) as [|a hits] eqn:Ehits.
    - exists (map (set_weight 0) group). unfold assign_linear_weights.
      rewrite hit_frames_set_weight, Ehits. split; [reflexivity|].
      rewrite map_map. apply map_ext. intros r. reflexivity.
    - destruct (assign_linear_weights_rows group window_size decay_rate Hnd)
        as (out & hit & h & Hout & _ & _ & _ & HF); [rewrite Ehits; discriminate|].
      exists out. split; [exact Hout|].
      clear -HF. induction HF as [|r o l k (n & _ & ->) _ IH]; [reflexivity|].
      cbn [map]. now rewrite IH. }
  destruct H as (out & Hout & Hsame). exists out. split; [exact Hout|].
  split; [exact Hsame|].
  now rewrite (assign_linear_weights_reset out group _ _ Hsame).
Qed.

Lemma assign_linear_weights_keeps_rows_witness :
  exists out,
    assign_linear_weights twenty_weighted CNN1_N_FRAMES_WEIGHTING CNN1_WEIGHT_DECAY = Some out /\
    map (set_weight 0) out = map (set_weight 0) twenty_weighted /\
    assign_linear_weights out CNN1_N_FRAMES_WEIGHTING CNN1_WEIGHT_DECAY = Some out.
Proof.
  apply (assign_linear_weights_keeps_rows twenty_weighted).
  apply (bool_decide_unpack (NoDup _)). vm_compute. exact I.
Defined.

Lemma Qmax_zero_cases (x : Q) :
  ((x <= 0)%Q /\ (Qmax 0 x == 0)%Q) \/ ((0 < x)%Q /\ (Qmax 0 x == x)%Q).
Proof.
  destruct (Q.max_spec 0 x) as [[H E]|[H E]]; [right|left]; now split.
Qed.

Lemma inject_Z_le (a b : Z) : a <= b -> (inject_Z a <= inject_Z b)%Q.
Proof. intros H. now rewrite <- Zle_Qle. Qed.

Lemma inject_Z_pos (a : Z) : 0 < a -> (1 <= inject_Z a)%Q.
Proof.
  intros H. replace 1%Q with (inject_Z 1) by reflexivity. apply inject_Z_le. lia.
Qed.

(** [linear_weight] as a function of the distance: it never grows, and
    it is positive exactly within the window and before the decay
    reaches 1. *)
Lemma linear_weight_shape (window : Z) (decay : Q) (d1 d2 : Z) :
  0 <= window -> (0 <= decay)%Q -> 0 <= d1 <= d2 ->
  (linear_weight window decay d2 <= linear_weight window decay d1)%Q /\
  ((0 < linear_weight window decay d1)%Q <->
   d1 <= window / 2 /\ (inject_Z d1 * decay < 1)%Q).
Proof.
  intros Hwin Hdec [Hd1 Hd12].
  assert (Hhalf : 0 <= window / 2) by (apply Z.div_pos; lia).
  pose proof (inject_Z_le d1 d2 Hd12) as Hq.
  pose proof (inject_Z_le 0 d1 Hd1) as Hq1. change (inject_Z 0) with 0%Q in Hq1.
  unfold linear_weight.
  destruct (Z.eqb_spec d1 0) as [E1|E1]; destruct (Z.eqb_spec d2 0) as [E2|E2]; try lia.
  - subst d1. split; [discriminate|].
    split; [|reflexivity]. intros _. split; [lia|]. change (inject_Z 0) with 0%Q. lra.
  - subst d1. split.
    + destruct (d2 <=? window / 2); [|discriminate].
      destruct (Qmax_zero_cases (1 - inject_Z d2 * decay)) as [[_ ->]|[_ ->]]; [discriminate|].
      nra.
    + split; [|reflexivity]. intros _. split; [lia|]. change (inject_Z 0) with 0%Q. lra.
  - destruct (Z.leb_spec d1 (window / 2)) as [H1|H1];
      destruct (Z.leb_spec d2 (window / 2)) as [H2|H2]; try lia.
    + destruct (Qmax_zero_cases (1 - inject_Z d1 * decay)) as [[L1 ->]|[L1 ->]];
        destruct (Qmax_zero_cases (1 - inject_Z d2 * decay)) as [[L2 ->]|[L2 ->]];
        (split; [try nra; try lra|split; [intros; split; [lia|lra]|intros [_ ?]; lra]]).
    + destruct (Qmax_zero_cases (1 - inject_Z d1 * decay)) as [[L1 ->]|[L1 ->]];
        (split; [lra|split; [intros; split; [lia|lra]|intros [_ ?]; lra]]).
    + split; [lra|]. split; [intros H; lra|intros [? _]; lia].
Qed.

(** Along a video the weight falls with the distance to the canonical
    hit frame, and a frame has a positive weight exactly when it is
    within [window_size // 2] frames of it and nearer than
    [1 / decay_rate] frames. *)
Theorem weights_fall_with_distance (group : list Row) (window_size : Z) (decay_rate : Q) :
  NoDup (map name group) -> 0 <= window_size -> (0 <= decay_rate)%Q ->
  hit_frames group <> [] ->
  exists out hit h,
    assign_linear_weights group window_size decay_rate = Some out /\
    canonical_hit_row group = Some hit /\ frame_number group hit = Some h /\
    (forall i r o n, group !! i = Some r -> out !! i = Some o ->
       frame_number group r = Some n ->
       ((0 < weight o)%Q <->
        Z.abs (n - h) <= window_size / 2 /\ (inject_Z (Z.abs (n - h)) * decay_rate < 1)%Q) /\
       forall j r' o' n', group !! j = Some r' -> out !! j = Some o' ->
         frame_number group r' = Some n' ->
         Z.abs (n - h) <= Z.abs (n' - h) -> (weight o' <= weight o)%Q).
Proof.
  intros Hnd Hwin Hdec Hne.
  destruct (assign_linear_weights_rows group window_size decay_rate Hnd Hne)
    as (out & hit & h & Hout & Hmid & Hhit & Hh & HF).
  exists out, hit, h. split; [exact Hout|]. split; [exact Hmid|]. split; [exact Hh|].
  assert (Hw : forall i r o n, group !! i = Some r -> out !! i = Some o ->
             frame_number group r = Some n ->
             (weight o == linear_weight window_size decay_rate (Z.abs (n - h)))%Q).
  { intros i r o n Hr Ho Hn.
    destruct (Forall2_lookup_lr _ _ _ _ _ _ HF Hr Ho) as (n0 & Hn0 & ->).
    assert (n0 = n) by congruence. subst n0. cbn [weight set_weight].
    apply (row_weight_linear group hit r); try assumption.
    eapply list_elem_of_In, list_elem_of_lookup_2, Hr. }
  intros i r o n Hr Ho Hn. split.
  - rewrite (Hw i r o n Hr Ho Hn).
    apply (linear_weight_shape window_size decay_rate _ (Z.abs (n - h))); try assumption. lia.
  - intros j r' o' n' Hr' Ho' Hn' Hle.
    rewrite (Hw i r o n Hr Ho Hn), (Hw j r' o' n' Hr' Ho' Hn').
    apply (linear_weight_shape window_size decay_rate); try assumption. lia.
Qed.

(** With the configured window 9 and decay 0.3 the frames at distance 4
    are inside the window and still get the weight 0. *)
Lemma weights_fall_with_distance_witness :
  exists out,
    assign_linear_weights twenty_frames CNN1_N_FRAMES_WEIGHTING CNN1_WEIGHT_DECAY = Some out /\
    forall o, out !! 14%nat = Some o -> ~ (0 < weight o)%Q.
Proof.
  destruct (weights_fall_with_distance twenty_frames CNN1_N_FRAMES_WEIGHTING CNN1_WEIGHT_DECAY)
    as (out & hit & h & Hout & Hc & Hh & Hshape).
  - apply (bool_decide_unpack (NoDup _)). vm_compute. exact I.
  - unfold CNN1_N_FRAMES_WEIGHTING. lia.
  - discriminate.
  - discriminate.
  - exists out. split; [exact Hout|]. intros o Ho Hpos.
    assert (Hh10 : h = 10).
    { vm_compute in Hc. injection Hc as <-. vm_compute in Hh. congruence. }
    subst h.
    destruct (twenty_frames !! 14%nat) as [r|] eqn:Er; [|discriminate].
    destruct (Hshape 14%nat r o 14 Er Ho) as [Hsupp _].
    { vm_compute in Er. injection Er as <-. reflexivity. }
    apply Hsupp in Hpos as [_ Hlt]. vm_compute in Hlt. discriminate.
Defined.

(** ** Grouping and sorting *)

Lemma string_compare_refl (s : string) : String.compare s s = Eq.
Proof.
  induction s as [|c s IH]; [reflexivity|].
  cbn. unfold Ascii.compare. now rewrite N.compare_refl.
Qed.

Lemma string_compare_lt_trans (a b c : string) :
  key_order a b -> key_order b c -> key_order a c.
Proof.
  unfold key_order. revert b c.
  induction a as [|x a IH]; intros [|y b] [|z c]; cbn; try discriminate; try reflexivity.
  unfold Ascii.compare.
  destruct (N.compare_spec (N_of_ascii x) (N_of_ascii y)) as [Exy|Lxy|Gxy];
    destruct (N.compare_spec (N_of_ascii y) (N_of_ascii z)) as [Eyz|Lyz|Gyz];
    destruct (N.compare_spec (N_of_ascii x) (N_of_ascii z)) as [Exz|Lxz|Gxz];
    try discriminate; try reflexivity; try lia.
  apply IH.
Qed.

Lemma insert_key_In (k x : string) (ks : list string) :
  In x (insert_key k ks) <-> x = k \/ In x ks.
Proof.
  induction ks as [|h t IH]; cbn; [intuition congruence|].
  destruct (String.compare k h) eqn:E; cbn.
  - apply String.compare_eq_iff in E. subst h. intuition congruence.
  - intuition congruence.
  - rewrite IH. intuition congruence.
Qed.

Lemma insert_key_sorted (k : string) (ks : list string) :
  StronglySorted key_order ks -> StronglySorted key_order (insert_key k ks).
Proof.
  induction ks as [|h t IH]; intros Hs; cbn.
  - constructor; constructor.
  - apply StronglySorted_inv in Hs as [Ht Hh].
    destruct (String.compare k h) eqn:E.
    + now constructor.
    + constructor; [now constructor|]. constructor; [exact E|].
      eapply Forall_impl; [exact Hh|]. intros x Hx.
      eapply string_compare_lt_trans; [exact E|exact Hx].
    + constructor; [now apply IH|].
      apply Forall_forall. intros x Hx. apply list_elem_of_In, insert_key_In in Hx as [->|Hx].
      * unfold key_order. rewrite String.compare_antisym, E. reflexivity.
      * rewrite Forall_forall in Hh. apply Hh. now apply list_elem_of_In.
Qed.

Lemma group_keys_sorted (df : list Row) : StronglySorted key_order (group_keys df).
Proof.
  unfold group_keys. induction (map video_id df) as [|k ks IH]; cbn; [constructor|].
  now apply insert_key_sorted.
Qed.

Lemma group_keys_In (df : list Row) (k : string) :
  In k (group_keys df) <-> exists r, In r df /\ video_id r = k.
Proof.
  unfold group_keys. induction df as [|r df IH]; cbn.
  - split; [tauto|]. intros (r & [] & _).
  - rewrite insert_key_In, IH. split.
    + intros [->|(r' & Hr' & E)]; [exists r; tauto|exists r'; tauto].
    + intros (r' & [<-|Hr'] & E); [now left|right; now exists r'].
Qed.

Lemma sorted_keys_NoDup (ks : list string) : StronglySorted key_order ks -> NoDup ks.
Proof.
  induction 1 as [|k ks Hs IH Hk]; constructor; [|exact IH].
  intros Hin. rewrite Forall_forall in Hk. specialize (Hk k Hin).
  unfold key_order in Hk. rewrite string_compare_refl in Hk. discriminate.
Qed.

(** A new first row goes to the group of its key and to no other. *)
Lemma groups_cons (r : Row) (l : list Row) (keys : list string) :
  NoDup keys ->
  (In (video_id r) keys ->
   Permutation
     (concat (map (fun k => List.filter (fun r => String.eqb (video_id r) k) (r :: l)) keys))
     (r :: concat (map (fun k => List.filter (fun r => String.eqb (video_id r) k) l) keys))) /\
  (~ In (video_id r) keys ->
   concat (map (fun k => List.filter (fun r => String.eqb (video_id r) k) (r :: l)) keys)
   = concat (map (fun k => List.filter (fun r => String.eqb (video_id r) k) l) keys)).
Proof.
  induction keys as [|k ks IH]; intros Hnd.
  - split; [intros []|reflexivity].
  - apply NoDup_cons in Hnd as [Hk Hnd]. destruct (IH Hnd) as [IHin IHout].
    cbn [map concat].
    assert (Hhead : List.filter (fun r => String.eqb (video_id r) k) (r :: l)
                    = if String.eqb (video_id r) k
                      then r :: List.filter (fun r => String.eqb (video_id r) k) l
                      else List.filter (fun r => String.eqb (video_id r) k) l) by reflexivity.
    rewrite Hhead. clear Hhead.
    destruct (String.eqb_spec (video_id r) k) as [E|E].
    + split; [|intros Hn; exfalso; apply Hn; now left].
      intros _. rewrite IHout; [reflexivity|].
      rewrite E. intros Hin. apply Hk. now apply list_elem_of_In.
    + split.
      * intros [Hin|Hin]; [congruence|].
        rewrite (IHin Hin). symmetry. apply Permutation_middle.
      * intros Hn. rewrite IHout; [reflexivity|]. intros Hin. apply Hn. now right.
Qed.

(** [groupby('video_id')] is a partition of the table: the keys come in
    strictly increasing order, each group holds the rows of its key in
    table order and is not empty, and the groups together hold every row
    of the table once. *)
Theorem groupby_video_id_partition (df : list Row) :
  StronglySorted key_order (map fst (groupby_video_id df)) /\
  Forall (fun vg => vg.2 <> [] /\
                    vg.2 = List.filter (fun r => String.eqb (video_id r) vg.1) df)
         (groupby_video_id df) /\
  Permutation (concat (map snd (groupby_video_id df))) df.
Proof.
  unfold groupby_video_id. rewrite !map_map. cbn [fst snd]. rewrite map_id.
  split; [apply group_keys_sorted|]. split.
  - apply Forall_forall. intros vg Hvg.
    apply list_elem_of_In, in_map_iff in Hvg as (k & <- & Hk). cbn [fst snd].
    split; [|reflexivity].
    apply group_keys_In in Hk as (r & Hr & E).
    intros Hnil.
    assert (Hin : In r (List.filter (fun r => String.eqb (video_id r) k) df)).
    { apply List.filter_In. split; [exact Hr|]. now apply String.eqb_eq. }
    rewrite Hnil in Hin. destruct Hin.
  - assert (Hgen : forall l, (forall r, In r l -> In (video_id r) (group_keys df)) ->
              Permutation
                (concat (map (fun k => List.filter (fun r => String.eqb (video_id r) k) l)
                           (group_keys df))) l).
    { induction l as [|r l IH]; intros Hall.
      - clear Hall. induction (group_keys df) as [|k ks IHk]; [reflexivity|exact IHk].
      - destruct (groups_cons r l (group_keys df)
                    (sorted_keys_NoDup _ (group_keys_sorted df))) as [Hin _].
        rewrite Hin by (apply Hall; now left).
        constructor. apply IH. intros r' Hr'. apply Hall. now right. }
    apply Hgen. intros r Hr. apply group_keys_In. now exists r.
Qed.

Lemma insert_by_num_sorted (x : Z * Row) (l : list (Z * Row)) :
  StronglySorted (fun a b => fst a <= fst b) l ->
  StronglySorted (fun a b => fst a <= fst b) (insert_by_num x l).
Proof.
  induction l as [|y t IH]; intros Hs; cbn.
  - constructor; constructor.
  - apply StronglySorted_inv in Hs as [Ht Hy].
    destruct (Z.ltb_spec (fst x) (fst y)) as [Hlt|Hge].
    + constructor; [now constructor|]. constructor; [lia|].
      eapply Forall_impl; [exact Hy|]. cbn. intros z Hz. lia.
    + constructor; [now apply IH|].
      apply Forall_forall. intros z Hz.
      apply list_elem_of_In in Hz.
      eapply Permutation_in in Hz; [|apply insert_by_num_perm].
      destruct Hz as [<-|Hz]; [exact Hge|].
      rewrite Forall_forall in Hy. apply Hy. now apply list_elem_of_In.
Qed.

Lemma sort_values_sorted (l : list (Z * Row)) :
  StronglySorted (fun a b => fst a <= fst b) (sort_values l).
Proof.
  induction l as [|x l IH]; cbn; [constructor|]. now apply insert_by_num_sorted.
Qed.



(** ** Frame names *)

Lemma append_cons (c : ascii) (s r : string) : String c s ++ r = String c (s ++ r).
Proof. reflexivity. Qed.

Lemma append_assoc (a b c : string) : (a ++ b) ++ c = a ++ b ++ c.
Proof.
  induction a as [|x a IH]; [reflexivity|]. rewrite !append_cons. now rewrite IH.
Qed.

Lemma digits_from_digit (acc : Z) (c : ascii) (t : string) :
  Py.is_digit c = true ->
  Py.digits_from acc (String c t) = Py.digits_from (10 * acc + Py.digit_val c) t.
Proof. intros H. simpl. now rewrite H. Qed.

Lemma digits_from_stop (acc : Z) (s : string) :
  starts_without_digit s -> Py.digits_from acc s = acc.
Proof.
  destruct s as [|c s]; [reflexivity|]. intros H. simpl in *. now rewrite H.
Qed.

(** Reading the decimal writing of a number gives the number back. *)
Lemma digits_from_uint (d : Decimal.uint) (acc : nat) (rest : string) :
  starts_without_digit rest ->
  Py.digits_from (Z.of_nat acc) (NilEmpty.string_of_uint d ++ rest)
  = Z.of_nat (Nat.of_uint_acc d acc).
Proof.
  intros Hrest. revert acc.
  induction d; intros acc;
    cbn -[Z.of_nat Z.mul Z.add Nat.tail_mul Py.is_digit Py.digit_val];
    [now apply digits_from_stop|..];
    rewrite append_cons, digits_from_digit by reflexivity;
    rewrite <- IHd; f_equal; rewrite Nat.tail_mul_spec;
    match goal with |- context [Py.digit_val ?c] =>
      let v := eval vm_compute in (Py.digit_val c) in change (Py.digit_val c) with v end;
    lia.
Qed.

Lemma uint_string_no_slash (d : Decimal.uint) (rest : string) :
  Os.no_slash rest = true -> Os.no_slash (NilEmpty.string_of_uint d ++ rest) = true.
Proof.
  intros H. induction d; simpl; assumption.
Qed.

Lemma uint_string_head (d : Decimal.uint) (rest : string) :
  d <> Decimal.Nil ->
  exists c t, NilEmpty.string_of_uint d ++ rest = String c t /\ Py.is_digit c = true.
Proof.
  intros Hd. destruct d; [congruence|..]; simpl; eexists _, _; split; reflexivity.
Qed.

Lemma to_uint_nonnil (k : nat) : Nat.to_uint k <> Decimal.Nil.
Proof.
  rewrite <- (DecimalNat.Unsigned.of_to k) at 1.
  rewrite DecimalNat.Unsigned.to_of. apply DecimalFacts.unorm_nonnil.
Qed.

Lemma zeros_succ (n : nat) :
  String.concat EmptyString (repeat "0" (S n))
  = String "0" (String.concat EmptyString (repeat "0" n)).
Proof. destruct n; reflexivity. Qed.

(** The zero padding changes neither the number read nor its being
    read. *)
Lemma zeros_then_digits (n : nat) (body : string) :
  (exists c t, body = String c t /\ Py.is_digit c = true) ->
  Os.no_slash body = true ->
  let s := String.concat EmptyString (repeat "0" n) ++ body in
  Py.leading_int s = Some (Py.digits_from 0 body) /\ Os.no_slash s = true.
Proof.
  intros (c & t & -> & Hc) Hns. cbv zeta. induction n as [|n IH].
  - cbn [repeat String.concat]. change (EmptyString ++ String c t) with (String c t).
    split; [|exact Hns]. unfold Py.leading_int. now rewrite Hc.
  - rewrite zeros_succ, append_cons. destruct IH as [IH1 IH2]. split.
    + unfold Py.leading_int. change (Py.is_digit "0") with true. cbv iota.
      rewrite digits_from_digit by reflexivity.
      change (10 * 0 + Py.digit_val "0") with 0.
      unfold Py.leading_int in IH1.
      destruct (String.concat EmptyString (repeat "0" n) ++ String c t) as [|c' t'] eqn:E;
        [discriminate|].
      destruct (Py.is_digit c') eqn:Ec; [exact IH1|discriminate].
    + simpl. exact IH2.
Qed.

(** The regular expression [frame_(\d+)] reads in the name of an
    extracted frame the count under which it was written. *)
Lemma frame_file_name_number (k : nat) :
  Py.search_frame_number (frame_file_name k) = Some (Z.of_nat k) /\
  Os.no_slash (frame_file_name k) = true /\
  Os.starts_with_slash (frame_file_name k) = false.
Proof.
  unfold frame_file_name. cbv zeta.
  set (d := Nat.to_uint k).
  destruct (zeros_then_digits (4 - String.length (NilEmpty.string_of_uint d))
              (NilEmpty.string_of_uint d ++ ".jpg")) as [Hlead Hns].
  { apply uint_string_head, to_uint_nonnil. }
  { now apply uint_string_no_slash. }
  assert (Hval : Py.digits_from 0 (NilEmpty.string_of_uint d ++ ".jpg") = Z.of_nat k).
  { pose proof (digits_from_uint d 0 ".jpg" ltac:(reflexivity)) as Hd.
    change (Z.of_nat 0) with 0 in Hd. rewrite Hd.
    change (Nat.of_uint_acc d 0) with (Nat.of_uint d).
    unfold d. now rewrite DecimalNat.Unsigned.of_to. }
  rewrite Hval in Hlead.
  set (body := String.concat EmptyString _ ++ _ ++ ".jpg") in *.
  split; [|split; [|reflexivity]].
  - change ("frame_" ++ body)
      with (String "f" (String "r" (String "a" (String "m" (String "e" (String "_" body)))))).
    cbn -[Py.leading_int]. now rewrite Hlead.
  - change ("frame_" ++ body)
      with (String "f" (String "r" (String "a" (String "m" (String "e" (String "_" body)))))).
    simpl. exact Hns.
Qed.

Lemma basename_aux_no_slash (acc s : string) :
  Os.no_slash s = true -> Py.basename_aux acc s = acc.
Proof.
  revert acc. induction s as [|c s IH]; intros acc H; [reflexivity|].
  simpl in *. apply andb_true_iff in H as [Hc Hs].
  apply negb_true_iff in Hc. rewrite Hc. now apply IH.
Qed.

Lemma basename_aux_after_slash (acc d s : string) :
  Os.no_slash s = true -> Py.basename_aux acc (d ++ String "/" s) = s.
Proof.
  intros Hs. revert acc. induction d as [|c d IH]; intros acc.
  - simpl. now apply basename_aux_no_slash.
  - rewrite append_cons. simpl. destruct (Ascii.eqb c "/"); apply IH.
Qed.

Lemma ends_with_slash_split (d : string) :
  Os.ends_with_slash d = true -> exists d', d = d' ++ "/".
Proof.
  induction d as [|c d IH]; [discriminate|].
  simpl. destruct d as [|c' d'].
  - intros H. apply Ascii.eqb_eq in H. subst c. now exists EmptyString.
  - intros H. destruct (IH H) as [d0 E]. exists (String c d0). now rewrite append_cons, <- E.
Qed.

(** [basename] undoes [os.path.join] on a file name. *)
Lemma basename_path_join (dir file : string) :
  Os.no_slash file = true -> Os.starts_with_slash file = false ->
  Py.basename (Os.path_join dir file) = file.
Proof.
  intros Hns Hst. unfold Os.path_join, Py.basename. rewrite Hst.
  destruct dir as [|c dir]; [now apply basename_aux_no_slash|].
  destruct (Os.ends_with_slash (String c dir)) eqn:E.
  - destruct (ends_with_slash_split _ E) as [d' ->].
    rewrite append_assoc. change ("/" ++ file) with (String "/" file).
    now apply basename_aux_after_slash.
  - change ("/" ++ file) with (String "/" file). now apply basename_aux_after_slash.
Qed.

Lemma map_imap_seq {A B C} (g : B -> C) (f : nat -> A -> B) (h : nat -> C) (l : list A) :
  (forall i x, g (f i x) = h i) -> map g (imap f l) = map h (seq 0 (length l)).
Proof.
  revert f h. induction l as [|x l IH]; intros f h H; [reflexivity|].
  rewrite imap_cons. cbn [map length seq]. rewrite H. f_equal.
  rewrite <- seq_shift, map_map. apply IH. intros i y. apply H.
Qed.

Lemma imap_snd {A B} (f : nat -> B) (l : list A) :
  map snd (imap (fun i x => (f i, x)) l) = l.
Proof.
  revert f. induction l as [|x l IH]; intros f; [reflexivity|].
  rewrite imap_cons. cbn [map snd]. f_equal. apply (IH (fun i => f (S i))).
Qed.

(** Extraction and parsing agree: the [k]-th frame of a video is written
    under a name in which the weight assignment and the sequence builder
    read the number [k], so extracted frames never fall back to their
    position and never count as a parse failure; and no two frames of a
    video share a file. *)
Theorem extracted_frames_numbered {Frame : Type} (video : list Frame) (output_dir : string) :
  map (fun pf => Py.search_frame_number (Py.basename pf.1)) (extract_frames video output_dir)
    = map (fun k => Some (Z.of_nat k)) (seq 0 (length video)) /\
  map snd (extract_frames video output_dir) = video /\
  NoDup (map fst (extract_frames video output_dir)).
Proof.
  assert (Hnum : map (fun pf => Py.search_frame_number (Py.basename pf.1))
                   (extract_frames video output_dir)
                 = map (fun k => Some (Z.of_nat k)) (seq 0 (length video))).
  { unfold extract_frames. apply map_imap_seq. intros i x. cbn [fst].
    destruct (frame_file_name_number i) as (Hn & Hns & Hst).
    now rewrite basename_path_join. }
  split; [exact Hnum|]. split.
  - apply imap_snd.
  - apply (NoDup_fmap_1 (fun p => Py.search_frame_number (Py.basename p))).
    rewrite <- list_fmap_compose.
    change (NoDup (map (fun pf => Py.search_frame_number (Py.basename pf.1))
                     (extract_frames video output_dir))).
    rewrite Hnum. apply NoDup_fmap_2; [|apply NoDup_seq].
    intros a b E. injection E as E. lia.
Qed.

(** ** Sequences *)

(** Whatever the requested length, the window has [n // 2] frames on
    each side of the hit frame, which sits in the middle also at the
    borders of the video, and holds frames of the video only. *)
Theorem extract_sequence_centred (sorted_paths : list string) (hit_idx n : Z) :
  0 <= hit_idx < Z.of_nat (length sorted_paths) -> 0 <= n ->
  exists seq_paths,
    extract_sequence sorted_paths hit_idx n = Some seq_paths /\
    Z.of_nat (length seq_paths) = 2 * (n / 2) + 1 /\
    nth_error seq_paths (Z.to_nat (n / 2)) = nth_error sorted_paths (Z.to_nat hit_idx) /\
    (forall p, In p seq_paths -> In p sorted_paths).
Proof.
  intros Hh Hn.
  assert (Hne : sorted_paths <> []) by (destruct sorted_paths; [simpl in Hh; lia|discriminate]).
  assert (Hhalf : 0 <= n / 2) by (apply Z.div_pos; lia).
  destruct (extract_sequence_Some sorted_paths hit_idx n Hne) as (out & Hout & Hl & Hnth).
  exists out. split; [exact Hout|]. split; [lia|]. split.
  - rewrite Hnth by lia. f_equal. rewrite Z2Nat.id by lia. lia.
  - intros p Hp. apply In_nth_error in Hp as [k Hk].
    assert (Hlt : (k < length out)%nat) by (apply nth_error_Some; congruence).
    rewrite (Hnth k Hlt) in Hk. now apply nth_error_In in Hk.
Qed.

Lemma extract_sequence_centred_witness :
  exists seq_paths,
    extract_sequence (map frame_file_name (seq 0 20)) 0 8 = Some seq_paths /\
    Z.of_nat (length seq_paths) = 9 /\
    nth_error seq_paths 4 = Some (frame_file_name 0).
Proof.
  destruct (extract_sequence_centred (map frame_file_name (seq 0 20)) 0 8)
    as (out & Hout & Hl & Hmid & _).
  - simpl. lia.
  - lia.
  - exists out. split; [exact Hout|]. split; [exact Hl|exact Hmid].
Defined.

(** What a successful search of the hit frame has found. *)
Lemma find_hit_found (group : list Row) (sorted_paths : list string) (hit_idx_sorted : Z) :
  find_hit group = HitFound sorted_paths hit_idx_sorted ->
  exists group_sorted hit_row,
    sort_group group = Some group_sorted /\ sorted_paths = map frame_path group_sorted /\
    Permutation group_sorted group /\
    In hit_row group /\ (weight hit_row == 1)%Q /\
    0 <= hit_idx_sorted < Z.of_nat (length sorted_paths) /\
    nth_error sorted_paths (Z.to_nat hit_idx_sorted) = Some (frame_path hit_row).
Proof.
  unfold find_hit. intros H.
  pose proof (sort_group_cases group) as Hcases.
  destruct (sort_group group) as [sorted|] eqn:Es; [|discriminate].
  destruct (unparsable group); [discriminate|].
  destruct Hcases as (sorted' & [= <-] & Hperm).
  cbv zeta in H.
  destruct (weight_one_rows sorted) as [|a l] eqn:Ew; [discriminate|].
  destruct (middle_row (a :: l)) as [hit_row|] eqn:Em; [|discriminate].
  destruct (Py.list_index String.eqb (frame_path hit_row) (map frame_path sorted))
    as [k|] eqn:Ek; [|discriminate].
  injection H as <- <-.
  assert (Hin : In hit_row (weight_one_rows sorted)) by (rewrite Ew; now apply middle_row_In).
  unfold weight_one_rows in Hin. apply List.filter_In in Hin as [Hin Hw].
  destruct (list_index_spec _ _ _ _ Ek) as (Hrange & (y & Hy & Hxy) & _).
  apply String.eqb_eq in Hxy. subst y.
  exists sorted, hit_row. split; [reflexivity|]. split; [reflexivity|].
  split; [exact Hperm|].
  split; [eapply Permutation_in; eassumption|].
  split; [now apply Qeq_bool_iff|]. split; assumption.
Qed.

(** The sequence that one turn of the loop appends belongs to the video
    of that turn: it is centred on a frame of weight 1 of the video and
    holds frames of the video only. *)
Lemma process_video_sequence (landing : gmap string (Q * Q)) (n : Z)
    (st st' : LoopState) (vg : string * list Row) :
  process_video landing n st vg = Some st' ->
  sequences_for_dataset st' = sequences_for_dataset st \/
  exists q hit_row,
    sequences_for_dataset st' = (sequences_for_dataset st ++ [q])%list /\
    seq_video_id q = vg.1 /\
    In hit_row vg.2 /\ (weight hit_row == 1)%Q /\
    nth_error (sequence_paths q) (Z.to_nat (n / 2)) = Some (frame_path hit_row) /\
    (forall p, In p (sequence_paths q) -> exists r, In r vg.2 /\ frame_path r = p).
Proof.
  destruct vg as [v g], st as [seqs nh nl np ns]. unfold process_video. cbn [fst snd].
  destruct (find_hit g) as [paths k| |] eqn:Ef;
    try (intros [= <-]; now left).
  destruct (landing !! Py.basename v) as [t|]; [|intros [= <-]; now left].
  destruct (find_hit_found g paths k Ef)
    as (sorted & hit_row & Hsort & -> & Hperm & Hin & Hw & Hrange & Hnth).
  destruct (extract_sequence (map frame_path sorted) k n) as [sp|] eqn:Ex; [|discriminate].
  cbn [mbind option_bind].
  destruct (Z.of_nat (length sp) =? n) eqn:El; intros [= <-]; [|now left].
  right. exists (mkSequence sp t v (Py.basename v)), hit_row. cbn.
  apply Z.eqb_eq in El.
  destruct (extract_sequence_centred (map frame_path sorted) k n Hrange ltac:(lia))
    as (sp' & Hsp' & _ & Hmid & Hsub).
  rewrite Ex in Hsp'. injection Hsp' as <-.
  repeat split; try assumption.
  - now rewrite Hmid.
  - intros p Hp. apply Hsub, in_map_iff in Hp as (r & <- & Hr).
    exists r. split; [|reflexivity]. eapply Permutation_in; eassumption.
Qed.

Lemma window_length_fits (n : Z) : window_length n = n <-> Z.odd n = true /\ 0 < n.
Proof.
  unfold window_length.
  pose proof (Z.div_mod n 2 ltac:(lia)) as Hdm.
  pose proof (Z.mod_pos_bound n 2 ltac:(lia)) as Hmb.
  split.
  - intros H. split; [|lia]. apply Z.odd_spec. exists (n / 2). lia.
  - intros [Hodd Hpos]. apply Z.odd_spec in Hodd as [m Hm]. lia.
Qed.

Lemma category_success (landing : gmap string (Q * Q)) (n : Z) (vg : string * list Row) :
  category landing n vg = Success -> Z.odd n = true /\ 0 < n.
Proof.
  unfold category.
  destruct (unparsable vg.2); [discriminate|].
  destruct (negb (has_hit_frame vg.2)); [discriminate|].
  destruct (landing !! Py.basename vg.1); [|discriminate].
  destruct (Z.eqb_spec (window_length n) n) as [E|E]; [|discriminate].
  intros _. now apply window_length_fits.
Qed.

Lemma category_short (landing : gmap string (Q * Q)) (n : Z) (vg : string * list Row) :
  category landing n vg = Short -> ~ (Z.odd n = true /\ 0 < n).
Proof.
  unfold category.
  destruct (unparsable vg.2); [discriminate|].
  destruct (negb (has_hit_frame vg.2)); [discriminate|].
  destruct (landing !! Py.basename vg.1); [|discriminate].
  destruct (Z.eqb_spec (window_length n) n) as [E|E]; [discriminate|].
  intros _ H. now apply window_length_fits in H.
Qed.

Lemma filter_none {A} (p : A -> bool) (l : list A) :
  (forall x, In x l -> p x = false) -> List.filter p l = [].
Proof.
  induction l as [|a l IH]; intros H; [reflexivity|].
  cbn. rewrite (H a (or_introl eq_refl)). apply IH. intros x Hx. apply H. now right.
Qed.

(** What a call of [get_sequences] amounts to: nothing when a table is
    empty, else the list and the tallies that the loop leaves. *)
Lemma get_sequences_shape (df : list Row) (landing : gmap string (Q * Q)) (n : Z) :
  (get_sequences df landing n = Some (mkOutput [] None) /\ (df = [] \/ landing = ∅)) \/
  exists st,
    fold_left (fun acc vg => st ← acc; process_video landing n st vg)
      (groupby_video_id df) (Some initial_state) = Some st /\
    get_sequences df landing n
      = Some (mkOutput (sequences_for_dataset st)
                (Some (mkSummary (length (sequences_for_dataset st)) (skipped_no_hit st)
                         (skipped_no_landing st) (skipped_parse st) (skipped_short st)))).
Proof.
  unfold get_sequences.
  destruct (decide (df = [])) as [Hdf|Hdf];
    [left; rewrite (bool_decide_eq_true_2 _ Hdf); split; [reflexivity|now left]|].
  destruct (decide (landing = ∅)) as [Hl|Hl];
    [left; rewrite (bool_decide_eq_true_2 _ Hl), orb_true_r; split; [reflexivity|now right]|].
  right. rewrite (bool_decide_eq_false_2 _ Hdf), (bool_decide_eq_false_2 _ Hl). cbn [orb].
  destruct (loop_tally landing n (groupby_video_id df) initial_state) as (st & Hfold & _).
  exists st. split; [exact Hfold|]. now rewrite Hfold.
Qed.

(** Sequences are produced for an odd positive length only: with an
    even (or non-positive) [n_frames_sequence], of which the function
    merely warns, every video is skipped; with an odd positive one no
    video is ever counted as short. *)
Theorem get_sequences_needs_odd_length (df : list Row) (landing : gmap string (Q * Q)) (n : Z) :
  exists out,
    get_sequences df landing n = Some out /\
    (returned out <> [] -> Z.odd n = true /\ 0 < n) /\
    (Z.odd n = true -> 0 < n -> forall s, summary out = Some s -> short_skips s = 0%nat).
Proof.
  destruct (get_sequences_shape df landing n) as [[Hout _]|(st & Hfold & Hout)].
  - eexists. split; [exact Hout|]. split; [intros H; now elim H|]. intros _ _ s [=].
  - eexists. split; [exact Hout|]. cbn [returned summary].
    destruct (loop_tally landing n (groupby_video_id df) initial_state)
      as (st' & Hfold' & Htally & new & Hnew & Hids & _).
    rewrite Hfold in Hfold'. injection Hfold' as <-.
    cbn [initial_state sequences_for_dataset app] in Hnew. split.
    + intros Hne. rewrite Hnew in Hne.
      destruct (List.filter (fun vg => bool_decide (category landing n vg = Success))
                  (groupby_video_id df)) as [|vg l] eqn:E.
      * destruct new; [congruence|discriminate].
      * assert (Hin : In vg (List.filter
                               (fun vg => bool_decide (category landing n vg = Success))
                               (groupby_video_id df))) by (rewrite E; now left).
        apply List.filter_In in Hin as [_ Hc]. apply bool_decide_eq_true_1 in Hc.
        exact (category_success landing n vg Hc).
    + intros Hodd Hpos s [= <-]. cbn [short_skips].
      pose proof (Htally Short) as HS. cbn in HS. rewrite HS.
      unfold count_category. rewrite filter_none; [reflexivity|].
      intros vg _. apply bool_decide_eq_false_2. intros Hc.
      now apply (category_short landing n vg Hc).
Qed.

Lemma get_sequences_needs_odd_length_witness :
  exists out,
    get_sequences twenty_weighted one_landing 8 = Some out /\ returned out = [].
Proof.
  destruct (get_sequences_needs_odd_length twenty_weighted one_landing 8)
    as (out & Hout & Hodd & _).
  exists out. split; [exact Hout|].
  destruct (returned out) as [|q l]; [reflexivity|].
  destruct Hodd as [Ho _]; [discriminate|discriminate].
Defined.

Lemma fold_process_None (landing : gmap string (Q * Q)) (n : Z)
    (videos : list (string * list Row)) :
  fold_left (fun acc vg => st ← acc; process_video landing n st vg) videos None = None.
Proof.
  induction videos as [|vg vs IH]; [reflexivity|exact IH].
Qed.

Lemma loop_sequences_belong (landing : gmap string (Q * Q)) (n : Z)
    (videos : list (string * list Row)) (st st' : LoopState) :
  fold_left (fun acc vg => st ← acc; process_video landing n st vg) videos (Some st)
    = Some st' ->
  exists new,
    sequences_for_dataset st' = (sequences_for_dataset st ++ new)%list /\
    Forall (fun q => exists vg hit_row,
                In vg videos /\ seq_video_id q = vg.1 /\
                In hit_row vg.2 /\ (weight hit_row == 1)%Q /\
                nth_error (sequence_paths q) (Z.to_nat (n / 2)) = Some (frame_path hit_row) /\
                (forall p, In p (sequence_paths q) ->
                           exists r, In r vg.2 /\ frame_path r = p)) new.
Proof.
  revert st. induction videos as [|vg vs IH]; intros st Hfold.
  - injection Hfold as <-. exists []. split; [now rewrite app_nil_r|constructor].
  - cbn [fold_left mbind option_bind] in Hfold.
    destruct (process_video landing n st vg) as [st1|] eqn:E1;
      [|rewrite fold_process_None in Hfold; discriminate].
    destruct (IH st1 Hfold) as (new & Hnew & HF).
    assert (HF' : Forall (fun q => exists vg0 hit_row,
                In vg0 (vg :: vs) /\ seq_video_id q = vg0.1 /\
                In hit_row vg0.2 /\ (weight hit_row == 1)%Q /\
                nth_error (sequence_paths q) (Z.to_nat (n / 2)) = Some (frame_path hit_row) /\
                (forall p, In p (sequence_paths q) ->
                           exists r, In r vg0.2 /\ frame_path r = p)) new).
    { eapply Forall_impl; [exact HF|]. intros q (vg0 & h & Hin & Hrest).
      exists vg0, h. split; [now right|exact Hrest]. }
    destruct (process_video_sequence landing n st st1 vg E1)
      as [Hsame|(q & hit_row & Happ & Hq)].
    + exists new. rewrite Hnew, Hsame. split; [reflexivity|exact HF'].
    + exists (q :: new). rewrite Hnew, Happ, <- app_assoc. split; [reflexivity|].
      constructor; [|exact HF']. exists vg, hit_row. split; [now left|exact Hq].
Qed.

(** Every returned sequence belongs to one video of the table: it is
    centred on a frame of that video whose weight is 1 and all its
    frames are frames of that video. *)
Theorem returned_sequences_belong (df : list Row) (landing : gmap string (Q * Q)) (n : Z)
    (out : Output) :
  get_sequences df landing n = Some out ->
  Forall (fun q => exists hit_row,
              In hit_row df /\ video_id hit_row = seq_video_id q /\
              (weight hit_row == 1)%Q /\
              nth_error (sequence_paths q) (Z.to_nat (n / 2)) = Some (frame_path hit_row) /\
              (forall p, In p (sequence_paths q) ->
                 exists r, In r df /\ video_id r = seq_video_id q /\ frame_path r = p))
         (returned out).
Proof.
  intros Hget.
  destruct (get_sequences_shape df landing n) as [[Hout _]|(st & Hfold & Hout)];
    rewrite Hout in Hget; injection Hget as <-; cbn [returned]; [constructor|].
  destruct (loop_sequences_belong landing n _ _ _ Hfold) as (new & Hnew & HF).
  cbn [initial_state sequences_for_dataset app] in Hnew. rewrite Hnew.
  eapply Forall_impl; [exact HF|].
  intros q (vg & hit_row & Hvg & Hid & Hin & Hw & Hmid & Hsub).
  unfold groupby_video_id in Hvg. apply in_map_iff in Hvg as (k & <- & _).
  cbn [fst snd] in *.
  apply List.filter_In in Hin as [Hin Hk]. apply String.eqb_eq in Hk.
  exists hit_row. split; [exact Hin|]. split; [congruence|]. split; [exact Hw|].
  split; [exact Hmid|].
  intros p Hp. destruct (Hsub p Hp) as (r & Hr & Hpath).
  apply List.filter_In in Hr as [Hr Hrk]. apply String.eqb_eq in Hrk.
  exists r. split; [exact Hr|]. split; [congruence|exact Hpath].
Qed.

Lemma returned_sequences_belong_witness :
  exists out,
    get_sequences twenty_weighted one_landing CNN2_N_FRAMES_SEQUENCE = Some out /\
    Forall (fun q => exists hit_row,
                In hit_row twenty_weighted /\ video_id hit_row = seq_video_id q /\
                (weight hit_row == 1)%Q) (returned out).
Proof.
  destruct (get_sequences twenty_weighted one_landing CNN2_N_FRAMES_SEQUENCE)
    as [out|] eqn:E; [|vm_compute in E; discriminate].
  exists out. split; [reflexivity|].
  eapply Forall_impl; [exact (returned_sequences_belong _ _ _ _ E)|].
  intros q (h & H1 & H2 & H3 & _). exists h. repeat split; assumption.
Defined.

(** ** Balancing and splitting *)

Lemma sampled_non_hit_spec (sample : list Row -> nat -> Z -> list Row)
    (df : list Row) (ratio : Q) :
  sample_without_replacement sample ->
  Z.of_nat (length (sampled_non_hit sample df ratio)) = Z.max 0 (sample_size df ratio) /\
  exists rest, Permutation (sampled_non_hit sample df ratio ++ rest) (non_hit_frames df).
Proof.
  intros Hsample. unfold sampled_non_hit.
  assert (Hle : sample_size df ratio <= Z.of_nat (length (non_hit_frames df)))
    by (unfold sample_size; lia).
  destruct (Z.ltb_spec 0 (sample_size df ratio)) as [Hpos|Hneg].
  - destruct (Hsample (non_hit_frames df) (Z.to_nat (sample_size df ratio)) SEED)
      as [Hlen Hperm]; [lia|].
    split; [rewrite Hlen; lia|exact Hperm].
  - split; [simpl; lia|]. exists (non_hit_frames df). reflexivity.
Qed.

(** [int] never rounds a non-negative float up. *)
Lemma int_of_float_le (x : Q) : (0 <= x)%Q -> (inject_Z (Py.int_of_float x) <= x)%Q.
Proof.
  intros Hx. unfold Py.int_of_float. destruct x as [a b]. cbn [Qnum Qden].
  assert (Ha : 0 <= a) by (unfold Qle in Hx; cbn in Hx; lia).
  unfold Qle. cbn [Qnum Qden inject_Z]. rewrite Z.mul_1_r.
  rewrite Z.quot_div_nonneg by lia. rewrite Z.mul_comm. apply Z.mul_div_le. lia.
Qed.

Lemma int_of_float_nonneg (x : Q) : (0 <= x)%Q -> 0 <= Py.int_of_float x.
Proof.
  intros Hx. unfold Py.int_of_float. destruct x as [a b]. cbn [Qnum Qden].
  apply Z.quot_pos; [|lia]. unfold Qle in Hx. cbn in Hx. lia.
Qed.

Lemma map_imap_same {A B C} (g : B -> C) (g' : A -> C) (f : nat -> A -> B) (l : list A) :
  (forall i x, g (f i x) = g' x) -> map g (imap f l) = map g' l.
Proof.
  revert f. induction l as [|x l IH]; intros f H; [reflexivity|].
  rewrite imap_cons. cbn [map]. rewrite H. f_equal. apply IH. intros i y. apply H.
Qed.

(** The balanced set holds every frame of positive weight once, next to
    the sampled frames of weight zero, relabelled from 0; no frame in
    it has a negative weight. *)
Theorem balanced_set_content (sample : list Row -> nat -> Z -> list Row)
    (shuffle : list Row -> Z -> list Row) (df_weighted : list Row) (balance_ratio : Q) :
  sample_without_replacement sample -> shuffle_permutes shuffle ->
  Permutation
    (map (fun r => (frame_path r, weight r))
       (balance_data sample shuffle df_weighted balance_ratio))
    (map (fun r => (frame_path r, weight r))
       (hit_frames_weighted df_weighted ++ sampled_non_hit sample df_weighted balance_ratio)) /\
  map name (balance_data sample shuffle df_weighted balance_ratio)
    = map Z.of_nat (seq 0 (length (balance_data sample shuffle df_weighted balance_ratio))) /\
  Forall (fun r => (0 <= weight r)%Q) (balance_data sample shuffle df_weighted balance_ratio).
Proof.
  intros Hsample Hshuffle. unfold balance_data, reset_index.
  set (both := (hit_frames_weighted df_weighted
                ++ sampled_non_hit sample df_weighted balance_ratio)%list).
  assert (Hcontent : forall (C : Type) (g : Row -> C),
             (forall i r, g (mkRow (Z.of_nat i) (frame_path r) (video_id r)
                               (is_hit_frame r) (weight r)) = g r) ->
             Permutation
               (map g (imap (fun i r => mkRow (Z.of_nat i) (frame_path r) (video_id r)
                                          (is_hit_frame r) (weight r)) (shuffle both SEED)))
               (map g both)).
  { intros C g Hg. rewrite (map_imap_same g g) by exact Hg.
    apply Permutation_map, Hshuffle. }
  split; [apply Hcontent; reflexivity|]. split.
  - rewrite length_imap. apply map_imap_seq. reflexivity.
  - assert (Hboth : Forall (fun r => (0 <= weight r)%Q) both).
    { apply Forall_app. split.
      - apply Forall_forall. intros r Hr. apply list_elem_of_In in Hr.
        apply List.filter_In in Hr as [_ Hw]. apply Qltb_true in Hw. lra.
      - destruct (sampled_non_hit_spec sample df_weighted balance_ratio Hsample)
          as [_ [rest Hperm]].
        apply Forall_forall. intros r Hr. apply list_elem_of_In in Hr.
        assert (Hin : In r (non_hit_frames df_weighted)).
        { eapply Permutation_in; [exact Hperm|]. apply in_or_app. now left. }
        apply List.filter_In in Hin as [_ Hw]. apply Qeq_bool_iff in Hw. lra. }
    apply Forall_forall. intros r Hr. apply list_elem_of_In in Hr.
    assert (Hw : In (weight r) (map weight both)).
    { eapply Permutation_in; [apply (Hcontent Q weight); reflexivity|]. now apply in_map. }
    apply in_map_iff in Hw as (r' & <- & Hr').
    rewrite Forall_forall in Hboth. apply Hboth. now apply list_elem_of_In.
Qed.

Lemma balanced_set_content_witness :
  map name (balance_data take_first keep_order (weighted_table 3 10) (5 # 2))
  = map Z.of_nat (seq 0 10).
Proof.
  destruct (balanced_set_content take_first keep_order (weighted_table 3 10) (5 # 2)
              take_first_contract keep_order_contract) as (_ & Hnames & _).
  rewrite Hnames. reflexivity.
Defined.

(** For a non-negative balance ratio the number of sampled frames of
    weight zero never exceeds [balance_ratio] times the number of
    positive frames, nor the number of frames of weight zero; without
    positive frame nothing is sampled. *)
Theorem sampled_within_ratio (sample : list Row -> nat -> Z -> list Row)
    (df_weighted : list Row) (balance_ratio : Q) :
  sample_without_replacement sample -> (0 <= balance_ratio)%Q ->
  (inject_Z (Z.of_nat (length (sampled_non_hit sample df_weighted balance_ratio)))
   <= balance_ratio * inject_Z (Z.of_nat (length (hit_frames_weighted df_weighted))))%Q /\
  (length (sampled_non_hit sample df_weighted balance_ratio)
   <= length (non_hit_frames df_weighted))%nat /\
  (hit_frames_weighted df_weighted = [] -> sampled_non_hit sample df_weighted balance_ratio = []).
Proof.
  intros Hsample Hratio.
  destruct (sampled_non_hit_spec sample df_weighted balance_ratio Hsample) as [Hcount _].
  set (product := (balance_ratio
                   * inject_Z (Z.of_nat (length (hit_frames_weighted df_weighted))))%Q).
  assert (Hprod : (0 <= product)%Q).
  { unfold product. apply Qmult_le_0_compat; [exact Hratio|].
    change 0%Q with (inject_Z 0). apply inject_Z_le. lia. }
  pose proof (int_of_float_le product Hprod) as Hint.
  assert (Hsize : sample_size df_weighted balance_ratio <= Py.int_of_float product)
    by (unfold sample_size; fold product; lia).
  pose proof (int_of_float_nonneg product Hprod) as Hnn.
  split; [|split].
  - rewrite Hcount. eapply Qle_trans; [|exact Hint]. apply inject_Z_le. lia.
  - unfold sample_size in Hcount. lia.
  - intros Hnone.
    assert (Hz : Py.int_of_float product = 0).
    { unfold product. rewrite Hnone. cbn [length]. change (Z.of_nat 0) with 0.
      apply (int_round_integer (balance_ratio * inject_Z 0) 0). ring. }
    destruct (sampled_non_hit sample df_weighted balance_ratio); [reflexivity|].
    cbn [length] in Hcount. lia.
Qed.

Lemma sampled_within_ratio_witness :
  (inject_Z (Z.of_nat (length (sampled_non_hit take_first (weighted_table 3 10) (5 # 2))))
   <= (5 # 2) * inject_Z 3)%Q.
Proof.
  apply (sampled_within_ratio take_first (weighted_table 3 10) (5 # 2) take_first_contract).
  discriminate.
Defined.

Lemma split_at_end_contract : split_partitions split_at_end.
Proof.
  intros l size seed labels train test H. unfold split_at_end in H.
  destruct (_ || _); [discriminate|]. injection H as <- <-.
  now rewrite firstn_skipn.
Qed.

Lemma zip_maps {A B C} (f : A -> B) (g : A -> C) (l : list A) :
  zip (map f l) (map g l) = map (fun x => (f x, g x)) l.
Proof.
  induction l as [|x l IH]; [reflexivity|]. cbn. now rewrite IH.
Qed.

Lemma zip_projections {A B} (l : list (A * B)) : zip (map fst l) (map snd l) = l.
Proof.
  rewrite zip_maps. induction l as [|[a b] l IH]; [reflexivity|]. cbn. now rewrite IH.
Qed.

(** Fewer than three balanced frames cannot be split: the call raises.
    When it returns, and [train_test_split] hands back what it was
    given, the train, validation and test sets together hold every
    balanced frame once, each path (prefixed by [Frames] when relative)
    with the weight of its frame as target.  The second split is sized so
    that the validation share of the whole is [val_size]. *)
Theorem balance_and_split_partition (sample : list Row -> nat -> Z -> list Row)
    (shuffle : list Row -> Z -> list Row)
    (train_test_split : list (string * Q) -> Q -> Z -> list bool ->
                        option (list (string * Q) * list (string * Q)))
    (df_weighted : list Row) (balance_ratio test_size val_size : Q) :
  split_partitions train_test_split ->
  ((length (balance_data sample shuffle df_weighted balance_ratio) < 3)%nat ->
   balance_and_split_data sample shuffle train_test_split df_weighted balance_ratio
     test_size val_size = None) /\
  (forall res,
     balance_and_split_data sample shuffle train_test_split df_weighted balance_ratio
       test_size val_size = Some res ->
     balanced_df res = balance_data sample shuffle df_weighted balance_ratio /\
     (3 <= length (balanced_df res))%nat /\
     Permutation
       (zip (train_paths res) (train_targets res) ++ zip (val_paths res) (val_targets res)
        ++ zip (test_paths res) (test_targets res))
       (map (fun r => (Os.path_join "Frames" (frame_path r), weight r)) (balanced_df res))) /\
  ((test_size < 1)%Q -> (relative_val_size test_size val_size * (1 - test_size) == val_size)%Q).
Proof.
  intros Hsplit. unfold balance_and_split_data.
  set (balanced := balance_data sample shuffle df_weighted balance_ratio).
  rewrite length_map. split; [|split].
  - intros Hlt. apply Nat.ltb_lt in Hlt. now rewrite Hlt.
  - intros res. destruct (Nat.ltb_spec (length balanced) 3) as [Hlt|Hge]; [discriminate|].
    destruct (train_test_split _ test_size SEED _) as [[train_val test]|] eqn:E1;
      [|discriminate].
    cbn [mbind option_bind fst snd].
    destruct (train_test_split train_val _ SEED _) as [[train val]|] eqn:E2; [|discriminate].
    cbn [mbind option_bind fst snd]. intros [= <-].
    cbn [balanced_df train_paths train_targets val_paths val_targets test_paths test_targets].
    split; [reflexivity|]. split; [exact Hge|].
    rewrite !zip_projections.
    apply Hsplit in E1, E2. rewrite zip_maps in E1.
    rewrite app_assoc, E2. exact E1.
  - intros Hts. unfold relative_val_size.
    assert (Hpos : Py.Qltb 0 (1 - test_size) = true) by (apply Qltb_true; lra).
    rewrite Hpos. apply div_mul_cancel. lra.
Qed.

(** The default split of the scenario: 50 balanced frames, a tenth for
    the test set and a tenth for the validation set. *)
Lemma balance_and_split_partition_witness :
  exists res,
    balance_and_split_data take_first keep_order split_at_end (weighted_table 10 100)
      CNN1_BALANCE_RATIO (1 # 10) (1 # 10) = Some res /\
    length (train_paths res) = 40%nat /\ length (val_paths res) = 5%nat /\
    length (test_paths res) = 5%nat /\
    Permutation
      (zip (train_paths res) (train_targets res) ++ zip (val_paths res) (val_targets res)
       ++ zip (test_paths res) (test_targets res))
      (map (fun r => (Os.path_join "Frames" (frame_path r), weight r)) (balanced_df res)).
Proof.
  destruct (balance_and_split_data take_first keep_order split_at_end (weighted_table 10 100)
              CNN1_BALANCE_RATIO (1 # 10) (1 # 10)) as [res|] eqn:E;
    [|vm_compute in E; discriminate].
  exists res. split; [reflexivity|].
  destruct (balance_and_split_partition take_first keep_order split_at_end
              (weighted_table 10 100) CNN1_BALANCE_RATIO (1 # 10) (1 # 10)
              split_at_end_contract) as (_ & Hres & _).
  destruct (Hres res E) as (_ & _ & Hperm).
  assert (Hlen : length (train_paths res) = 40%nat /\ length (val_paths res) = 5%nat /\
                 length (test_paths res) = 5%nat).
  { clear -E. vm_compute in E. injection E as <-. repeat split. }
  destruct Hlen as (H1 & H2 & H3). repeat split; assumption.
Defined.

(** ** Training with early stopping *)

Lemma float_lt_sub_weaken (a b : Float) (m : Q) :
  (0 <= m)%Q -> float_lt a (float_sub b m) = true -> float_lt a b = true.
Proof.
  intros Hm. destruct a as [x| | |], b as [y| | |]; cbn; try easy.
  rewrite !Qltb_true. lra.
Qed.

Lemma float_lt_trans (a b c : Float) :
  float_lt a b = true -> float_lt b c = true -> float_lt a c = true.
Proof.
  destruct a as [x| | |], b as [y| | |], c as [z| | |]; cbn; try easy.
  rewrite !Qltb_true. lra.
Qed.

Lemma float_lt_below (a v c : Float) :
  float_lt a c = true -> float_lt v c = false -> v = NaN \/ float_lt a v = true.
Proof.
  destruct a as [x| | |], v as [y| | |], c as [z| | |]; cbn; try easy; try (now left);
    try (now right).
  rewrite Qltb_false, !Qltb_true. intros. right. lra.
Qed.

Lemma float_lt_irrefl_sub (a : Float) (m : Q) :
  (0 <= m)%Q -> float_lt a (float_sub a m) = false.
Proof.
  intros Hm. destruct a as [x| | |]; cbn; try easy. rewrite Qltb_false. lra.
Qed.

Lemma float_lt_sub_mono (v a b : Float) (m : Q) :
  float_lt a b = true -> float_lt v (float_sub b m) = false ->
  float_lt v (float_sub a m) = false.
Proof.
  destruct v as [x| | |], a as [y| | |], b as [z| | |]; cbn; try easy.
  rewrite !Qltb_false, Qltb_true. lra.
Qed.

Section TrainingProperties.

Variable run_epoch : nat -> EpochResult.
Variables (patience : Z) (min_improvement : Q).

Local Notation "'step'" := (epoch_step run_epoch min_improvement).
Local Notation "'loop'" := (training_loop run_epoch patience min_improvement).

Lemma epoch_step_counter (epoch : nat) (st : TrainState) :
  0 <= epochs_no_improve st -> 0 <= epochs_no_improve (step epoch st) <= epochs_no_improve st + 1.
Proof.
  intros H. unfold epoch_step. destruct (float_lt _ _); cbn; lia.
Qed.

(** The loop keeps every property that a single epoch keeps, and ends
    either by early stopping, the patience being used up, or after the
    last epoch. *)
Lemma training_loop_spec (P : nat -> TrainState -> Prop) :
  (forall epoch st, P epoch st -> P (S epoch) (step epoch st)) ->
  forall (epochs_left epoch : nat) (st : TrainState),
    P epoch st -> 0 <= epochs_no_improve st ->
    exists ran : nat,
      P ran (loop epochs_left epoch st).1 /\
      (epoch <= ran <= epoch + epochs_left)%nat /\
      ((loop epochs_left epoch st).2 = true ->
         (epoch < ran)%nat /\ patience <= epochs_no_improve (loop epochs_left epoch st).1 /\
         (epochs_no_improve st < patience ->
          epochs_no_improve (loop epochs_left epoch st).1 = patience)) /\
      ((loop epochs_left epoch st).2 = false ->
         ran = (epoch + epochs_left)%nat /\
         ((epoch < ran)%nat -> epochs_no_improve (loop epochs_left epoch st).1 < patience)).
Proof.
  intros Hstep epochs_left.
  induction epochs_left as [|k IH]; intros epoch st HP Hnn.
  - exists epoch. cbn. split; [exact HP|]. split; [lia|]. split; [discriminate|].
    intros _. split; lia.
  - cbn [training_loop].
    pose proof (epoch_step_counter epoch st Hnn) as Hc.
    destruct (Z.leb_spec patience (epochs_no_improve (step epoch st))) as [Hle|Hlt].
    + exists (S epoch). cbn [fst snd]. split; [now apply Hstep|]. split; [lia|].
      split; [|discriminate]. intros _. split; [lia|]. split; [exact Hle|]. intros. lia.
    + destruct (IH (S epoch) (step epoch st) (Hstep _ _ HP) (proj1 Hc))
        as (ran & HPr & Hran & Htrue & Hfalse).
      exists ran. split; [exact HPr|]. split; [lia|]. split.
      * intros Hs. destruct (Htrue Hs) as (H1 & H2 & H3). split; [lia|]. split; [exact H2|].
        intros _. apply H3. exact Hlt.
      * intros Hs. destruct (Hfalse Hs) as (H1 & H2). split; [lia|]. intros _.
        destruct k as [|k'].
        -- cbn. exact Hlt.
        -- apply H2. lia.
Qed.

Lemma train_invariant_initial : train_invariant run_epoch 0 initial_train_state.
Proof.
  unfold train_invariant. cbn. repeat split; try lia; try reflexivity; intros; lia.
Qed.

Lemma train_invariant_step (epoch : nat) (st : TrainState) :
  train_invariant run_epoch epoch st -> train_invariant run_epoch (S epoch) (step epoch st).
Proof.
  unfold train_invariant.
  intros (Ht & Hv & Hm & Hb & Hn & Hzero & Hpos).
  assert (Hseq : forall (f : nat -> Float),
             (map f (seq 0 epoch) ++ [f epoch])%list = map f (seq 0 (S epoch))).
  { intros f. rewrite seq_S, map_app. reflexivity. }
  unfold epoch_step. destruct (float_lt _ _) eqn:E; cbn [history best_val_loss epochs_no_improve
    best_epoch save_calls train_loss val_loss val_mae].
  - rewrite Ht, Hv, Hm, !Hseq. do 3 (split; [reflexivity|]).
    split; [lia|]. split; [lia|]. split; [intros; lia|]. intros _.
    replace (Z.to_nat (Z.of_nat epoch + 1 - 1)) with epoch by lia.
    split; [reflexivity|]. apply last_snoc.
  - rewrite Ht, Hv, Hm, !Hseq. do 3 (split; [reflexivity|]).
    split; [lia|]. split; [lia|]. split; assumption.
Qed.

Lemma near_minimum_step (epoch : nat) (st : TrainState) :
  (0 <= min_improvement)%Q ->
  train_invariant run_epoch epoch st /\ near_minimum min_improvement st ->
  train_invariant run_epoch (S epoch) (step epoch st) /\
  near_minimum min_improvement (step epoch st).
Proof.
  intros Hm [Hinv Hnear]. split; [now apply train_invariant_step|].
  destruct Hinv as (_ & Hv & _ & Hb & _ & _ & Hpos).
  assert (Hlen : length (val_loss (history st)) = epoch) by (rewrite Hv, length_map; apply length_seq).
  unfold near_minimum, epoch_step in *.
  destruct (float_lt _ _) eqn:E; cbn [history best_val_loss epochs_no_improve
    best_epoch save_calls train_loss val_loss val_mae]; intros j v Hj.
  - apply lookup_app_Some in Hj as [Hj|[Hge Hj]].
    + pose proof (lookup_lt_Some _ _ _ Hj) as Hlt. rewrite Hlen in Hlt.
      destruct (Hnear j v Hj) as [Hbefore Hafter]. split; [|intros; lia]. intros _.
      destruct (Z.lt_ge_cases (Z.of_nat j + 1) (best_epoch st)) as [Hearly|Hlate].
      * destruct (Hbefore Hearly) as [Hnan|Hgt]; [now left|]. right.
        eapply float_lt_trans; [|exact Hgt]. eapply float_lt_sub_weaken; eassumption.
      * eapply float_lt_below; [exact E|]. apply Hafter. exact Hlate.
    + rewrite Hlen in Hge, Hj. destruct (j - epoch)%nat as [|d] eqn:Ed; [|destruct d; discriminate].
      injection Hj as <-. split; [intros; lia|]. intros _. now apply float_lt_irrefl_sub.
  - apply lookup_app_Some in Hj as [Hj|[Hge Hj]].
    + exact (Hnear j v Hj).
    + rewrite Hlen in Hge, Hj. destruct (j - epoch)%nat as [|d] eqn:Ed; [|destruct d; discriminate].
      injection Hj as <-. split; [intros; lia|]. intros _. exact E.
Qed.

End TrainingProperties.

(** The bookkeeping of early stopping.  The history records what each
    epoch that ran measured.  The counter [epochs_no_improve] is the
    number of epochs since the best one, and the best loss is the
    validation loss of the best epoch, the last one saved; no epoch
    being the best, nothing was saved.  Early stopping happens once the
    counter reaches the patience (exactly the patience when it is at
    least 1); otherwise all the epochs ran. *)
Theorem early_stopping_accounting (run_epoch : nat -> EpochResult) (epochs patience : Z)
    (min_improvement : Q) (st : TrainState) (stopped : bool) :
  run_final_training run_epoch epochs patience min_improvement = (st, stopped) ->
  exists ran : nat,
    (ran <= Z.to_nat epochs)%nat /\
    train_loss (history st) = map (fun e => epoch_train_loss (run_epoch e)) (seq 0 ran) /\
    val_loss (history st) = map (fun e => epoch_val_loss (run_epoch e)) (seq 0 ran) /\
    val_mae (history st) = map (fun e => epoch_val_mae (run_epoch e)) (seq 0 ran) /\
    0 <= best_epoch st <= Z.of_nat ran /\
    epochs_no_improve st = Z.of_nat ran - best_epoch st /\
    (best_epoch st = 0 -> best_val_loss st = PosInf /\ save_calls st = []) /\
    (0 < best_epoch st ->
       best_val_loss st = epoch_val_loss (run_epoch (Z.to_nat (best_epoch st - 1))) /\
       last (save_calls st) = Some (best_epoch st)) /\
    (stopped = true ->
       patience <= epochs_no_improve st /\ (1 <= patience -> epochs_no_improve st = patience)) /\
    (stopped = false ->
       ran = Z.to_nat epochs /\ ((0 < ran)%nat -> epochs_no_improve st < patience)).
Proof.
  unfold run_final_training. intros Hrun.
  destruct (training_loop_spec run_epoch patience min_improvement (train_invariant run_epoch)
              (train_invariant_step run_epoch min_improvement) (Z.to_nat epochs) 0
              initial_train_state (train_invariant_initial run_epoch) ltac:(cbn; lia))
    as (ran & Hinv & Hran & Htrue & Hfalse).
  rewrite Hrun in Hinv, Htrue, Hfalse. cbn [fst snd] in Hinv, Htrue, Hfalse.
  destruct Hinv as (Ht & Hv & Hm & Hb & Hn & Hzero & Hpos).
  exists ran. split; [lia|]. do 3 (split; [assumption|]). split; [exact Hb|].
  split; [exact Hn|]. split; [exact Hzero|]. split; [exact Hpos|]. split.
  - intros Hs. destruct (Htrue Hs) as (_ & H2 & H3). split; [exact H2|].
    intros Hp. apply H3. cbn. lia.
  - intros Hs. destruct (Hfalse Hs) as (H1 & H2). split; [lia|]. intros Hr. apply H2. lia.
Qed.

(** The example run with patience 2: the second epoch is the best, the
    fourth one stops the training. *)
Lemma early_stopping_accounting_witness :
  exists st,
    run_final_training example_epoch 50 2 (1 # 100000) = (st, true) /\
    length (val_loss (history st)) = 4%nat /\ best_epoch st = 2 /\
    epochs_no_improve st = 2 /\ save_calls st = [1; 2].
Proof.
  destruct (run_final_training example_epoch 50 2 (1 # 100000)) as [st stopped] eqn:E.
  destruct (early_stopping_accounting example_epoch 50 2 (1 # 100000) st stopped E)
    as (ran & _ & _ & Hv & _ & _ & Hn & _).
  assert (Hst : stopped = true /\ best_epoch st = 2 /\ save_calls st = [1; 2] /\
                length (val_loss (history st)) = 4%nat).
  { clear -E. vm_compute in E. injection E as <- <-. repeat split. }
  destruct Hst as (-> & Hbest & Hsaved & Hlen).
  exists st. split; [reflexivity|]. split; [exact Hlen|]. split; [exact Hbest|].
  split; [|exact Hsaved].
  rewrite Hn, Hbest. rewrite Hv, length_map, length_seq in Hlen. rewrite Hlen. reflexivity.
Defined.

(** With a non-negative [min_improvement] the best validation loss is
    strictly below the loss of every earlier epoch (NaN apart), and no
    epoch of the run beats it by more than [min_improvement]. *)
Theorem best_loss_beats_history (run_epoch : nat -> EpochResult) (epochs patience : Z)
    (min_improvement : Q) (st : TrainState) (stopped : bool) :
  (0 <= min_improvement)%Q ->
  run_final_training run_epoch epochs patience min_improvement = (st, stopped) ->
  forall (j : nat) (v : Float),
    val_loss (history st) !! j = Some v ->
    (Z.of_nat j + 1 < best_epoch st -> v = NaN \/ float_lt (best_val_loss st) v = true) /\
    (best_epoch st <= Z.of_nat j + 1 ->
     float_lt v (float_sub (best_val_loss st) min_improvement) = false).
Proof.
  unfold run_final_training. intros Hm Hrun.
  destruct (training_loop_spec run_epoch patience min_improvement
              (fun e s => train_invariant run_epoch e s /\ near_minimum min_improvement s)
              (fun e s => near_minimum_step run_epoch min_improvement e s Hm)
              (Z.to_nat epochs) 0 initial_train_state) as (ran & [_ Hnear] & _).
  - split; [apply train_invariant_initial|]. intros j v Hj. discriminate.
  - cbn. lia.
  - rewrite Hrun in Hnear. exact Hnear.
Qed.

Lemma best_loss_beats_history_witness :
  exists st,
    run_final_training example_epoch 50 2 (1 # 100000) = (st, true) /\
    best_val_loss st = Finite (2 # 5) /\
    val_loss (history st) !! 0%nat = Some (Finite (1 # 2)) /\
    float_lt (best_val_loss st) (Finite (1 # 2)) = true.
Proof.
  destruct (run_final_training example_epoch 50 2 (1 # 100000)) as [st stopped] eqn:E.
  assert (Hst : stopped = true /\ best_epoch st = 2 /\ best_val_loss st = Finite (2 # 5) /\
                val_loss (history st) !! 0%nat = Some (Finite (1 # 2))).
  { clear -E. vm_compute in E. injection E as <- <-. repeat split. }
  destruct Hst as (-> & Hbest & Hloss & Hfirst).
  exists st. split; [reflexivity|]. split; [exact Hloss|]. split; [exact Hfirst|].
  destruct (best_loss_beats_history example_epoch 50 2 (1 # 100000) st true
              ltac:(vm_compute; discriminate) E 0%nat (Finite (1 # 2)) Hfirst) as [Hbefore _].
  destruct Hbefore as [Hnan|Hlt]; [rewrite Hbest; reflexivity|discriminate|exact Hlt].
Defined.

Lemma training_loop_never_improving (run_epoch : nat -> EpochResult) (patience : Z)
    (min_improvement : Q) :
  (forall e, epoch_val_loss (run_epoch e) = PosInf \/ epoch_val_loss (run_epoch e) = NaN) ->
  forall (epochs_left epoch : nat) (st : TrainState),
    best_val_loss st = PosInf -> (0 < epochs_left)%nat ->
    exists k : nat,
      (1 <= k <= epochs_left)%nat /\
      best_epoch (training_loop run_epoch patience min_improvement epochs_left epoch st).1
        = best_epoch st /\
      best_val_loss (training_loop run_epoch patience min_improvement epochs_left epoch st).1
        = PosInf /\
      save_calls (training_loop run_epoch patience min_improvement epochs_left epoch st).1
        = save_calls st /\
      length (val_loss (history
                (training_loop run_epoch patience min_improvement epochs_left epoch st).1))
        = (length (val_loss (history st)) + k)%nat /\
      ((training_loop run_epoch patience min_improvement epochs_left epoch st).2 = true ->
         patience <= epochs_no_improve st + Z.of_nat k /\
         ((1 < k)%nat -> epochs_no_improve st + Z.of_nat k - 1 < patience)) /\
      ((training_loop run_epoch patience min_improvement epochs_left epoch st).2 = false ->
         k = epochs_left /\ epochs_no_improve st + Z.of_nat k < patience).
Proof.
  intros Hloss epochs_left.
  induction epochs_left as [|l IH]; intros epoch st Hbest Hleft; [lia|].
  cbn [training_loop].
  assert (Hstep : epoch_step run_epoch min_improvement epoch st
                  = mkTrainState
                      (mkHistory
                         (train_loss (history st) ++ [epoch_train_loss (run_epoch epoch)])
                         (val_loss (history st) ++ [epoch_val_loss (run_epoch epoch)])
                         (val_mae (history st) ++ [epoch_val_mae (run_epoch epoch)]))
                      (best_val_loss st) (epochs_no_improve st + 1) (best_epoch st)
                      (save_calls st)).
  { unfold epoch_step. rewrite Hbest. cbn [float_sub].
    destruct (Hloss epoch) as [-> | ->]; reflexivity. }
  rewrite Hstep. cbn [epochs_no_improve].
  destruct (Z.leb_spec patience (epochs_no_improve st + 1)) as [Hle|Hlt].
  - exists 1%nat. cbn [fst snd best_epoch best_val_loss save_calls history val_loss].
    rewrite length_app. cbn [length]. repeat split; try lia; try assumption; discriminate.
  - destruct l as [|l'].
    + exists 1%nat. cbn [training_loop fst snd best_epoch best_val_loss save_calls history
                           val_loss].
      rewrite length_app. cbn [length]. repeat split; try lia; try assumption; discriminate.
    + set (st1 := mkTrainState _ _ _ _ _).
      destruct (IH (S epoch) st1 Hbest ltac:(lia))
        as (k & Hk & Hbe & Hbv & Hsc & Hlen & Htrue & Hfalse).
      subst st1.
      cbn [best_epoch save_calls history val_loss epochs_no_improve] in Hbe, Hsc, Hlen, Htrue,
        Hfalse.
      rewrite length_app in Hlen. cbn [length] in Hlen.
      exists (S k). split; [lia|]. split; [exact Hbe|]. split; [exact Hbv|].
      split; [exact Hsc|]. split; [lia|]. split.
      * intros Hs. destruct (Htrue Hs) as [H1 H2]. split; [lia|]. intros _.
        destruct (Nat.eq_dec k 1%nat) as [->|Hk1]; [lia|]. specialize (H2 ltac:(lia)). lia.
      * intros Hs. destruct (Hfalse Hs) as [H1 H2]. split; [lia|]. lia.
Qed.

(** When no epoch measures a validation loss below infinity (an empty
    validation loader gives infinity, line 900; a diverged model gives
    NaN), no epoch is the best and nothing is saved; the training runs
    for [max(patience, 1)] epochs, or for all of them when they are
    fewer, and only then is it not stopped early. *)
Theorem validation_never_improving (run_epoch : nat -> EpochResult) (epochs patience : Z)
    (min_improvement : Q) (st : TrainState) (stopped : bool) :
  (forall e, epoch_val_loss (run_epoch e) = PosInf \/ epoch_val_loss (run_epoch e) = NaN) ->
  0 < epochs ->
  run_final_training run_epoch epochs patience min_improvement = (st, stopped) ->
  best_epoch st = 0 /\ best_val_loss st = PosInf /\ save_calls st = [] /\
  Z.of_nat (length (val_loss (history st))) = Z.min epochs (Z.max patience 1) /\
  stopped = (Z.max patience 1 <=? epochs).
Proof.
  unfold run_final_training. intros Hloss Hepochs Hrun.
  destruct (training_loop_never_improving run_epoch patience min_improvement Hloss
              (Z.to_nat epochs) 0 initial_train_state eq_refl ltac:(lia))
    as (k & Hk & Hbe & Hbv & Hsc & Hlen & Htrue & Hfalse).
  rewrite Hrun in Hbe, Hbv, Hsc, Hlen, Htrue, Hfalse.
  cbn [fst snd initial_train_state best_epoch save_calls history val_loss epochs_no_improve
       length] in Hbe, Hsc, Hlen, Htrue, Hfalse.
  split; [exact Hbe|]. split; [exact Hbv|]. split; [exact Hsc|].
  destruct stopped.
  - destruct (Htrue eq_refl) as [H1 H2].
    assert (Hkp : Z.of_nat k = Z.max patience 1).
    { destruct (Nat.eq_dec k 1%nat) as [->|Hk1]; [lia|]. specialize (H2 ltac:(lia)). lia. }
    split; [rewrite Hlen; lia|]. symmetry. apply Z.leb_le. lia.
  - destruct (Hfalse eq_refl) as [H1 H2].
    split; [rewrite Hlen; lia|]. symmetry. apply Z.leb_gt. lia.
Qed.

(** An empty validation loader with the patience 15 of the
    configuration: fifteen epochs, nothing saved. *)
Lemma validation_never_improving_witness :
  exists st,
    run_final_training empty_loader_epoch 50 15 (1 # 100000) = (st, true) /\
    length (val_loss (history st)) = 15%nat /\ save_calls st = [].
Proof.
  destruct (run_final_training empty_loader_epoch 50 15 (1 # 100000)) as [st stopped] eqn:E.
  destruct (validation_never_improving empty_loader_epoch 50 15 (1 # 100000) st stopped
              ltac:(intros e; left; reflexivity) ltac:(lia) E)
    as (_ & _ & Hsaved & Hlen & ->).
  exists st. split; [reflexivity|]. split; [|exact Hsaved].
  change (Z.min 50 (Z.max 15 1)) with 15 in Hlen. lia.
Defined.

(** ** Model architectures *)

Lemma sequential_shape_app (a b : list Layer) (x : Torch.Shape) :
  Torch.sequential_shape (a ++ b) x
  = match Torch.sequential_shape a x with
    | Some y => Torch.sequential_shape b y
    | None => None
    end.
Proof.
  revert x. induction a as [|l a IH]; intros x; [reflexivity|].
  cbn. destruct (Torch.layer_shape l x); [apply IH|reflexivity].
Qed.

(** A convolution of kernel [2p + 1] and stride 1 keeps the size. *)
Lemma conv_keeps_size (c o p h w : Z) :
  0 < h -> 0 < w ->
  Torch.layer_shape (Conv2d c o (2 * p + 1) 1 p) (Torch.Map c h w) = Some (Torch.Map o h w).
Proof.
  intros Hh Hw. cbn [Torch.layer_shape]. rewrite Z.eqb_refl.
  destruct (Z.leb_spec (2 * p + 1) (h + 2 * p)); [|lia].
  destruct (Z.leb_spec (2 * p + 1) (w + 2 * p)); [|lia].
  cbn [andb]. unfold Torch.out_size.
  replace (h + 2 * p - (2 * p + 1)) with (h - 1) by lia.
  replace (w + 2 * p - (2 * p + 1)) with (w - 1) by lia.
  rewrite !Z.div_1_r. do 2 f_equal; lia.
Qed.

Lemma batch_norm_fits (c h w : Z) :
  Torch.layer_shape (BatchNorm2d c) (Torch.Map c h w) = Some (Torch.Map c h w).
Proof.
  cbn. now rewrite Z.eqb_refl.
Qed.

(** The pooling of the hit model halves the size, rounding down. *)
Lemma pool_halves_down (c h w : Z) :
  Torch.layer_shape (MaxPool2d 2 2 0) (Torch.Map c h w)
  = if (0 <? h / 2) && (0 <? w / 2) then Some (Torch.Map c (h / 2) (w / 2)) else None.
Proof.
  cbn [Torch.layer_shape]. unfold Torch.out_size.
  replace (h + 2 * 0 - 2) with (h + (-1) * 2) by lia.
  replace (w + 2 * 0 - 2) with (w + (-1) * 2) by lia.
  rewrite !Z.div_add by lia.
  replace (h / 2 + -1 + 1) with (h / 2) by lia.
  replace (w / 2 + -1 + 1) with (w / 2) by lia.
  reflexivity.
Qed.

(** The pooling of the landing model halves the size, rounding up. *)
Lemma pool_halves_up (c h w : Z) :
  0 < h -> 0 < w ->
  Torch.layer_shape (MaxPool2d 3 2 1) (Torch.Map c h w)
  = Some (Torch.Map c (ceil_div h 2) (ceil_div w 2)).
Proof.
  intros Hh Hw. cbn [Torch.layer_shape]. unfold Torch.out_size, ceil_div.
  replace (h + 2 * 1 - 3) with (h + 2 - 1 + (-1) * 2) by lia.
  replace (w + 2 * 1 - 3) with (w + 2 - 1 + (-1) * 2) by lia.
  rewrite !Z.div_add by lia.
  replace ((h + 2 - 1) / 2 + -1 + 1) with ((h + 2 - 1) / 2) by lia.
  replace ((w + 2 - 1) / 2 + -1 + 1) with ((w + 2 - 1) / 2) by lia.
  assert (0 < (h + 2 - 1) / 2) by (apply Z.div_str_pos; lia).
  assert (0 < (w + 2 - 1) / 2) by (apply Z.div_str_pos; lia).
  destruct (Z.ltb_spec 0 ((h + 2 - 1) / 2)); [|lia].
  destruct (Z.ltb_spec 0 ((w + 2 - 1) / 2)); [|lia].
  reflexivity.
Qed.

Lemma sequential_shape_cons (l : Layer) (rest : list Layer) (x y : Torch.Shape) :
  Torch.layer_shape l x = Some y ->
  Torch.sequential_shape (l :: rest) x = Torch.sequential_shape rest y.
Proof.
  intros H. cbn [Torch.sequential_shape]. now rewrite H.
Qed.

Lemma hit_block_shape (c num_filters h w : Z) :
  0 < h -> 0 < w ->
  Torch.sequential_shape (hit_block c num_filters) (Torch.Map c h w)
  = if (0 <? h / 2) && (0 <? w / 2) then Some (Torch.Map num_filters (h / 2) (w / 2)) else None.
Proof.
  intros Hh Hw. unfold hit_block.
  rewrite (sequential_shape_cons _ _ _ _ (conv_keeps_size c num_filters 1 h w Hh Hw)).
  rewrite (sequential_shape_cons _ _ _ _ (batch_norm_fits num_filters h w)).
  rewrite (sequential_shape_cons ReLU _ _ _ eq_refl).
  rewrite (sequential_shape_cons _ _ _ _ (conv_keeps_size num_filters num_filters 1 h w Hh Hw)).
  rewrite (sequential_shape_cons _ _ _ _ (batch_norm_fits num_filters h w)).
  rewrite (sequential_shape_cons ReLU _ _ _ eq_refl).
  cbn [Torch.sequential_shape]. rewrite pool_halves_down.
  destruct ((0 <? h / 2) && (0 <? w / 2)); reflexivity.
Qed.

Lemma pow2_le_half (n h : Z) : 0 <= n -> (2 ^ (n + 1) <= h <-> 2 ^ n <= h / 2).
Proof.
  intros Hn. rewrite Z.pow_add_r by lia. change (2 ^ 1) with 2.
  pose proof (Z.pow_pos_nonneg 2 n ltac:(lia) Hn) as Hpos.
  pose proof (Z.div_mod h 2 ltac:(lia)) as Hdm.
  pose proof (Z.mod_pos_bound h 2 ltac:(lia)) as Hmod. lia.
Qed.

Lemma last_cons_default {A} (l : list A) (d x : A) : List.last (x :: l) d = List.last l x.
Proof.
  revert d x. induction l as [|y l IH]; intros d x; [reflexivity|].
  change (List.last (x :: y :: l) d) with (List.last (y :: l) d).
  rewrite (IH d y), (IH x y). reflexivity.
Qed.

Lemma hit_blocks_loop_shape (block_filters : list Z) :
  forall (layers : list Layer) (c h w : Z),
  exists blocks,
    hit_blocks_loop block_filters layers c h w
    = ((layers ++ blocks)%list, List.last block_filters c,
       h / 2 ^ Z.of_nat (length block_filters), w / 2 ^ Z.of_nat (length block_filters)) /\
    (0 < h -> 0 < w ->
     Torch.sequential_shape blocks (Torch.Map c h w)
     = if (2 ^ Z.of_nat (length block_filters) <=? h) && (2 ^ Z.of_nat (length block_filters) <=? w)
       then Some (Torch.Map (List.last block_filters c)
                    (h / 2 ^ Z.of_nat (length block_filters))
                    (w / 2 ^ Z.of_nat (length block_filters)))
       else None).
Proof.
  induction block_filters as [|nf rest IH]; intros layers c h w.
  - exists []. cbn [hit_blocks_loop length List.last]. change (2 ^ Z.of_nat 0) with 1.
    rewrite app_nil_r, !Z.div_1_r. split; [reflexivity|]. intros Hh Hw.
    destruct (Z.leb_spec 1 h); [|lia]. destruct (Z.leb_spec 1 w); [|lia]. reflexivity.
  - cbn [hit_blocks_loop].
    destruct (IH (layers ++ hit_block c nf)%list nf (h / 2) (w / 2)) as (blocks & Hloop & Hshape).
    exists (hit_block c nf ++ blocks)%list.
    pose proof (last_cons_default rest c nf) as Hlast.
    assert (Hlen : Z.of_nat (length (nf :: rest)) = Z.of_nat (length rest) + 1)
      by (cbn [length]; lia).
    set (n := Z.of_nat (length rest)) in *. assert (Hn : 0 <= n) by (unfold n; lia).
    rewrite Hlen, Hlast.
    assert (Hdiv : forall x, x / 2 ^ (n + 1) = x / 2 / 2 ^ n).
    { intros x. rewrite Z.pow_add_r by lia. change (2 ^ 1) with 2.
      rewrite (Z.mul_comm (2 ^ n) 2), Z.div_div by (try lia; apply Z.pow_pos_nonneg; lia).
      reflexivity. }
    rewrite !Hdiv. split; [rewrite Hloop, <- app_assoc; reflexivity|].
    intros Hh Hw. rewrite sequential_shape_app, (hit_block_shape c nf h w Hh Hw).
    pose proof (Z.pow_pos_nonneg 2 n ltac:(lia) Hn) as Hpos.
    pose proof (pow2_le_half n h Hn) as Hhh. pose proof (pow2_le_half n w Hn) as Hww.
    destruct (Z.ltb_spec 0 (h / 2)) as [Hh2|Hh2]; cbn [andb].
    + destruct (Z.ltb_spec 0 (w / 2)) as [Hw2|Hw2].
      * rewrite (Hshape Hh2 Hw2).
        destruct (Z.leb_spec (2 ^ n) (h / 2)), (Z.leb_spec (2 ^ (n + 1)) h); try lia;
          destruct (Z.leb_spec (2 ^ n) (w / 2)), (Z.leb_spec (2 ^ (n + 1)) w); try lia;
          reflexivity.
      * destruct (Z.leb_spec (2 ^ (n + 1)) w); [lia|]. now rewrite andb_false_r.
    + destruct (Z.leb_spec (2 ^ (n + 1)) h); [lia|]. reflexivity.
Qed.

(** The hit model fits images of at least [2 ^ n] pixels a side, [n]
    being the number of blocks: the feature map that reaches the
    fully-connected block has the [flattened_size] that [__init__]
    computed, and the model gives one number per image.  On a smaller
    image a pooling layer has nothing left and the forward pass
    raises. *)
Theorem hit_regressor_shapes (input_channels img_height img_width : Z)
    (block_filters : list Z) (fc_size : Z) (dropout_rate : Q) :
  0 < img_height -> 0 < img_width ->
  let model := HitFrameRegressorFinal input_channels img_height img_width block_filters
                 fc_size dropout_rate in
  let reduction := 2 ^ Z.of_nat (length block_filters) in
  let flattened_size :=
    List.last block_filters input_channels * (img_height / reduction) * (img_width / reduction) in
  fc_block model
    = [Flatten; Linear flattened_size fc_size; ReLU; Dropout dropout_rate; Linear fc_size 1] /\
  (reduction <= img_height -> reduction <= img_width ->
   Torch.sequential_shape (conv_blocks model) (Torch.Map input_channels img_height img_width)
     = Some (Torch.Map (List.last block_filters input_channels)
               (img_height / reduction) (img_width / reduction)) /\
   Torch.sequential_shape (forward_layers model) (Torch.Map input_channels img_height img_width)
     = Some (Torch.Vec 1)) /\
  (img_height < reduction \/ img_width < reduction ->
   Torch.sequential_shape (forward_layers model) (Torch.Map input_channels img_height img_width)
     = None).
Proof.
  intros Hh Hw model reduction flattened_size.
  destruct (hit_blocks_loop_shape block_filters [] input_channels img_height img_width)
    as (blocks & Hloop & Hshape).
  specialize (Hshape Hh Hw). fold reduction in Hloop, Hshape.
  assert (Hmodel : model = mkCnnModule blocks
            [Flatten; Linear flattened_size fc_size; ReLU; Dropout dropout_rate;
             Linear fc_size 1]).
  { unfold model, HitFrameRegressorFinal. rewrite Hloop. reflexivity. }
  rewrite Hmodel. unfold forward_layers. cbn [conv_blocks fc_block].
  split; [reflexivity|]. rewrite sequential_shape_app, Hshape. split.
  - intros H1 H2. destruct (Z.leb_spec reduction img_height); [|lia].
    destruct (Z.leb_spec reduction img_width); [|lia]. cbn [andb]. split; [reflexivity|].
    cbn. fold flattened_size. now rewrite !Z.eqb_refl.
  - intros [H|H].
    + destruct (Z.leb_spec reduction img_height); [lia|]. reflexivity.
    + destruct (Z.leb_spec reduction img_width); [lia|]. now rewrite andb_false_r.
Qed.

(** The configured hit model: 224 x 224 images leave 64 maps of 14 x 14,
    12544 features. *)
Lemma hit_regressor_shapes_witness :
  fc_block (HitFrameRegressorFinal 3 IMG_HEIGHT IMG_WIDTH CNN1_FILTERS CNN1_FC_SIZE CNN1_DROPOUT)
    = [Flatten; Linear 12544 512; ReLU; Dropout (1 # 2); Linear 512 1] /\
  Torch.sequential_shape
    (forward_layers
       (HitFrameRegressorFinal 3 IMG_HEIGHT IMG_WIDTH CNN1_FILTERS CNN1_FC_SIZE CNN1_DROPOUT))
    (Torch.Map 3 IMG_HEIGHT IMG_WIDTH) = Some (Torch.Vec 1).
Proof.
  destruct (hit_regressor_shapes 3 IMG_HEIGHT IMG_WIDTH CNN1_FILTERS CNN1_FC_SIZE CNN1_DROPOUT
              ltac:(reflexivity) ltac:(reflexivity)) as (Hfc & Hfits & _).
  split; [exact Hfc|].
  exact (proj2 (Hfits ltac:(vm_compute; discriminate) ltac:(vm_compute; discriminate))).
Defined.

Lemma ceil_div_pos (h d : Z) : 0 < h -> 0 < d -> 0 < ceil_div h d.
Proof.
  intros Hh Hd. unfold ceil_div. apply Z.div_str_pos. lia.
Qed.

Lemma ceil_div_1 (h : Z) : ceil_div h 1 = h.
Proof.
  unfold ceil_div. rewrite Z.div_1_r. lia.
Qed.

Lemma ceil_div_div (h a b : Z) :
  0 < a -> 0 < b -> ceil_div (ceil_div h a) b = ceil_div h (a * b).
Proof.
  intros Ha Hb. unfold ceil_div.
  replace ((h + a - 1) / a + b - 1) with ((h + a - 1) / a + (b - 1)) by lia.
  rewrite <- Z.div_add by lia.
  replace (h + a - 1 + (b - 1) * a) with (h + a * b - 1) by lia.
  rewrite Z.div_div by lia. reflexivity.
Qed.

(** The first convolution of the landing model halves the size,
    rounding up. *)
Lemma first_conv_halves_up (c o h w : Z) :
  0 < h -> 0 < w ->
  Torch.layer_shape (Conv2d c o 7 2 3) (Torch.Map c h w)
  = Some (Torch.Map o (ceil_div h 2) (ceil_div w 2)).
Proof.
  intros Hh Hw. cbn [Torch.layer_shape]. rewrite Z.eqb_refl.
  destruct (Z.leb_spec 7 (h + 2 * 3)); [|lia]. destruct (Z.leb_spec 7 (w + 2 * 3)); [|lia].
  cbn [andb]. unfold Torch.out_size, ceil_div.
  replace (h + 2 * 3 - 7) with (h + 2 - 1 + (-1) * 2) by lia.
  replace (w + 2 * 3 - 7) with (w + 2 - 1 + (-1) * 2) by lia.
  rewrite !Z.div_add by lia. do 2 f_equal; lia.
Qed.

(** A block of the landing model after the first: the size is halved,
    rounding up. *)
Lemma landing_blocks_loop_later (conv_filters : list Z) :
  forall (i : nat) (layers : list Layer) (c h w : Z),
    (1 <= i)%nat -> 0 < h -> 0 < w ->
    exists blocks,
      landing_blocks_loop conv_filters i layers c h w
      = ((layers ++ blocks)%list, List.last conv_filters c,
         ceil_div h (2 ^ Z.of_nat (length conv_filters)),
         ceil_div w (2 ^ Z.of_nat (length conv_filters))) /\
      Torch.sequential_shape blocks (Torch.Map c h w)
      = Some (Torch.Map (List.last conv_filters c)
                (ceil_div h (2 ^ Z.of_nat (length conv_filters)))
                (ceil_div w (2 ^ Z.of_nat (length conv_filters)))).
Proof.
  induction conv_filters as [|out_c rest IH]; intros i layers c h w Hi Hh Hw.
  - exists []. cbn [landing_blocks_loop length List.last]. change (2 ^ Z.of_nat 0) with 1.
    rewrite app_nil_r, !ceil_div_1. split; reflexivity.
  - assert (Hcfg : exists p,
               0 <= p /\
               nth (Nat.min i (length block_configs - 1)) block_configs
                   (mkBlockConfig 3 1 1 3 2 1)
               = mkBlockConfig (2 * p + 1) 1 p 3 2 1).
    { destruct i as [|[|[|[|i]]]]; [lia|exists 2|exists 1|exists 1|exists 1];
        (split; [lia|reflexivity]). }
    destruct Hcfg as (p & Hp & Hcfg).
    cbn [landing_blocks_loop]. rewrite Hcfg.
    cbn [cfg_k cfg_s cfg_p cfg_pool_k cfg_pool_s cfg_pool_p].
    pose proof (conv_keeps_size c out_c p h w Hh Hw) as Hconv.
    pose proof (pool_halves_up out_c h w Hh Hw) as Hpool.
    assert (Hsame : forall x, (x + 2 * p - (2 * p + 1)) / 1 + 1 = x).
    { intros x. rewrite Z.div_1_r. lia. }
    assert (Hhalf : forall x, (x + 2 * 1 - 3) / 2 + 1 = ceil_div x 2).
    { intros x. unfold ceil_div. replace (x + 2 * 1 - 3) with (x + 2 - 1 + (-1) * 2) by lia.
      rewrite Z.div_add by lia. lia. }
    rewrite !Hsame, !Hhalf.
    destruct (IH (S i)
                (layers ++ [Conv2d c out_c (2 * p + 1) 1 p; BatchNorm2d out_c; ReLU;
                            MaxPool2d 3 2 1])%list
                out_c (ceil_div h 2) (ceil_div w 2) ltac:(lia)
                (ceil_div_pos h 2 Hh ltac:(lia)) (ceil_div_pos w 2 Hw ltac:(lia)))
      as (blocks & Hloop & Hshape).
    exists ([Conv2d c out_c (2 * p + 1) 1 p; BatchNorm2d out_c; ReLU; MaxPool2d 3 2 1]
            ++ blocks)%list.
    assert (Hlen : Z.of_nat (length (out_c :: rest)) = 1 + Z.of_nat (length rest))
      by (cbn [length]; lia).
    assert (Hpow : 0 < 2 ^ Z.of_nat (length rest)) by (apply Z.pow_pos_nonneg; lia).
    rewrite Hlen, Z.pow_add_r by lia. change (2 ^ 1) with 2.
    rewrite <- !ceil_div_div by lia. rewrite last_cons_default. split.
    + rewrite Hloop, <- app_assoc. reflexivity.
    + rewrite sequential_shape_app.
      rewrite (sequential_shape_cons _ _ _ _ Hconv).
      rewrite (sequential_shape_cons _ _ _ _ (batch_norm_fits out_c h w)).
      rewrite (sequential_shape_cons ReLU _ _ _ eq_refl).
      rewrite (sequential_shape_cons _ _ _ _ Hpool).
      cbn [Torch.sequential_shape]. exact Hshape.
Qed.

(** The feature map that leaves the convolutional blocks of the landing
    model: the first block divides the size by 4, each later one by 2,
    always rounding up. *)
Lemma landing_blocks_loop_shape (conv_filters : list Z) (c h w : Z) :
  0 < h -> 0 < w ->
  exists blocks,
    landing_blocks_loop conv_filters 0 [] c h w
    = (blocks, List.last conv_filters c,
       ceil_div h (match conv_filters with
                   | [] => 1
                   | _ => 2 ^ (Z.of_nat (length conv_filters) + 1)
                   end),
       ceil_div w (match conv_filters with
                   | [] => 1
                   | _ => 2 ^ (Z.of_nat (length conv_filters) + 1)
                   end)) /\
    Torch.sequential_shape blocks (Torch.Map c h w)
    = Some (Torch.Map (List.last conv_filters c)
              (ceil_div h (match conv_filters with
                           | [] => 1
                           | _ => 2 ^ (Z.of_nat (length conv_filters) + 1)
                           end))
              (ceil_div w (match conv_filters with
                           | [] => 1
                           | _ => 2 ^ (Z.of_nat (length conv_filters) + 1)
                           end))).
Proof.
  intros Hh Hw. destruct conv_filters as [|out_c rest].
  - exists []. cbn [landing_blocks_loop List.last]. rewrite !ceil_div_1. split; reflexivity.
  - cbn [landing_blocks_loop]. change (Nat.min 0 (length block_configs - 1)) with 0%nat.
    cbn [nth block_configs cfg_k cfg_s cfg_p cfg_pool_k cfg_pool_s cfg_pool_p].
    assert (Hhalf : forall x, (x + 2 * 3 - 7) / 2 + 1 = ceil_div x 2).
    { intros x. unfold ceil_div. replace (x + 2 * 3 - 7) with (x + 2 - 1 + (-1) * 2) by lia.
      rewrite Z.div_add by lia. lia. }
    assert (Hhalf' : forall x, (x + 2 * 1 - 3) / 2 + 1 = ceil_div x 2).
    { intros x. unfold ceil_div. replace (x + 2 * 1 - 3) with (x + 2 - 1 + (-1) * 2) by lia.
      rewrite Z.div_add by lia. lia. }
    rewrite !Hhalf, !Hhalf', !ceil_div_div by lia. change (2 * 2) with 4.
    pose proof (ceil_div_pos h 4 Hh ltac:(lia)) as Hh4.
    pose proof (ceil_div_pos w 4 Hw ltac:(lia)) as Hw4.
    destruct (landing_blocks_loop_later rest 1
                ([] ++ [Conv2d c out_c 7 2 3; BatchNorm2d out_c; ReLU; MaxPool2d 3 2 1])%list
                out_c (ceil_div h 4) (ceil_div w 4) ltac:(lia) Hh4 Hw4)
      as (blocks & Hloop & Hshape).
    exists ([Conv2d c out_c 7 2 3; BatchNorm2d out_c; ReLU; MaxPool2d 3 2 1] ++ blocks)%list.
    assert (Hlen : Z.of_nat (length (out_c :: rest)) + 1 = 2 + Z.of_nat (length rest))
      by (cbn [length]; lia).
    assert (Hpow : 0 < 2 ^ Z.of_nat (length rest)) by (apply Z.pow_pos_nonneg; lia).
    rewrite Hlen, Z.pow_add_r by lia. change (2 ^ 2) with 4.
    rewrite <- !ceil_div_div by lia. rewrite last_cons_default. split.
    + rewrite Hloop. reflexivity.
    + rewrite sequential_shape_app.
      rewrite (sequential_shape_cons _ _ _ _ (first_conv_halves_up c out_c h w Hh Hw)).
      rewrite (sequential_shape_cons _ _ _ _
                 (batch_norm_fits out_c (ceil_div h 2) (ceil_div w 2))).
      rewrite (sequential_shape_cons ReLU _ _ _ eq_refl).
      pose proof (pool_halves_up out_c (ceil_div h 2) (ceil_div w 2)
                    (ceil_div_pos h 2 Hh ltac:(lia)) (ceil_div_pos w 2 Hw ltac:(lia)))
        as Hpool.
      rewrite !ceil_div_div in Hpool by lia. change (2 * 2) with 4 in Hpool.
      rewrite (sequential_shape_cons _ _ _ _ Hpool).
      cbn [Torch.sequential_shape]. exact Hshape.
Qed.

Lemma fc_layers_loop_shape (fc_sizes : list Z) (dropout_rate : Q) :
  forall (fc_layers : list Layer) (last_size : Z),
  exists added,
    fc_layers_loop fc_sizes dropout_rate fc_layers last_size
    = ((fc_layers ++ added)%list, List.last fc_sizes last_size) /\
    Torch.sequential_shape added (Torch.Vec last_size)
    = Some (Torch.Vec (List.last fc_sizes last_size)) /\
    (forall output_dim, exists rest,
       (added ++ [Linear (List.last fc_sizes last_size) output_dim; Sigmoid])%list
       = Linear last_size (hd output_dim fc_sizes) :: rest).
Proof.
  induction fc_sizes as [|size rest IH]; intros fc_layers last_size.
  - exists []. cbn [fc_layers_loop List.last]. rewrite app_nil_r. split; [reflexivity|].
    split; [reflexivity|]. intros output_dim. exists [Sigmoid]. reflexivity.
  - cbn [fc_layers_loop].
    destruct (IH (fc_layers ++ [Linear last_size size; ReLU; Dropout dropout_rate])%list size)
      as (added & Hloop & Hshape & _).
    exists ([Linear last_size size; ReLU; Dropout dropout_rate] ++ added)%list.
    rewrite last_cons_default. split; [rewrite Hloop, <- app_assoc; reflexivity|]. split.
    + rewrite sequential_shape_app. cbn [Torch.sequential_shape Torch.layer_shape].
      rewrite Z.eqb_refl. exact Hshape.
    + intros output_dim. eexists. cbn [hd]. rewrite <- app_assoc. reflexivity.
Qed.

(** The landing model fits every image of at least one pixel, whatever
    the numbers of blocks and of fully-connected layers: the feature
    map never becomes empty ([4 * 2 ^ (n - 1)] times smaller than the
    image, rounded up, after [n] blocks), the first fully-connected
    layer takes the [flattened_size] that [__init__] computed, and the
    model gives [output_dim] numbers. *)
Theorem landing_cnn_shapes (input_channels output_dim img_height img_width : Z)
    (conv_filters fc_sizes : list Z) (dropout_rate : Q) :
  0 < img_height -> 0 < img_width ->
  let model := LandingPointCNN input_channels output_dim img_height img_width conv_filters
                 fc_sizes dropout_rate in
  let reduction := match conv_filters with
                   | [] => 1
                   | _ => 2 ^ (Z.of_nat (length conv_filters) + 1)
                   end in
  let out_h := ceil_div img_height reduction in
  let out_w := ceil_div img_width reduction in
  0 < out_h /\ 0 < out_w /\
  Torch.sequential_shape (conv_blocks model) (Torch.Map input_channels img_height img_width)
    = Some (Torch.Map (List.last conv_filters input_channels) out_h out_w) /\
  (exists rest,
     fc_block model
     = Flatten :: Linear (List.last conv_filters input_channels * out_h * out_w)
                    (hd output_dim fc_sizes) :: rest) /\
  Torch.sequential_shape (forward_layers model) (Torch.Map input_channels img_height img_width)
    = Some (Torch.Vec output_dim).
Proof.
  intros Hh Hw model reduction out_h out_w.
  assert (Hred : 0 < reduction).
  { unfold reduction. destruct conv_filters; [lia|]. apply Z.pow_pos_nonneg; lia. }
  destruct (landing_blocks_loop_shape conv_filters input_channels img_height img_width Hh Hw)
    as (blocks & Hloop & Hshape).
  fold reduction in Hloop, Hshape. fold out_h out_w in Hloop, Hshape.
  set (flattened_size := List.last conv_filters input_channels * out_h * out_w).
  destruct (fc_layers_loop_shape fc_sizes dropout_rate [Flatten] flattened_size)
    as (added & Hfc & Hfcshape & Hhead).
  assert (Hmodel : model = mkCnnModule blocks
            (([Flatten] ++ added)
             ++ [Linear (List.last fc_sizes flattened_size) output_dim; Sigmoid])%list).
  { unfold model, LandingPointCNN. rewrite Hloop. fold flattened_size. rewrite Hfc.
    reflexivity. }
  rewrite Hmodel. unfold forward_layers. cbn [conv_blocks fc_block].
  split; [now apply ceil_div_pos|]. split; [now apply ceil_div_pos|].
  split; [exact Hshape|]. split.
  - destruct (Hhead output_dim) as (rest & Hrest). exists rest.
    rewrite <- app_assoc. cbn [app]. f_equal. exact Hrest.
  - rewrite sequential_shape_app, Hshape, <- app_assoc, sequential_shape_app.
    cbn [Torch.sequential_shape Torch.layer_shape]. fold flattened_size.
    rewrite sequential_shape_app, Hfcshape. cbn [Torch.sequential_shape Torch.layer_shape].
    now rewrite Z.eqb_refl.
Qed.

(** The configured landing model: sequences of nine 224 x 224 frames
    leave 512 maps of 7 x 7, 25088 features. *)
Lemma landing_cnn_shapes_witness :
  Torch.sequential_shape
    (conv_blocks (LandingPointCNN CNN2_INPUT_CHANNELS 2 IMG_HEIGHT IMG_WIDTH CNN2_CONV_FILTERS
                    CNN2_FC_SIZES CNN2_DROPOUT))
    (Torch.Map CNN2_INPUT_CHANNELS IMG_HEIGHT IMG_WIDTH) = Some (Torch.Map 512 7 7) /\
  Torch.sequential_shape
    (forward_layers (LandingPointCNN CNN2_INPUT_CHANNELS 2 IMG_HEIGHT IMG_WIDTH
                       CNN2_CONV_FILTERS CNN2_FC_SIZES CNN2_DROPOUT))
    (Torch.Map CNN2_INPUT_CHANNELS IMG_HEIGHT IMG_WIDTH) = Some (Torch.Vec 2).
Proof.
  destruct (landing_cnn_shapes CNN2_INPUT_CHANNELS 2 IMG_HEIGHT IMG_WIDTH CNN2_CONV_FILTERS
              CNN2_FC_SIZES CNN2_DROPOUT ltac:(reflexivity) ltac:(reflexivity))
    as (_ & _ & Hconv & _ & Hforward).
  split; [exact Hconv|exact Hforward].
Defined.

(** ** The prediction pipeline *)

Lemma insert_sorted_perm {A} (key : A -> Z) (x : A) (l : list A) :
  Permutation (insert_sorted key x l) (x :: l).
Proof.
  induction l as [|y l IH]; [reflexivity|].
  cbn. destruct (key y <? key x); [|reflexivity].
  rewrite IH. apply perm_swap.
Qed.

Lemma sorted_by_perm {A} (key : A -> Z) (l : list A) : Permutation (sorted_by key l) l.
Proof.
  induction l as [|x l IH]; [reflexivity|].
  cbn. rewrite insert_sorted_perm. now constructor.
Qed.

Lemma insert_sorted_sorted {A} (key : A -> Z) (x : A) (l : list A) :
  StronglySorted (fun a b => key a <= key b) l ->
  StronglySorted (fun a b => key a <= key b) (insert_sorted key x l).
Proof.
  induction l as [|y t IH]; intros Hs; cbn.
  - constructor; constructor.
  - apply StronglySorted_inv in Hs as [Ht Hy].
    destruct (Z.ltb_spec (key y) (key x)) as [Hlt|Hge].
    + constructor; [now apply IH|].
      apply Forall_forall. intros z Hz. apply list_elem_of_In in Hz.
      apply (Permutation_in _ (insert_sorted_perm key x t)) in Hz.
      destruct Hz as [<-|Hz]; [lia|].
      rewrite Forall_forall in Hy. apply Hy. now apply list_elem_of_In.
    + constructor; [now constructor|]. constructor; [exact Hge|].
      eapply Forall_impl; [exact Hy|]. cbn. intros z Hz. lia.
Qed.

Lemma sorted_by_sorted {A} (key : A -> Z) (l : list A) :
  StronglySorted (fun a b => key a <= key b) (sorted_by key l).
Proof.
  induction l as [|x l IH]; cbn; [constructor|]. now apply insert_sorted_sorted.
Qed.

(** A list in strictly increasing order of its keys is the only sorted
    arrangement of its elements. *)
Lemma sorted_arrangement_unique {A} (key : A -> Z) (l l' : list A) :
  StronglySorted (fun a b => key a <= key b) l ->
  StronglySorted (fun a b => key a < key b) l' ->
  Permutation l l' -> l = l'.
Proof.
  intros Hl. revert l'. induction Hl as [|x t Ht IH Hx]; intros l' Hl' Hperm.
  - now apply Permutation_nil in Hperm.
  - destruct l' as [|y t']; [now apply Permutation_sym, Permutation_nil in Hperm|].
    apply StronglySorted_inv in Hl' as [Ht' Hy].
    rewrite Forall_forall in Hx, Hy.
    assert (Hxy : x = y).
    { assert (Hin : In x (y :: t')) by (eapply Permutation_in; [exact Hperm|now left]).
      destruct Hin as [Heq|Hin]; [now symmetry|].
      assert (Hlt : key y < key x) by (apply Hy; now apply list_elem_of_In).
      assert (Hin' : In y (x :: t))
        by (eapply Permutation_in; [symmetry; exact Hperm|now left]).
      destruct Hin' as [Heq|Hin']; [exact Heq|].
      assert (Hle : key x <= key y) by (apply Hx; now apply list_elem_of_In). lia. }
    subst y. f_equal. apply IH; [exact Ht'|]. eapply Permutation_cons_inv. exact Hperm.
Qed.

Lemma string_length_append (a b : string) :
  String.length (a ++ b) = (String.length a + String.length b)%nat.
Proof.
  induction a as [|c a IH]; [reflexivity|]. rewrite append_cons. cbn. now rewrite IH.
Qed.

Lemma substring_whole (s : string) : substring 0 (String.length s) s = s.
Proof.
  induction s as [|c s IH]; [reflexivity|]. cbn. now rewrite IH.
Qed.

Lemma endswith_append (p suffix : string) : Str.endswith (p ++ suffix) suffix = true.
Proof.
  unfold Str.endswith. rewrite string_length_append.
  destruct (Nat.leb_spec (String.length suffix) (String.length p + String.length suffix));
    [|lia].
  cbn [andb]. replace (String.length p + String.length suffix - String.length suffix)%nat
    with (String.length p) by lia.
  apply String.eqb_eq. clear. induction p as [|c p IH]; [apply substring_whole|].
  rewrite append_cons. cbn. exact IH.
Qed.

Lemma lower_append (a b : string) : Str.lower (a ++ b) = Str.lower a ++ Str.lower b.
Proof.
  induction a as [|c a IH]; [reflexivity|]. rewrite append_cons. cbn. now rewrite IH.
Qed.

Lemma lower_uint (d : Decimal.uint) :
  Str.lower (NilEmpty.string_of_uint d) = NilEmpty.string_of_uint d.
Proof.
  induction d; cbn [NilEmpty.string_of_uint Str.lower]; [reflexivity|..];
    rewrite IHd; reflexivity.
Qed.

Lemma lower_zeros (n : nat) :
  Str.lower (String.concat EmptyString (repeat "0" n))
  = String.concat EmptyString (repeat "0" n).
Proof.
  induction n as [|n IH]; [reflexivity|]. rewrite zeros_succ. cbn [Str.lower].
  now rewrite IH.
Qed.

Lemma search_number_leading (s : string) (v : Z) :
  Py.leading_int s = Some v -> Str.search_number s = Some v.
Proof.
  destruct s as [|c s]; [discriminate|]. cbn [Py.leading_int Str.search_number].
  destruct (Py.is_digit c); [trivial|discriminate].
Qed.

(** The pipeline accepts the files that the extractor writes and reads
    their frame count. *)
Lemma frame_file_name_listed (k : nat) :
  Str.endswith_any (Str.lower (frame_file_name k)) image_extensions = true /\
  Str.search_number (frame_file_name k) = Some (Z.of_nat k).
Proof.
  unfold frame_file_name. cbv zeta.
  set (d := Nat.to_uint k). set (n := (4 - String.length (NilEmpty.string_of_uint d))%nat).
  split.
  - rewrite <- !append_assoc, lower_append.
    change (Str.lower ".jpg") with ".jpg".
    unfold Str.endswith_any, image_extensions. cbn [existsb].
    now rewrite endswith_append.
  - destruct (zeros_then_digits n (NilEmpty.string_of_uint d ++ ".jpg")) as [Hlead _].
    { apply uint_string_head, to_uint_nonnil. }
    { now apply uint_string_no_slash. }
    assert (Hval : Py.digits_from 0 (NilEmpty.string_of_uint d ++ ".jpg") = Z.of_nat k).
    { pose proof (digits_from_uint d 0 ".jpg" ltac:(reflexivity)) as Hd.
      change (Z.of_nat 0) with 0 in Hd. rewrite Hd.
      change (Nat.of_uint_acc d 0) with (Nat.of_uint d).
      unfold d. now rewrite DecimalNat.Unsigned.of_to. }
    rewrite Hval in Hlead. apply search_number_leading in Hlead.
    set (body := String.concat EmptyString _ ++ _ ++ ".jpg") in *.
    change ("frame_" ++ body)
      with (String "f" (String "r" (String "a" (String "m" (String "e" (String "_" body)))))).
    cbn -[Str.search_number]. cbn [Str.search_number].
    change (Py.is_digit "f") with false. change (Py.is_digit "r") with false.
    change (Py.is_digit "a") with false. change (Py.is_digit "m") with false.
    change (Py.is_digit "e") with false. change (Py.is_digit "_") with false.
    cbv iota. exact Hlead.
Qed.

Lemma omap_none {A B} (f : A -> option B) (l : list A) :
  Forall (fun x => f x = None) l -> omap f l = [].
Proof.
  induction 1 as [|x l Hx _ IH]; [reflexivity|]. cbn. now rewrite Hx.
Qed.

Lemma omap_all {A B} (f : A -> option B) (g : A -> B) (l : list A) :
  (forall x, In x l -> f x = Some (g x)) -> omap f l = map g l.
Proof.
  induction l as [|x l IH]; intros H; [reflexivity|].
  cbn. rewrite (H x (or_introl eq_refl)). cbn. f_equal. apply IH. intros y Hy. apply H.
  now right.
Qed.

(** The pipeline finds the frames of a video in the order in which the
    extractor wrote them, in whatever order the directory is listed
    and whatever other files it holds, as long as these have no image
    extension or no digit in their name. *)
Theorem listing_recovers_frame_order {Frame : Type} (video : list Frame)
    (output_dir : string) (all_files others : list string) :
  Permutation all_files
    (map (fun pf => Py.basename pf.1) (extract_frames video output_dir) ++ others) ->
  Forall (fun f => Str.endswith_any (Str.lower f) image_extensions = false \/
                   Str.search_number f = None) others ->
  sorted_frame_paths output_dir all_files = map fst (extract_frames video output_dir).
Proof.
  intros Hperm Hothers.
  set (entry := fun k => mkFrameEntry (Os.path_join output_dir (frame_file_name k))
                           (Z.of_nat k) (frame_file_name k)).
  set (convert := fun f =>
         if Str.endswith_any (Str.lower f) image_extensions
         then number ← Str.search_number f;
              Some (mkFrameEntry (Os.path_join output_dir f) number f)
         else None).
  assert (Hnames : map (fun pf : string * Frame => Py.basename pf.1)
                     (extract_frames video output_dir)
                   = map frame_file_name (seq 0 (length video))).
  { unfold extract_frames. apply map_imap_seq. intros i x. cbn [fst].
    destruct (frame_file_name_number i) as (_ & Hns & Hst). now apply basename_path_join. }
  assert (Hpaths : map fst (extract_frames video output_dir)
                   = map entry_path (map entry (seq 0 (length video)))).
  { unfold extract_frames. rewrite map_map. apply map_imap_seq. reflexivity. }
  assert (Hentries : Permutation (frames_with_numbers output_dir all_files)
                       (map entry (seq 0 (length video)))).
  { unfold frames_with_numbers. fold convert. rewrite Hperm, Hnames, omap_app.
    rewrite (omap_none convert others).
    - rewrite app_nil_r, (omap_all convert (fun f => entry (Z.to_nat (default 0 (Str.search_number f))))).
      + rewrite map_map.
        rewrite (map_ext (fun k => entry (Z.to_nat (default 0 (Str.search_number
                                                               (frame_file_name k)))))
                   entry); [reflexivity|].
        intros k. destruct (frame_file_name_listed k) as [_ ->]. cbn [from_option id].
        now rewrite Nat2Z.id.
      + intros f Hf. apply in_map_iff in Hf as (k & <- & _).
        destruct (frame_file_name_listed k) as [Hext Hnum]. unfold convert.
        rewrite Hext, Hnum. cbn [mbind option_bind from_option id]. now rewrite Nat2Z.id.
    - eapply Forall_impl; [exact Hothers|]. intros f [H|H]; unfold convert.
      + now rewrite H.
      + rewrite H. now destruct (Str.endswith_any _ _). }
  unfold sorted_frame_paths. rewrite Hpaths. f_equal.
  apply (sorted_arrangement_unique entry_number).
  - apply sorted_by_sorted.
  - generalize 0%nat. generalize (length video). intros n.
    induction n as [|n IH]; intros start; cbn [seq map]; constructor; [apply IH|].
    apply Forall_forall. intros e He. apply list_elem_of_In, in_map_iff in He as (k & <- & Hk).
    apply in_seq in Hk. cbn. lia.
  - rewrite sorted_by_perm. exact Hentries.
Qed.

(** The example listing of a twelve-frame video, with a frame whose
    extension is in capitals, a picture without number and a text
    file: the frames come out in the order of their numbers. *)
Lemma listing_recovers_frame_order_witness :
  sorted_frame_paths "Frames/IST01" example_listing
  = (map (fun k => String.append "Frames/IST01/" (frame_file_name k)) (seq 0 5)
     ++ ["Frames/IST01/frame_0005.JPG"]
     ++ map (fun k => String.append "Frames/IST01/" (frame_file_name k)) (seq 6 6))%list /\
  sorted_frame_paths "Frames/IST01"
    ["frame_0002.jpg"; "notes.txt"; "frame_0000.jpg"; "cover.png"; "frame_0001.jpg"]
  = ["Frames/IST01/frame_0000.jpg"; "Frames/IST01/frame_0001.jpg";
     "Frames/IST01/frame_0002.jpg"].
Proof.
  split; [vm_compute; reflexivity|].
  apply (listing_recovers_frame_order [tt; tt; tt] "Frames/IST01" _ ["notes.txt"; "cover.png"]).
  - apply (bool_decide_unpack (Permutation _ _)). vm_compute. exact I.
  - constructor; [left; reflexivity|]. constructor; [right; reflexivity|]. constructor.
Defined.

Lemma odd_length_odd (n : Z) :
  0 <= n -> 0 < odd_length n /\ 2 * (odd_length n / 2) + 1 = odd_length n.
Proof.
  intros Hn. unfold odd_length.
  pose proof (Z.mod_pos_bound n 2 ltac:(lia)) as Hmod.
  destruct (Z.eqb_spec (n mod 2) 0) as [Heven|Hodd].
  - pose proof (Z.div_mod n 2 ltac:(lia)) as Hdm.
    replace (n + 1) with (1 + (n / 2) * 2) at 2 by lia.
    rewrite Z.div_add by lia. change (1 / 2) with 0. lia.
  - pose proof (Z.div_mod n 2 ltac:(lia)) as Hdm. lia.
Qed.

(** With a window length that is odd and positive, choosing the hit
    frame ends in one of two ways only: no frame got a score, or the
    window is ready. *)
Lemma select_hit_sequence_ready {Image} (imread : string -> option Image)
    (cnn1_score : Image -> option Q) (sorted_paths : list string) (n : Z) :
  0 < n -> 2 * (n / 2) + 1 = n ->
  match select_hit_sequence imread cnn1_score sorted_paths n with
  | NoPredictions => predictions_cnn1 imread cnn1_score sorted_paths = []
  | SequenceReady pred_hit_path pred_hit_idx sequence_paths =>
      (exists s, In (mkPrediction pred_hit_path s)
                    (predictions_cnn1 imread cnn1_score sorted_paths)) /\
      0 <= pred_hit_idx < Z.of_nat (length sorted_paths) /\
      nth_error sorted_paths (Z.to_nat pred_hit_idx) = Some pred_hit_path /\
      extract_sequence sorted_paths pred_hit_idx n = Some sequence_paths /\
      Z.of_nat (length sequence_paths) = n /\
      nth_error sequence_paths (Z.to_nat (n / 2)) = Some pred_hit_path /\
      (forall p, In p sequence_paths -> In p sorted_paths)
  | HitNotInList _ | LengthMismatch _ => False
  end.
Proof.
  intros Hpos Hodd. unfold select_hit_sequence, best_hit.
  destruct (predictions_cnn1 imread cnn1_score sorted_paths) as [|first rest] eqn:Epred;
    [reflexivity|].
  cbn [Py.max_key].
  destruct (max_by_spec score rest first) as (i & Hi & _).
  set (best := Py.max_by score first rest) in *.
  assert (Hbest : In best (predictions_cnn1 imread cnn1_score sorted_paths)).
  { rewrite Epred. apply list_elem_of_In. eapply list_elem_of_lookup_2. exact Hi. }
  assert (Hpath : In (pred_path best) sorted_paths).
  { apply list_elem_of_In.
    eapply elem_of_sublist; [|apply (predictions_in_file_order imread cnn1_score)].
    apply list_elem_of_In, in_map. exact Hbest. }
  destruct (list_index_Some String.eqb (pred_path best) sorted_paths) as [idx Hidx].
  { exists (pred_path best). split; [exact Hpath|apply String.eqb_refl]. }
  rewrite Hidx.
  destruct (list_index_spec _ _ _ _ Hidx) as (Hrange & (y & Hy & Hxy) & _).
  apply String.eqb_eq in Hxy. subst y.
  assert (Hne : sorted_paths <> []) by (destruct sorted_paths; [destruct Hpath|discriminate]).
  destruct (extract_sequence_Some sorted_paths idx n Hne) as (out & Hout & Hl & Hnth).
  rewrite Hout.
  assert (Hhalf : 0 <= n / 2) by (apply Z.div_pos; lia).
  assert (Hlen : Z.of_nat (length out) = n) by lia.
  rewrite Hlen, Z.eqb_refl.
  assert (Heta : forall p, mkPrediction (pred_path p) (score p) = p) by (now intros []).
  split; [exists (score best); rewrite Heta;
          first [exact Hbest|rewrite Epred in Hbest; exact Hbest]|].
  split; [exact Hrange|].
  split; [exact Hy|]. split; [first [exact Hout|reflexivity]|]. split; [exact Hlen|]. split.
  - rewrite Hnth by lia. rewrite <- Hy. f_equal. rewrite Z2Nat.id by lia. lia.
  - intros p Hp. apply In_nth_error in Hp as [k Hk].
    assert (Hlt : (k < length out)%nat) by (apply nth_error_Some; congruence).
    rewrite (Hnth k Hlt) in Hk. now apply nth_error_In in Hk.
Qed.

(** How the pipeline can end for a requested length [n >= 0], both
    models being loaded.  No hit frame is reported only when no frame
    of the directory got a score.  Otherwise the hit frame is a frame
    of the sorted listing and the window around it has the (odd) length
    asked for: the branches for a hit frame that is not found and for a
    window of the wrong length are never taken.  Coordinates are then
    missing only if a frame of the window other than the hit frame
    cannot be loaded, or if stacking fails; the hit frame itself always
    loads again. *)
Theorem pipeline_outcomes {Image Tensor : Type} (listdir : string -> option (list string))
    (imread : string -> option Image) (preprocess : Image -> option Tensor)
    (stack : list Tensor -> option Tensor) (cnn1 : Tensor -> option Q)
    (cnn2 : Tensor -> option (Q * Q)) (frames_directory : string) (n_frames_sequence : Z)
    (result : option (Q * Q) * option string) :
  0 <= n_frames_sequence ->
  predict_hit_and_landing listdir imread preprocess stack (Some cnn1) (Some cnn2)
    frames_directory n_frames_sequence = Some result ->
  let frames := sorted_frame_paths frames_directory (default [] (listdir frames_directory)) in
  match result.2 with
  | None =>
      result.1 = None /\
      predictions_cnn1 imread (fun img => inp ← preprocess img; cnn1 inp) frames = []
  | Some pred_hit_path =>
      exists pred_hit_idx sequence_paths,
        0 <= pred_hit_idx < Z.of_nat (length frames) /\
        nth_error frames (Z.to_nat pred_hit_idx) = Some pred_hit_path /\
        extract_sequence frames pred_hit_idx (odd_length n_frames_sequence)
          = Some sequence_paths /\
        Z.of_nat (length sequence_paths) = odd_length n_frames_sequence /\
        nth_error sequence_paths (Z.to_nat (odd_length n_frames_sequence / 2))
          = Some pred_hit_path /\
        is_Some (load_for_cnn2 imread preprocess pred_hit_path) /\
        match result.1 with
        | None =>
            (exists p, In p sequence_paths /\ p <> pred_hit_path /\
                       load_for_cnn2 imread preprocess p = None) \/
            (exists tensors,
               mapM (load_for_cnn2 imread preprocess) sequence_paths = Some tensors /\
               stack tensors = None)
        | Some predicted_norm_coords =>
            exists tensors input_batch,
              mapM (load_for_cnn2 imread preprocess) sequence_paths = Some tensors /\
              stack tensors = Some input_batch /\
              cnn2 input_batch = Some predicted_norm_coords
        end
  end.
Proof.
  intros Hn Hrun frames. unfold predict_hit_and_landing in Hrun.
  destruct (odd_length_odd n_frames_sequence Hn) as [Hpos Hodd].
  destruct (listdir frames_directory) as [all_files|] eqn:Elist.
  2:{ injection Hrun as <-. cbn. split; reflexivity. }
  change (default [] (Some all_files)) with all_files in frames.
  destruct (frames_with_numbers frames_directory all_files) as [|e entries] eqn:Eentries.
  { injection Hrun as <-. cbn [snd fst]. split; [reflexivity|].
    unfold frames, sorted_frame_paths. rewrite Eentries. reflexivity. }
  fold frames in Hrun.
  pose proof (select_hit_sequence_ready imread (fun img => inp ← preprocess img; cnn1 inp)
                frames (odd_length n_frames_sequence) Hpos Hodd) as Hsel.
  destruct (select_hit_sequence _ _ frames _) as [|h|h|h idx seq_paths];
    [injection Hrun as <-; cbn [snd fst]; split; [reflexivity|exact Hsel]
    |destruct Hsel|destruct Hsel|].
  destruct Hsel as ((s & Hin) & Hrange & Hnth & Hseq & Hlen & Hmid & _).
  assert (Hloads : is_Some (load_for_cnn2 imread preprocess h)).
  { apply list_elem_of_In, list_elem_of_omap in Hin as (p & _ & Hp).
    unfold load_for_cnn2.
    destruct (imread p) as [img|] eqn:Eread; [|discriminate]. cbn [mbind option_bind] in Hp.
    destruct (preprocess img) as [inp|] eqn:Epre; [|discriminate].
    cbn [mbind option_bind] in Hp.
    destruct (cnn1 inp); [|discriminate]. injection Hp as <- _.
    rewrite Eread. cbn [mbind option_bind]. rewrite Epre. now eexists. }
  destruct (mapM (load_for_cnn2 imread preprocess) seq_paths) as [tensors|] eqn:Emap;
    cbn [mbind option_bind] in Hrun.
  - destruct (stack tensors) as [batch|] eqn:Estack.
    + destruct (cnn2 batch) as [coords|] eqn:Ecnn2; [|discriminate].
      injection Hrun as <-. cbn [fst snd]. exists idx, seq_paths.
      do 6 (split; [assumption|]). exists tensors, batch. now split.
    + injection Hrun as <-. cbn [fst snd]. exists idx, seq_paths.
      do 6 (split; [assumption|]). right. exists tensors. now split.
  - injection Hrun as <-. cbn [fst snd]. exists idx, seq_paths.
    do 6 (split; [assumption|]). left.
    apply mapM_None_1, Exists_exists in Emap as (p & Hp & Hnone).
    exists p. split; [now apply list_elem_of_In|]. split; [|exact Hnone].
    intros ->. rewrite Hnone in Hloads. now destruct Hloads.
Qed.

(** The example directory with a requested length of 2: the window of
    three frames around frame 10 is built, and the pipeline reports the
    hit frame without coordinates because frame 11 cannot be read. *)
Lemma pipeline_outcomes_witness :
  exists pred_hit_idx sequence_paths,
    predict_hit_and_landing example_listdir example_pipeline_imread Some
      (fun tensors => Some (String.concat "+" tensors)) (Some example_cnn1) (Some example_cnn2)
      "Frames/IST01" 2
    = Some (None, Some "Frames/IST01/frame_0010.jpg") /\
    extract_sequence (sorted_frame_paths "Frames/IST01" example_listing) pred_hit_idx 3
    = Some sequence_paths /\
    Z.of_nat (length sequence_paths) = 3 /\
    In "Frames/IST01/frame_0011.jpg" sequence_paths.
Proof.
  assert (Hrun : predict_hit_and_landing example_listdir example_pipeline_imread Some
                   (fun tensors => Some (String.concat "+" tensors)) (Some example_cnn1)
                   (Some example_cnn2) "Frames/IST01" 2
                 = Some (None, Some "Frames/IST01/frame_0010.jpg"))
    by (vm_compute; reflexivity).
  destruct (pipeline_outcomes example_listdir example_pipeline_imread Some
              (fun tensors => Some (String.concat "+" tensors)) example_cnn1 example_cnn2
              "Frames/IST01" 2 _ ltac:(lia) Hrun)
    as (idx & seq_paths & _ & _ & Hseq & Hlen & _ & _ & Hfail).
  exists idx, seq_paths. split; [exact Hrun|]. split; [exact Hseq|]. split; [exact Hlen|].
  destruct Hfail as [(p & Hp & _ & Hnone)|(tensors & _ & Hstack)]; [|discriminate].
  unfold load_for_cnn2, example_pipeline_imread in Hnone.
  destruct (String.eqb_spec p "Frames/IST01/frame_0011.jpg") as [->|_]; [exact Hp|discriminate].
Defined.

(** ** Dataset classes *)



(** ** The labelling tool *)

Lemma insert_string_perm (x : string) (l : list string) :
  Permutation (insert_string x l) (x :: l).
Proof.
  induction l as [|y l IH]; [reflexivity|].
  cbn. destruct (String.compare y x); try reflexivity; rewrite IH; apply perm_swap.
Qed.

Lemma sort_strings_perm (l : list string) : Permutation (sort_strings l) l.
Proof.
  induction l as [|x l IH]; [reflexivity|].
  cbn. rewrite insert_string_perm. now constructor.
Qed.

Lemma no_slash_app_slash (d f : string) : Os.no_slash (d ++ String "/" f) = false.
Proof.
  induction d as [|c d IH]; [reflexivity|].
  rewrite append_cons. cbn. rewrite IH. apply andb_false_r.
Qed.

Lemma head_part_app (d f : string) :
  Os.no_slash f = true -> OsPath.head_part (d ++ String "/" f) = d ++ "/".
Proof.
  intros Hf. induction d as [|c d IH].
  - change (EmptyString ++ String "/" f) with (String "/" f).
    cbn [OsPath.head_part]. rewrite Hf. reflexivity.
  - rewrite !append_cons. cbn [OsPath.head_part]. rewrite no_slash_app_slash. now rewrite IH.
Qed.

Lemma all_slashes_app (d : string) :
  d <> EmptyString -> Os.ends_with_slash d = false -> OsPath.all_slashes (d ++ "/") = false.
Proof.
  induction d as [|c d IH]; intros Hne Hend; [congruence|].
  rewrite append_cons. cbn [OsPath.all_slashes]. destruct d as [|c' d'].
  - cbn in Hend. now rewrite Hend.
  - rewrite IH; [apply andb_false_r|discriminate|exact Hend].
Qed.

Lemma rstrip_slashes_app (d : string) :
  OsPath.rstrip_slashes (d ++ "/") = OsPath.rstrip_slashes d.
Proof.
  induction d as [|c d IH]; [reflexivity|].
  rewrite append_cons. cbn [OsPath.rstrip_slashes]. now rewrite IH.
Qed.

Lemma rstrip_slashes_id (d : string) :
  Os.ends_with_slash d = false -> OsPath.rstrip_slashes d = d.
Proof.
  induction d as [|c d IH]; intros Hend; [reflexivity|].
  cbn [OsPath.rstrip_slashes]. destruct d as [|c' d'].
  - cbn in Hend. cbn. now rewrite Hend.
  - rewrite IH by exact Hend. reflexivity.
Qed.

Lemma no_slash_not_absolute (f : string) :
  Os.no_slash f = true -> Os.starts_with_slash f = false.
Proof.
  destruct f as [|c f]; [reflexivity|]. cbn. intros H.
  apply andb_true_iff in H as [H _]. now apply negb_true_iff in H.
Qed.

Lemma path_join_plain (d f : string) :
  d <> EmptyString -> Os.ends_with_slash d = false -> Os.no_slash f = true ->
  Os.path_join d f = d ++ String "/" f.
Proof.
  intros Hne Hend Hf. unfold Os.path_join.
  rewrite (no_slash_not_absolute f Hf). destruct d; [congruence|]. now rewrite Hend.
Qed.

(** The directory of a file joined to a directory is that directory. *)
Lemma dirname_path_join (d f : string) :
  d <> EmptyString -> Os.ends_with_slash d = false -> Os.no_slash f = true ->
  OsPath.dirname (Os.path_join d f) = d.
Proof.
  intros Hne Hend Hf. rewrite path_join_plain by assumption.
  unfold OsPath.dirname. rewrite head_part_app by exact Hf.
  destruct d as [|c d]; [congruence|]. rewrite append_cons.
  rewrite <- append_cons, all_slashes_app by assumption.
  rewrite rstrip_slashes_app. now apply rstrip_slashes_id.
Qed.

Lemma append_inv_head (a b c : string) : a ++ b = a ++ c -> b = c.
Proof.
  induction a as [|x a IH]; [trivial|]. rewrite !append_cons. intros [= H]. now apply IH.
Qed.

Lemma NoDup_list_filter {A} (f : A -> bool) (l : list A) :
  NoDup l -> NoDup (List.filter f l).
Proof.
  intros H. eapply sublist_NoDup; [exact H|].
  clear H. induction l as [|x l IH]; [constructor|].
  cbn. destruct (f x); [now apply sublist_skip|now apply sublist_cons].
Qed.

(** What the frames of a video directory are: each [.jpg] file of the
    listing once, joined to the directory. *)
Lemma jpg_frames_spec (video_dir : string) (listing : list string) :
  video_dir <> EmptyString -> Os.ends_with_slash video_dir = false ->
  NoDup listing -> Forall (fun f => Os.no_slash f = true) listing ->
  NoDup (jpg_frames video_dir listing) /\
  (forall p, In p (jpg_frames video_dir listing) <->
             exists f, In f listing /\ Str.endswith f ".jpg" = true /\
                       Os.no_slash f = true /\ p = Os.path_join video_dir f).
Proof.
  intros Hne Hend Hnodup Hnames. unfold jpg_frames.
  set (jpgs := List.filter (fun frame => Str.endswith frame ".jpg") listing).
  assert (Hjpgs : forall f, In f jpgs <-> In f listing /\ Str.endswith f ".jpg" = true)
    by (intros f; apply (List.filter_In (fun frame => Str.endswith frame ".jpg"))).
  assert (Hns : forall f, In f jpgs -> Os.no_slash f = true).
  { intros f Hf. apply Hjpgs in Hf as [Hf _]. rewrite Forall_forall in Hnames.
    apply Hnames. now apply list_elem_of_In. }
  split.
  - rewrite sort_strings_perm. apply NoDup_fmap_2_strong.
    + intros f g Hf Hg. apply list_elem_of_In in Hf, Hg.
      rewrite !path_join_plain by auto.
      intros H. apply append_inv_head in H. now injection H.
    + unfold jpgs. now apply NoDup_list_filter.
  - intros p. split.
    + intros Hp. apply (Permutation_in _ (sort_strings_perm _)) in Hp.
      apply in_map_iff in Hp as (f & <- & Hf). exists f.
      pose proof (Hns f Hf). apply Hjpgs in Hf as [Hf Hext]. auto.
    + intros (f & Hf & Hext & _ & ->).
      apply (Permutation_in _ (Permutation_sym (sort_strings_perm _))).
      apply in_map, Hjpgs. now split.
Qed.

Lemma existsb_eqb_In (x : string) (l : list string) :
  existsb (String.eqb x) l = true <-> In x l.
Proof.
  rewrite existsb_exists. split.
  - intros (y & Hy & Heq). apply String.eqb_eq in Heq. now subst.
  - intros H. exists x. split; [exact H|apply String.eqb_refl].
Qed.

Lemma toggle_twice (selected : gset string) (f : string) :
  (if bool_decide (f ∈ (if bool_decide (f ∈ selected)
                        then selected ∖ {[ f ]} else selected ∪ {[ f ]}))
   then (if bool_decide (f ∈ selected) then selected ∖ {[ f ]} else selected ∪ {[ f ]})
        ∖ {[ f ]}
   else (if bool_decide (f ∈ selected) then selected ∖ {[ f ]} else selected ∪ {[ f ]})
        ∪ {[ f ]})
  = selected.
Proof.
  apply set_eq. intros x. destruct (decide (f ∈ selected)) as [Hin|Hout].
  - rewrite (bool_decide_eq_true_2 _ Hin).
    rewrite bool_decide_eq_false_2
      by (rewrite elem_of_difference, elem_of_singleton; intros [_ H]; now apply H).
    rewrite elem_of_union, elem_of_difference, elem_of_singleton.
    destruct (decide (x = f)) as [->|Hx]; intuition.
  - rewrite (bool_decide_eq_false_2 _ Hout).
    rewrite bool_decide_eq_true_2
      by (rewrite elem_of_union, elem_of_singleton; now right).
    rewrite elem_of_difference, elem_of_union, elem_of_singleton.
    destruct (decide (x = f)) as [->|Hx]; intuition.
Qed.

(** While a video with at least one frame is shown, whatever keys are
    pressed: the frame list is that of [load_video], the index stays
    inside it (so that the frame to show exists) and only frames of the
    video are selected.  Pressing space twice in a row leaves the
    selection as it was. *)
Theorem label_tool_navigation (current_video : string) (listing : list string)
    (keys : list Key) :
  jpg_frames current_video listing <> [] ->
  let self := fold_left press keys (load_video current_video listing) in
  tool_frames self = jpg_frames current_video listing /\
  0 <= current_frame_idx self < Z.of_nat (length (tool_frames self)) /\
  is_Some (Py.index (tool_frames self) (current_frame_idx self)) /\
  (forall f, f ∈ selected_frames self -> In f (tool_frames self)) /\
  selected_frames (toggle_frame_selection (toggle_frame_selection self))
    = selected_frames self.
Proof.
  intros Hne. cbv zeta.
  set (frames := jpg_frames current_video listing) in *.
  assert (Hinv : forall (keys : list Key) (st : LabelTool),
             tool_frames st = frames ->
             0 <= current_frame_idx st < Z.of_nat (length frames) ->
             (forall f, f ∈ selected_frames st -> In f frames) ->
             tool_frames (fold_left press keys st) = frames /\
             0 <= current_frame_idx (fold_left press keys st) < Z.of_nat (length frames) /\
             (forall f, f ∈ selected_frames (fold_left press keys st) -> In f frames)).
  { clear keys. induction keys as [|key keys IH]; intros st Hf Hi Hs; [now split|].
    cbn [fold_left]. apply IH; destruct key; cbn [press].
    - unfold prev_frame. destruct (_ <? _); exact Hf.
    - unfold next_frame. destruct (_ <? _); exact Hf.
    - unfold toggle_frame_selection. destruct (Py.index _ _); exact Hf.
    - unfold prev_frame. destruct (Z.ltb_spec 0 (current_frame_idx st)); cbn; lia.
    - unfold next_frame. rewrite Hf.
      destruct (Z.ltb_spec (current_frame_idx st) (Z.of_nat (length frames) - 1)); cbn; lia.
    - unfold toggle_frame_selection. destruct (Py.index _ _); exact Hi.
    - unfold prev_frame. destruct (_ <? _); exact Hs.
    - unfold next_frame. destruct (_ <? _); exact Hs.
    - unfold toggle_frame_selection.
      destruct (Py.index (tool_frames st) (current_frame_idx st)) as [current|] eqn:Ecur;
        [|exact Hs].
      cbn [selected_frames]. intros f Hfsel.
      assert (Hcur : In current frames).
      { rewrite Hf, index_in_range in Ecur by exact Hi. now apply nth_error_In in Ecur. }
      case_bool_decide.
      + apply elem_of_difference in Hfsel as [Hfsel _]. now apply Hs.
      + apply elem_of_union in Hfsel as [Hfsel|Hfsel]; [now apply Hs|].
        apply elem_of_singleton in Hfsel. now subst. }
  destruct (Hinv keys (load_video current_video listing)) as (Hf & Hi & Hs).
  { reflexivity. }
  { cbn. destruct frames; [congruence|cbn; lia]. }
  { cbn. intros f Hfsel. now apply elem_of_empty in Hfsel. }
  set (self := fold_left press keys (load_video current_video listing)) in *.
  rewrite Hf. split; [reflexivity|]. split; [exact Hi|].
  assert (Hsome : is_Some (Py.index frames (current_frame_idx self))).
  { rewrite index_in_range by exact Hi.
    destruct (nth_error frames (Z.to_nat (current_frame_idx self))) eqn:Enth; [now eexists|].
    apply nth_error_None in Enth. lia. }
  split; [exact Hsome|]. split; [exact Hs|].
  destruct Hsome as [current Hcur].
  unfold toggle_frame_selection. rewrite Hf, Hcur. cbn [tool_frames current_frame_idx].
  rewrite Hcur. cbn [selected_frames].
  apply toggle_twice.
Qed.

(** The example video: after moving right twice, selecting, moving
    right three times and left once, frame 2 is selected and frame 2 is
    shown again. *)
Lemma label_tool_navigation_witness :
  let self := fold_left press [KeyRight; KeyRight; KeySpace; KeyRight; KeyRight; KeyRight;
                               KeyLeft]
                (load_video "Frames/Misc/OCT07" example_video_listing) in
  current_frame_idx self = 2 /\
  0 <= current_frame_idx self < Z.of_nat (length (tool_frames self)) /\
  (forall f, f ∈ selected_frames self -> In f (tool_frames self)).
Proof.
  cbv zeta.
  destruct (label_tool_navigation "Frames/Misc/OCT07" example_video_listing
              [KeyRight; KeyRight; KeySpace; KeyRight; KeyRight; KeyRight; KeyLeft]
              ltac:(vm_compute; discriminate)) as (_ & Hi & _ & Hs & _).
  split; [vm_compute; reflexivity|]. split; [exact Hi|exact Hs].
Defined.



(** ** Landing table keys *)

Lemma str_of_int_inj (k k' : Z) : str_of_int k = str_of_int k' -> k = k'.
Proof.
  unfold str_of_int. intros H. apply DecimalZ.to_int_inj.
  apply (f_equal NilEmpty.int_of_string) in H. rewrite !NilEmpty.isi in H.
  now injection H.
Qed.

Lemma nzhead_no_leading_zero (u w : Decimal.uint) : Decimal.nzhead u <> Decimal.D0 w.
Proof.
  induction u; cbn; try discriminate. exact IHu.
Qed.

Lemma unorm_leading_zero (u w : Decimal.uint) :
  Decimal.unorm u = Decimal.D0 w -> w = Decimal.Nil.
Proof.
  unfold Decimal.unorm. pose proof (nzhead_no_leading_zero u w) as H.
  destruct (Decimal.nzhead u); intros E; congruence.
Qed.

(** The decimal writing of an integer has a leading zero only when it
    is ["0"]. *)
Lemma str_of_int_leading_zero (k : Z) (t : string) :
  str_of_int k = String "0" t -> t = EmptyString.
Proof.
  unfold str_of_int. intros H.
  pose proof (DecimalZ.to_of (Z.to_int k)) as Hnorm. rewrite DecimalZ.of_to in Hnorm.
  destruct (Z.to_int k) as [u|u]; [|discriminate].
  cbn [NilEmpty.string_of_int] in H.
  destruct u; cbn [NilEmpty.string_of_uint] in H; try discriminate.
  injection H as <-.
  cbn [Decimal.norm] in Hnorm. injection Hnorm as Hnorm. symmetry in Hnorm.
  apply unorm_leading_zero in Hnorm. now subst.
Qed.

Lemma str_of_int_nonempty (k : Z) : str_of_int k <> EmptyString.
Proof.
  unfold str_of_int. intros H.
  apply (f_equal NilEmpty.int_of_string) in H. rewrite NilEmpty.isi in H.
  cbn in H. injection H as H.
  pose proof (DecimalZ.to_of (Z.to_int k)) as Hnorm. rewrite DecimalZ.of_to, H in Hnorm.
  discriminate.
Qed.

Lemma append_nil_l (s : string) : EmptyString ++ s = s.
Proof. reflexivity. Qed.

(** The decimal writing of an integer is never a bare sign. *)
Lemma str_of_int_single (k : Z) (c : ascii) :
  str_of_int k = String c EmptyString -> Ascii.eqb c "+" || Ascii.eqb c "-" = false.
Proof.
  unfold str_of_int. intros H.
  pose proof (DecimalZ.to_of (Z.to_int k)) as Hnorm. rewrite DecimalZ.of_to in Hnorm.
  apply (f_equal NilEmpty.int_of_string) in H. rewrite NilEmpty.isi in H.
  destruct (Ascii.eqb_spec c "-") as [->|Hminus].
  - cbn in H. injection H as H. rewrite H in Hnorm. discriminate.
  - destruct (Ascii.eqb_spec c "+") as [->|Hplus]; [|reflexivity].
    cbn in H. discriminate.
Qed.

Lemma zfill_single (sign_aware : bool) (c : ascii) :
  Ascii.eqb c "+" || Ascii.eqb c "-" = false ->
  zfill sign_aware 2 (String c EmptyString) = String "0" (String c EmptyString).
Proof.
  intros H. unfold zfill. cbn [String.length Nat.leb Nat.sub repeat String.concat].
  rewrite H. now destruct sign_aware.
Qed.

Lemma zfill_long (sign_aware : bool) (c c2 : ascii) (t : string) :
  zfill sign_aware 2 (String c (String c2 t)) = String c (String c2 t).
Proof. reflexivity. Qed.

Lemma zfill_two_inj (sign_aware sign_aware' : bool) (k k' : Z) :
  zfill sign_aware 2 (str_of_int k) = zfill sign_aware' 2 (str_of_int k') -> k = k'.
Proof.
  intros H. apply str_of_int_inj.
  pose proof (str_of_int_nonempty k) as Hk. pose proof (str_of_int_nonempty k') as Hk'.
  pose proof (str_of_int_leading_zero k) as Hz. pose proof (str_of_int_leading_zero k') as Hz'.
  pose proof (str_of_int_single k) as Hs. pose proof (str_of_int_single k') as Hs'.
  destruct (str_of_int k) as [|c [|c2 t]]; [congruence| |];
    destruct (str_of_int k') as [|c' [|c2' t']]; try congruence.
  - rewrite !zfill_single in H by auto. now injection H as ->.
  - rewrite zfill_single, zfill_long in H by auto. injection H as <- <- <-.
    specialize (Hz' _ eq_refl). discriminate.
  - rewrite zfill_single, zfill_long in H by auto. injection H as -> -> ->.
    specialize (Hz _ eq_refl). discriminate.
  - rewrite !zfill_long in H. exact H.
Qed.

(** Distinct rows of the landing files get distinct keys, whatever the
    version of [zfill]: the [ShotID] tells the file and the index of a
    row.  Only a file that repeats an index makes
    [set_index(..., verify_integrity=True)] raise. *)
Theorem shot_id_injective (sign_aware : bool) (name name' : string) (k k' : Z) :
  In name csv_names -> In name' csv_names ->
  ShotID sign_aware name k = ShotID sign_aware name' k' -> name = name' /\ k = k'.
Proof.
  unfold csv_names, ShotID. intros Hn Hn' H.
  assert (Hprefix : forall a b c d e f x y,
             String a (String b (String c x)) = String d (String e (String f y)) ->
             a = d /\ b = e /\ c = f /\ x = y) by (intros * [= -> -> -> ->]; auto).
  cbn [In] in Hn, Hn'.
  repeat match goal with
         | Hx : _ \/ _ |- _ => destruct Hx as [<-|Hx]
         | Hx : False |- _ => destruct Hx
         end;
    vm_compute (default _ _) in H; rewrite !append_cons in H;
    change (EmptyString ++ ?x)%string with x in H;
    apply Hprefix in H as (Ha & Hb & Hc & Hz); try discriminate;
    (split; [reflexivity|now apply zfill_two_inj in Hz]).
Qed.

(** The fifth row of the indoor straight file and the fifth of the
    outdoor straight file: [IST05] and [OST05]. *)
Lemma shot_id_injective_witness :
  ShotID true "Indoor_Straight" 5 = "IST05" /\ ShotID false "Indoor_Straight" 123 = "IST123" /\
  ShotID true "Indoor_Straight" 5 <> ShotID true "Outdoor_Straight" 5.
Proof.
  split; [vm_compute; reflexivity|]. split; [vm_compute; reflexivity|].
  intros H.
  destruct (shot_id_injective true "Indoor_Straight" "Outdoor_Straight" 5 5) as [Hname _].
  - vm_compute. auto.
  - vm_compute. auto 6.
  - exact H.
  - discriminate.
Defined.

(** ** Frame table paths *)

Lemma replace_backslash_app (a b : string) :
  replace_backslash (a ++ b) = replace_backslash a ++ replace_backslash b.
Proof.
  induction a as [|c a IH]; [reflexivity|]. rewrite append_cons. cbn. now rewrite IH.
Qed.

Lemma replace_backslash_id (s : string) : no_backslash s = true -> replace_backslash s = s.
Proof.
  induction s as [|c s IH]; [reflexivity|]. cbn. intros H.
  apply andb_true_iff in H as [Hc Hs]. apply negb_true_iff in Hc. now rewrite Hc, IH.
Qed.

Lemma ends_with_slash_app (a b : string) :
  b <> EmptyString -> Os.ends_with_slash (a ++ b) = Os.ends_with_slash b.
Proof.
  intros Hb. induction a as [|c a IH]; [reflexivity|].
  rewrite append_cons. cbn [Os.ends_with_slash]. rewrite IH.
  destruct (a ++ b) eqn:E; [|reflexivity].
  destruct a; [rewrite append_nil_l in E; congruence|discriminate].
Qed.

Lemma no_slash_no_trailing_slash (s : string) :
  Os.no_slash s = true -> Os.ends_with_slash s = false.
Proof.
  induction s as [|c s IH]; [reflexivity|]. cbn. intros H.
  apply andb_true_iff in H as [Hc Hs]. apply negb_true_iff in Hc.
  destruct s; [exact Hc|now apply IH].
Qed.

(** The directory of what follows the last slash. *)
Lemma dirname_app (q file : string) :
  q <> EmptyString -> Os.ends_with_slash q = false -> Os.no_slash file = true ->
  OsPath.dirname (q ++ String "/" file) = q.
Proof.
  intros Hne Hend Hf. unfold OsPath.dirname. rewrite head_part_app by exact Hf.
  destruct q as [|c q]; [congruence|]. rewrite append_cons.
  rewrite <- append_cons, all_slashes_app by assumption.
  rewrite rstrip_slashes_app. now apply rstrip_slashes_id.
Qed.

Lemma path_join_suffix (a b rest : string) :
  exists p, Os.path_join a (b ++ rest) = p ++ rest.
Proof.
  unfold Os.path_join. destruct (Os.starts_with_slash (b ++ rest)); [now exists b|].
  destruct a as [|c a]; [now exists b|].
  destruct (Os.ends_with_slash (String c a)).
  - exists (String c a ++ b). now rewrite append_assoc.
  - exists (String c a ++ "/" ++ b). now rewrite !append_assoc.
Qed.

(** The frame table and the landing table meet on the name of the
    video folder: whatever the dataset path and the folders above,
    written with slashes or with backslashes, the [video_id] of a frame
    [.../name/file] is a path whose last component is [name], which
    [get_sequences] takes as [shot_id]. *)
Theorem video_id_names_the_shot (dataset_base_path folder name file : string)
    (windows : bool) :
  name <> EmptyString ->
  Os.no_slash name = true -> no_backslash name = true ->
  Os.no_slash file = true -> no_backslash file = true ->
  let sep := String (if windows then backslash else "/"%char) EmptyString in
  Py.basename (meta_video_id dataset_base_path (folder ++ sep ++ name ++ sep ++ file)) = name.
Proof.
  intros Hne Hname Hname' Hfile Hfile' sep.
  unfold meta_video_id, meta_frame_path.
  assert (Hsep : replace_backslash sep = "/") by (unfold sep; now destruct windows).
  rewrite !replace_backslash_app, Hsep, (replace_backslash_id name Hname'),
    (replace_backslash_id file Hfile').
  destruct (path_join_suffix (Os.path_join dataset_base_path "Frames")
              (replace_backslash folder) ("/" ++ name ++ "/" ++ file)) as [p ->].
  change ("/" ++ name ++ "/" ++ file) with (String "/" (name ++ String "/" file)).
  replace (p ++ String "/" (name ++ String "/" file))
    with ((p ++ String "/" name) ++ String "/" file)
    by (rewrite append_assoc; reflexivity).
  rewrite dirname_app.
  - unfold Py.basename. now apply basename_aux_after_slash.
  - destruct p; discriminate.
  - rewrite ends_with_slash_app by discriminate.
    change (String "/" name) with ("/" ++ name).
    rewrite ends_with_slash_app by exact Hne. now apply no_slash_no_trailing_slash.
  - exact Hfile.
Qed.

(** A row written on Windows for the fifth indoor straight shot: its
    [video_id] ends in the [ShotID] of the fifth row of the indoor
    straight landing file. *)
Lemma video_id_names_the_shot_witness :
  Py.basename
    (meta_video_id "/kaggle/input/st311-tennis"
       ("Indoor Field" ++ String backslash EmptyString ++ "IST05"
        ++ String backslash EmptyString ++ "frame_0003.jpg"))
  = ShotID true "Indoor_Straight" 5.
Proof.
  rewrite (video_id_names_the_shot "/kaggle/input/st311-tennis" "Indoor Field" "IST05"
             "frame_0003.jpg" true); [vm_compute; reflexivity|discriminate|reflexivity..].
Defined.
